(** * File-backed mail store of inbucket: [pkg/storage/file/fstore.go]

    A shallow embedding of the mailbox store and the properties of its
    index engine, path resolver, identifier generator and mailbox
    operations.

    Conventions of the embedding.
    - A Go [error] is an [option error]; [None] is [nil].
    - A method on [*mbox] takes the handle and the file system and returns
      its Go results together with the file system it leaves and, when it
      assigns to fields of the handle, the updated handle.
    - The two package mutexes ([indexMx], [dirMx]) only serialise the
      methods; the embedding is of one method running at a time, and the
      calls to [log] have no effect on the state and are left out.
    - The operating system calls fail exactly where the shape of the file
      system makes them fail (a missing parent, a file where a directory is
      expected, ...); permission, quota and device errors are outside the
      model. *)

From Stdlib Require Import ZArith Lia Ascii String.
From stdpp Require Import gmap strings list fin_maps sorting.

Local Open Scope string_scope.
Local Open Scope nat_scope.
Local Open Scope list_scope.

(** ** Paths

    [filepath.Join] is applied by the source to operands that are already
    clean; a path is kept as the list of its components, so that joining is
    appending, [filepath.Dir] drops the last component, and the empty list
    is the empty string (which [Join] ignores). *)

Abbreviation pathname := (list string).

Definition filepath_Join (p : pathname) (elems : list string) : pathname := p ++ elems.

Definition filepath_Dir (p : pathname) : pathname := removelast p.

(** The text of a path, with the separator of the platform. *)
Definition path_string (p : pathname) : string := String.concat "/" p.

(** ** The file system *)

(** A [time.Time], as the fields of its civil time in its own location,
    at the resolution of a second. *)
Record Time : Type := mkTime {
  t_year : Z; t_month : Z; t_day : Z;
  t_hour : Z; t_minute : Z; t_second : Z
}.

(** Values an [encoding/gob] stream transmits; a file holds the values
    written to it, in order.  The encoder of the source is given the
    mailbox name (a string) and then one [Message] after the other; of a
    struct, gob transmits the exported fields only.  [GobJunk] stands for
    bytes that are no complete gob value (a truncated or damaged record,
    or the content of a raw message file). *)
Inductive gobval : Type :=
| GobString (s : string)
| GobStruct (fid : string) (fdate : Time) (ffrom : string)
            (fto : list string) (fsize : Z) (fsubject : string)
| GobJunk (bytes : list Z).

Inductive node : Type :=
| Dir
| File (content : list gobval).

Abbreviation FS := (gmap pathname node).

(** The root of the tree (the empty pathname) always exists and is a
    directory. *)
Definition fs_lookup (fs : FS) (p : pathname) : option node :=
  match p with
  | [] => Some Dir
  | _ => fs !! p
  end.

(** ** Errors *)

Inductive gob_error : Type :=
| io_EOF
| gob_bad_data
| gob_type_mismatch
| read_is_a_directory.

Inductive error : Type :=
| ErrNotExist                                   (* storage.ErrNotExist *)
| ErrCorrupt (indexPath : pathname) (cause : gob_error)
| ErrInvalidName (detail : string)              (* from the name policy *)
| PathError (op : string) (p : pathname).           (* *os.PathError *)

(** ** Operating system calls *)

(** The results of a Go function that returns a value and an error, of
    which one is nil; [Panic] is a run-time panic. *)
Inductive result (A : Type) : Type :=
| Ok (a : A)
| Error (e : error)
| Panic (msg : string).
Arguments Ok {A} a.
Arguments Error {A} e.
Arguments Panic {A} msg.

(** [os.Stat] and [os.Open]: what is at the path; [None] when the call
    returns an error, which it does when nothing is there. *)
Definition os_Stat (fs : FS) (p : pathname) : option node := fs_lookup fs p.

Definition os_Open (fs : FS) (p : pathname) : option node := fs_lookup fs p.

(** [os.MkdirAll]: creates the directory and every missing parent; a file
    on the way is an error, directories already there are kept. *)
Fixpoint mkdir_from (pre : pathname) (rest : list string) (fs : FS)
  : option error * FS :=
  match rest with
  | [] => (None, fs)
  | c :: rest' =>
      let p := pre ++ [c] in
      match fs !! p with
      | Some (File _) => (Some (PathError "mkdir" p), fs)
      | Some Dir => mkdir_from p rest' fs
      | None => mkdir_from p rest' (<[p := Dir]> fs)
      end
  end.

Definition os_MkdirAll (p : pathname) (fs : FS) : option error * FS :=
  mkdir_from [] p fs.

(** [os.Create]: creates or truncates the file; its directory must exist
    and the path must not be a directory. *)
Definition os_Create (p : pathname) (fs : FS) : option error * FS :=
  match p with
  | [] => (Some (PathError "open" p), fs)
  | _ =>
      match fs_lookup fs (filepath_Dir p), fs !! p with
      | Some Dir, Some Dir => (Some (PathError "open" p), fs)
      | Some Dir, _ => (None, <[p := File []]> fs)
      | _, _ => (Some (PathError "open" p), fs)
      end
  end.

(** What [bufio.Writer.Flush] followed by [File.Close] leaves in a file
    opened by [os.Create]. *)
Definition flush_and_close (p : pathname) (buffered : list gobval) (fs : FS) : FS :=
  <[p := File buffered]> fs.

(** Names of the entries of a directory ([File.Readdirnames]). *)
Definition is_child_of (dir : pathname) (p : pathname) : bool :=
  bool_decide (p ≠ [] ∧ filepath_Dir p = dir).

Definition Readdirnames (fs : FS) (dir : pathname) : list string :=
  omap (λ kv : pathname * node, if is_child_of dir kv.1 then last kv.1 else None)
       (map_to_list fs).

(** [os.Remove]: removes a file or an empty directory. *)
Definition os_Remove (p : pathname) (fs : FS) : option error * FS :=
  match p with
  | [] => (Some (PathError "remove" p), fs)
  | _ =>
      match fs !! p with
      | None => (Some (PathError "remove" p), fs)
      | Some (File _) => (None, delete p fs)
      | Some Dir =>
          match Readdirnames fs p with
          | [] => (None, delete p fs)
          | _ :: _ => (Some (PathError "remove" p), fs)
          end
      end
  end.

(** [os.RemoveAll]: removes the path and everything below it; a path that
    does not exist is no error, and neither is the empty path, for which
    nothing is removed. *)
Definition os_RemoveAll (p : pathname) (fs : FS) : option error * FS :=
  match p with
  | [] => (None, fs)
  | _ => (None, filter (λ kv : pathname * node, ¬ p `prefix_of` kv.1) fs)
  end.


(** ** The data of the store *)

(** Name of index file in each mailbox. *)
Definition indexFileName : string := "index.gob".

(** Modelled from the spec: the declaration of [Message] is not part of
    [fstore.go].  The spec gives an entry an identifier, an arrival
    timestamp, a sender, the recipients in order, the size of the raw
    content and the subject, and a back-reference to the owning mailbox
    that serves only to compute the raw file's path; the reference is kept
    as the directory of the owner. *)
Record Message : Type := mkMessage {
  mailbox : pathname;
  Fid : string;
  Fdate : Time;
  Ffrom : string;
  Fto : list string;
  Fsize : Z;
  Fsubject : string
}.

(** Modelled from the spec: [Message.rawPath], declared next to [Message];
    the raw content is kept in the mailbox directory under the message's
    identifier. *)
Definition rawPath (m : Message) : pathname :=
  filepath_Join (mailbox m) [Fid m].

(** Modelled from the spec: [Message.ID], declared next to [Message],
    gives the identifier; [removeMessage] compares it where [getMessage]
    compares the field. *)
Definition ID (m : Message) : string := Fid m.

Record Store : Type := mkStore {
  basePath : pathname;          (* field [path] of the source *)
  mailPath : pathname;
  messageCap : Z
}.

Record mbox : Type := mkMbox {
  store : Store;
  name : string;
  dirName : string;
  path : pathname;
  indexLoaded : bool;
  indexPath : pathname;
  messages : list Message
}.

Definition set_messages (l : list Message) (mb : mbox) : mbox :=
  mkMbox (store mb) (name mb) (dirName mb) (path mb) (indexLoaded mb)
         (indexPath mb) l.

Definition set_name (n : string) (mb : mbox) : mbox :=
  mkMbox (store mb) n (dirName mb) (path mb) (indexLoaded mb)
         (indexPath mb) (messages mb).

Definition set_indexLoaded (b : bool) (mb : mbox) : mbox :=
  mkMbox (store mb) (name mb) (dirName mb) (path mb) b
         (indexPath mb) (messages mb).

(** ** gob *)

(** What [Encoder.Encode] transmits for a message: its exported fields. *)
Definition gob_of_Message (m : Message) : gobval :=
  GobStruct (Fid m) (Fdate m) (Ffrom m) (Fto m) (Fsize m) (Fsubject m).

(** [Encoder.Encode] appends one value to the (buffered) stream. *)
Definition Encode (v : gobval) (stream : list gobval) : list gobval :=
  stream ++ [v].

(** The result of one [Decoder.Decode]: the value and the rest of the
    stream, or an error; at the end of the stream the error is [io.EOF]. *)
Inductive decoded (A : Type) : Type :=
| DecOk (v : A) (rest : list gobval)
| DecErr (e : gob_error).
Arguments DecOk {A} v rest.
Arguments DecErr {A} e.

Definition Decode_string (stream : list gobval) : decoded string :=
  match stream with
  | [] => DecErr io_EOF
  | GobString s :: rest => DecOk s rest
  | GobStruct _ _ _ _ _ _ :: _ => DecErr gob_type_mismatch
  | GobJunk _ :: _ => DecErr gob_bad_data
  end.

(** Decoding into a fresh [&Message{}]: the exported fields are filled in,
    the back-reference is left for the caller to set. *)
Definition Decode_Message (owner : pathname) (stream : list gobval)
  : decoded Message :=
  match stream with
  | [] => DecErr io_EOF
  | GobStruct fid fdate ffrom fto fsize fsubject :: rest =>
      DecOk (mkMessage owner fid fdate ffrom fto fsize fsubject) rest
  | GobString _ :: _ => DecErr gob_type_mismatch
  | GobJunk _ :: _ => DecErr gob_bad_data
  end.

(** The six fields of an entry that the index stores. *)
Definition exported (m : Message)
  : string * Time * string * list string * string * Z :=
  (Fid m, Fdate m, Ffrom m, Fto m, Fsubject m, Fsize m).

(** ** Directory lifecycle *)

(** createDir checks for the presence of the path for this mailbox, creates
    it if needed. *)
Definition createDir (mb : mbox) (fs : FS) : option error * FS :=
  match os_Stat fs (path mb) with
  | None => os_MkdirAll (path mb) fs
  | Some _ => (None, fs)
  end.

(** removeDirIfEmpty will remove the specified directory if it contains no
    files or directories.  Returns true if dir was removed. *)
Definition removeDirIfEmpty (p : pathname) (fs : FS) : bool * FS :=
  match os_Open fs p with
  | None => (false, fs)                       (* os.Open fails *)
  | Some (File _) => (false, fs)              (* Readdirnames fails *)
  | Some Dir =>
      match Readdirnames fs p with
      | _ :: _ => (false, fs)                 (* Dir not empty *)
      | [] =>
          match os_Remove p fs with
          | (Some _, fs') => (false, fs')
          | (None, fs') => (true, fs')
          end
      end
  end.

(** removeDir removes the mailbox, plus empty higher level directories. *)
Definition removeDir (mb : mbox) (fs : FS) : option error * FS :=
  match os_RemoveAll (path mb) fs with
  | (Some err, fs1) => (Some err, fs1)
  | (None, fs1) =>
      let dir := filepath_Dir (path mb) in
      match removeDirIfEmpty dir fs1 with
      | (true, fs2) => (None, (removeDirIfEmpty (filepath_Dir dir) fs2).2)
      | (false, fs2) => (None, fs2)
      end
  end.

(** ** The index engine *)

(** The loop of [readIndex]: load messages until EOF; any other error ends
    the loop with the messages appended so far left in the handle. *)
Fixpoint readIndex_loop (owner : pathname) (stream : list gobval)
    (msgs : list Message) : list Message * option gob_error :=
  match stream with
  | [] => (msgs, None)
  | GobStruct fid fdate ffrom fto fsize fsubject :: rest =>
      readIndex_loop owner rest
        (msgs ++ [mkMessage owner fid fdate ffrom fto fsize fsubject])
  | GobString _ :: _ => (msgs, Some gob_type_mismatch)
  | GobJunk _ :: _ => (msgs, Some gob_bad_data)
  end.

(** readIndex loads the mailbox index data from disk. *)
Definition readIndex (mb : mbox) (fs : FS) : option error * mbox * FS :=
  (* Clear message slice, open index *)
  let mb := set_messages [] mb in
  match os_Stat fs (indexPath mb) with
  | None =>
      (* Does not exist, but that's not an error in our world *)
      (None, set_indexLoaded true mb, fs)
  | Some _ =>
      match os_Open fs (indexPath mb) with
      | None => (Some (PathError "open" (indexPath mb)), mb, fs)
      | Some Dir =>
          (* a directory opens, and the decoder's first read fails *)
          (Some (ErrCorrupt (indexPath mb) read_is_a_directory), mb, fs)
      | Some (File stream) =>
          (* Decode gob data *)
          match Decode_string stream with
          | DecErr e => (Some (ErrCorrupt (indexPath mb) e), mb, fs)
          | DecOk nm rest =>
              let mb := set_name nm mb in
              match readIndex_loop (path mb) rest (messages mb) with
              | (msgs, Some e) =>
                  (Some (ErrCorrupt (indexPath mb) e),
                   set_messages msgs mb, fs)
              | (msgs, None) =>
                  (None, set_indexLoaded true (set_messages msgs mb), fs)
              end
          end
      end
  end.

(** writeIndex overwrites the index on disk with the current mailbox
    data. *)
Definition writeIndex (mb : mbox) (fs : FS) : option error * FS :=
  match messages mb with
  | _ :: _ =>
      (* Ensure mailbox directory exists *)
      match createDir mb fs with
      | (Some err, fs1) => (Some err, fs1)
      | (None, fs1) =>
          (* Open index for writing *)
          match os_Create (indexPath mb) fs1 with
          | (Some err, fs2) => (Some err, fs2)
          | (None, fs2) =>
              (* Write each message and then flush *)
              let enc := Encode (GobString (name mb)) [] in
              let enc :=
                fold_left (λ e m, Encode (gob_of_Message m) e)
                          (messages mb) enc in
              (None, flush_and_close (indexPath mb) enc fs2)
          end
      end
  | [] =>
      (* No messages, delete index+maildir *)
      removeDir mb fs
  end.

(** ** Mailbox operations *)

(** getMessages returns the messages of the mailbox, loading the index
    first when it is not loaded. *)
Definition getMessages (mb : mbox) (fs : FS)
  : result (list Message) * mbox * FS :=
  let '(err, mb, fs) :=
    if indexLoaded mb then (None, mb, fs) else readIndex mb fs in
  match err with
  | Some e => (Error e, mb, fs)
  | None => (Ok (messages mb), mb, fs)
  end.

(** The search loops of [getMessage] and [removeMessage]: the first entry
    with the identifier, and its position. *)
Fixpoint find_id (id : string) (i : nat) (l : list Message)
  : option (nat * Message) :=
  match l with
  | [] => None
  | m :: l' =>
      if decide (Fid m = id) then Some (i, m) else find_id id (S i) l'
  end.

(** getMessage decodes a single message by ID and returns a Message
    object. *)
Definition getMessage (id : string) (mb : mbox) (fs : FS)
  : result Message * mbox * FS :=
  let '(err, mb, fs) :=
    if indexLoaded mb then (None, mb, fs) else readIndex mb fs in
  match err with
  | Some e => (Error e, mb, fs)
  | None =>
      match decide (id = "latest"), last (messages mb) with
      | left _, Some m => (Ok m, mb, fs)
      | _, _ =>
          match find_id id 0 (messages mb) with
          | Some (_, m) => (Ok m, mb, fs)
          | None => (Error ErrNotExist, mb, fs)
          end
      end
  end.

(** removeMessage deletes the message off disk and removes it from the
    index. *)
Definition removeMessage (id : string) (mb : mbox) (fs : FS)
  : option error * mbox * FS :=
  let '(err, mb, fs) :=
    if indexLoaded mb then (None, mb, fs) else readIndex mb fs in
  match err with
  | Some e => (Some e, mb, fs)
  | None =>
      match find_id id 0 (messages mb) with
      | None => (Some ErrNotExist, mb, fs)
      | Some (i, msg) =>
          (* Slice around message we are deleting *)
          let mb :=
            set_messages (take i (messages mb) ++ drop (S i) (messages mb))
                         mb in
          match writeIndex mb fs with
          | (Some e, fs1) => (Some e, mb, fs1)
          | (None, fs1) =>
              match messages mb with
              | [] =>
                  (* This was the last message, thus writeIndex() has
                     removed the entire directory *)
                  (None, mb, fs1)
              | _ :: _ =>
                  (* There are still messages in the index *)
                  let '(e, fs2) := os_Remove (rawPath msg) fs1 in
                  (e, mb, fs2)
              end
          end
      end
  end.

(** purge deletes all messages in this mailbox. *)
Definition purge (mb : mbox) (fs : FS) : option error * mbox * FS :=
  let mb := set_messages [] mb in
  let '(e, fs1) := writeIndex mb fs in
  (e, mb, fs1).

(** ** The store *)

Record DataStoreConfig : Type := mkConfig {
  Path : pathname;
  MailboxMsgCap : Z
}.

(** New creates a new DataStore object using the specified path; the mail
    directory is created when it is missing, and a failure to create it is
    only logged. *)
Definition New (cfg : DataStoreConfig) (fs : FS) : option Store * FS :=
  match Path cfg with
  | [] => (None, fs)
  | _ =>
      let mailPath := filepath_Join (Path cfg) ["mail"] in
      let fs' :=
        match os_Stat fs mailPath with
        | None => (os_MkdirAll mailPath fs).2
        | Some _ => fs
        end in
      (Some (mkStore (Path cfg) mailPath (MailboxMsgCap cfg)), fs')
  end.

(** A Go slice expression [s[lo:hi]] on a string; out of range it
    panics. *)
Definition string_slice (s : string) (lo hi : nat) : option string :=
  if decide ((lo ≤ hi)%nat ∧ (hi ≤ String.length s)%nat)
  then Some (String.substring lo (hi - lo) s)
  else None.

Section Resolver.

(** The name policy and the name hash are collaborators of the store
    ([policy.ParseMailboxName], [stringutil.HashMailboxName]). *)
Variable ParseMailboxName : string → result string.
Variable HashMailboxName : string → string.

(** mbox returns the named mailbox. *)
Definition Store_mbox (st : Store) (mailbox : string) : result mbox :=
  match ParseMailboxName mailbox with
  | Error e => Error e
  | Panic msg => Panic msg
  | Ok name =>
      let dir := HashMailboxName name in
      match string_slice dir 0 3, string_slice dir 0 6 with
      | Some s1, Some s2 =>
          let path := filepath_Join (mailPath st) [s1; s2; dir] in
          let indexPath := filepath_Join path [indexFileName] in
          Ok (mkMbox st name dir path false indexPath [])
      | _, _ => Panic "slice bounds out of range"
      end
  end.

(** GetMessage returns the message of the named mailbox, or an error. *)
Definition GetMessage (st : Store) (mailbox id : string) (fs : FS)
  : result Message * FS :=
  match Store_mbox st mailbox with
  | Error e => (Error e, fs)
  | Panic msg => (Panic msg, fs)
  | Ok mb => let '(r, _, fs') := getMessage id mb fs in (r, fs')
  end.

(** GetMessages returns the messages in the named mailbox, or an
    error. *)
Definition GetMessages (st : Store) (mailbox : string) (fs : FS)
  : result (list Message) * FS :=
  match Store_mbox st mailbox with
  | Error e => (Error e, fs)
  | Panic msg => (Panic msg, fs)
  | Ok mb => let '(r, _, fs') := getMessages mb fs in (r, fs')
  end.

(** RemoveMessage deletes a message by ID from the specified mailbox. *)
Definition RemoveMessage (st : Store) (mailbox id : string) (fs : FS)
  : result unit * FS :=
  match Store_mbox st mailbox with
  | Error e => (Error e, fs)
  | Panic msg => (Panic msg, fs)
  | Ok mb =>
      let '(e, _, fs') := removeMessage id mb fs in
      (match e with Some e => Error e | None => Ok tt end, fs')
  end.

(** PurgeMessages deletes all messages in the named mailbox, or returns
    an error. *)
Definition PurgeMessages (st : Store) (mailbox : string) (fs : FS)
  : result unit * FS :=
  match Store_mbox st mailbox with
  | Error e => (Error e, fs)
  | Panic msg => (Panic msg, fs)
  | Ok mb =>
      let '(e, _, fs') := purge mb fs in
      (match e with Some e => Error e | None => Ok tt end, fs')
  end.

End Resolver.

(** ** The identifier generator *)

(** Decimal digits of a number that is not negative, most significant
    first. *)
Definition decimal_digits : string := "0123456789".

Definition digit_char (d : Z) : ascii :=
  default "0"%char (String.get (Z.to_nat d) decimal_digits).

Fixpoint dec_digits (fuel : nat) (n : Z) (acc : string) : string :=
  match fuel with
  | O => acc
  | S fuel' =>
      let acc' := String (digit_char (n mod 10)) acc in
      if (n / 10 =? 0)%Z then acc' else dec_digits fuel' (n / 10) acc'
  end.

Definition itoa (n : Z) : string :=
  dec_digits (S (Z.to_nat (Z.log2 n))) n "".

Fixpoint zeros (k : nat) : string :=
  match k with
  | O => ""
  | S k' => String "0" (zeros k')
  end.

Definition zero_pad (width : nat) (s : string) : string :=
  zeros (width - String.length s) ++ s.

(** [appendInt] of package [time]: the sign, then the digits padded with
    zeros to the width. *)
Definition appendInt (x : Z) (width : nat) : string :=
  if (x <? 0)%Z then "-" ++ zero_pad width (itoa (- x))
  else zero_pad width (itoa x).

(** [fmt.Sprintf("%04d", n)]: the sign counts for the width. *)
Definition Sprintf_04d (n : Z) : string :=
  if (n <? 0)%Z then "-" ++ zero_pad 3 (itoa (- n))
  else zero_pad 4 (itoa n).

(** generatePrefix converts a Time object into the ISO style format we use
    as a prefix for message files: [date.Format("20060102T150405")]. *)
Definition generatePrefix (date : Time) : string :=
  appendInt (t_year date) 4 ++ appendInt (t_month date) 2
  ++ appendInt (t_day date) 2 ++ "T"
  ++ appendInt (t_hour date) 2 ++ appendInt (t_minute date) 2
  ++ appendInt (t_second date) 2.

(** The generator goroutine and the channel it fills: [gen_i] is the loop
    variable of [countGenerator], [countChannel] the values buffered in the
    channel, oldest first. *)
Record counter : Type := mkCounter {
  gen_i : Z;
  countChannel : list Z
}.

(** [make(chan int, 10)] *)
Definition countChannel_cap : nat := 10.

(** The state when [init] starts the generator. *)
Definition counter_init : counter := mkCounter 0 [].

(** One iteration of the loop of [countGenerator]: [c <- i], then
    [i = (i + 1) % 10000].  The send blocks ([None]) while the channel is
    full. *)
Definition countGenerator (s : counter) : option counter :=
  if decide (length (countChannel s) < countChannel_cap)%nat
  then Some (mkCounter ((gen_i s + 1) mod 10000) (countChannel s ++ [gen_i s]))
  else None.

(** [<-countChannel]: blocks ([None]) while the channel is empty. *)
Definition receive (s : counter) : option (Z * counter) :=
  match countChannel s with
  | [] => None
  | v :: q => Some (v, mkCounter (gen_i s) q)
  end.

(** generateId adds a 4-digit unique number onto the end of the string
    returned by generatePrefix(). *)
Definition generateID (date : Time) (s : counter) : option (string * counter) :=
  match receive s with
  | None => None
  | Some (n, s') =>
      Some ((generatePrefix date ++ "-" ++ Sprintf_04d n)%string, s')
  end.

(** The goroutines interleave; a schedule lists, in the order they take
    effect, the sends of the generator and the calls of [generateID] (a
    send to a waiting receiver is a send followed by a receive). *)
Inductive event : Type :=
| GeneratorSends
| CallGenerateID (date : Time).

(** Runs a schedule, collecting the issued identifiers with their dates,
    oldest first; [None] when the schedule asks a blocked goroutine to
    move. *)
Fixpoint run (sched : list event) (s : counter) (issued : list (Time * string))
  : option (counter * list (Time * string)) :=
  match sched with
  | [] => Some (s, issued)
  | GeneratorSends :: sched' =>
      match countGenerator s with
      | None => None
      | Some s' => run sched' s' issued
      end
  | CallGenerateID date :: sched' =>
      match generateID date s with
      | None => None
      | Some (id, s') => run sched' s' (issued ++ [(date, id)])
      end
  end.

(** The part of an identifier after its last four characters are split
    off: the sequence value it carries. *)
Definition sequence_of (id : string) : string :=
  String.substring (String.length id - 4) 4 id.

(** The shape [YYYYMMDDTHHMMSS-NNNN]: [T] and [-] stand for themselves,
    every other character of the layout for a decimal digit. *)
Fixpoint position_in (c : ascii) (s : string) (i : Z) : option Z :=
  match s with
  | EmptyString => None
  | String x s' => if Ascii.eqb x c then Some i else position_in c s' (i + 1)%Z
  end.

Definition digit_value (c : ascii) : option Z :=
  position_in c decimal_digits 0.

Definition is_digit (c : ascii) : bool :=
  match digit_value c with Some _ => true | None => false end.

Fixpoint matches_layout (layout s : string) : bool :=
  match layout, s with
  | EmptyString, EmptyString => true
  | String l layout', String c s' =>
      (if Ascii.eqb l "T" || Ascii.eqb l "-"
       then Ascii.eqb c l else is_digit c)
      && matches_layout layout' s'
  | _, _ => false
  end.

Definition identifier_layout : string := "YYYYMMDDTHHMMSS-NNNN".

(** The fields of a [time.Time] other than the year are always within
    these bounds. *)
Definition clock_fields (t : Time) : Prop :=
  (1 ≤ t_month t ≤ 12 ∧ 1 ≤ t_day t ≤ 31 ∧ 0 ≤ t_hour t ≤ 23
   ∧ 0 ≤ t_minute t ≤ 59 ∧ 0 ≤ t_second t ≤ 59)%Z.

(** ** Vocabulary of the statements *)

(** Reading a decimal numeral back. *)
Fixpoint parse_dec (s : string) (acc : Z) : Z :=
  match s with
  | EmptyString => acc
  | String c s' => parse_dec s' (10 * acc + default 0 (digit_value c))%Z
  end.

(** A check of every number from [start] on, [count] of them. *)
Fixpoint all_from (count : nat) (start : Z) (P : Z → bool) : bool :=
  match count with
  | O => true
  | S count' => P start && all_from count' (start + 1)%Z P
  end.

Definition below (bound : nat) (P : Z → bool) : bool := all_from bound 0 P.

(** The value of the [k]-th send of the generator. *)
Definition nth_value (k : nat) : Z := (Z.of_nat k mod 10000)%Z.

(** After [k] receives the channel holds the values of the sends [k],
    [k+1], ... in order, and the generator is about to send the next. *)
Definition counter_inv (k : nat) (s : counter) : Prop :=
  countChannel s = nth_value <$> seq k (length (countChannel s))
  ∧ gen_i s = nth_value (k + length (countChannel s)).

(** Every identifier issued so far carries the value of its position. *)
Definition issued_inv (issued : list (Time * string)) : Prop :=
  ∀ k date id, issued !! k = Some (date, id) →
    id = generatePrefix date +:+ "-" +:+ Sprintf_04d (nth_value k).

Definition schedule_two_ids : list event :=
  [GeneratorSends; GeneratorSends; CallGenerateID (mkTime 2018 3 4 5 6 7);
   GeneratorSends; CallGenerateID (mkTime 2018 3 4 5 6 8)].

(** Sample data for the statements about concrete inputs. *)
Definition sample_token : string := "da39a3ee5e6b4b0d3255bfef95601890afd80709".

Definition sample_parse (mailbox : string) : result string := Ok mailbox.

Definition sample_hash (name : string) : string := sample_token.

Definition sample_store : Store := mkStore ["data"] ["data"; "mail"] 0.

Definition sample_dir : pathname :=
  ["data"; "mail"; "da3"; "da39a3"; sample_token].

Definition sample_msg1 : Message :=
  mkMessage sample_dir "20180304T050607-0000" (mkTime 2018 3 4 5 6 7)
            "a@x.com" ["b@y.com"] 120 "hi".

Definition sample_msg2 : Message :=
  mkMessage sample_dir "20180304T050608-0001" (mkTime 2018 3 4 5 6 8)
            "c@x.com" ["b@y.com"; "d@y.com"] 64 "re: hi".

Definition sample_mbox (loaded : bool) (msgs : list Message) : mbox :=
  mkMbox sample_store "b" sample_token sample_dir loaded
         (sample_dir ++ [indexFileName]) msgs.

(** Two entries agree on what the index stores of them. *)
Definition same_metadata (a b : Message) : Prop :=
  Fid a = Fid b ∧ Fdate a = Fdate b ∧ Ffrom a = Ffrom b ∧ Fto a = Fto b
  ∧ Fsubject a = Fsubject b ∧ Fsize a = Fsize b.

(** The entry as a handle with directory [owner] loads it. *)
Definition owned_by (owner : pathname) (m : Message) : Message :=
  mkMessage owner (Fid m) (Fdate m) (Ffrom m) (Fto m) (Fsize m) (Fsubject m).

(** What a successful [writeIndex] leaves in the index file. *)
Definition index_stream (nm : string) (msgs : list Message) : list gobval :=
  GobString nm :: (gob_of_Message <$> msgs).

(** An index whose decoding fails with an error that is not [io.EOF]: on
    the header, or on the record that follows some well-formed records. *)
Inductive corrupt_index (owner : pathname)
  : list gobval → list Message → gob_error → Prop :=
| corrupt_header (stream : list gobval) (e : gob_error) :
    Decode_string stream = DecErr e → e ≠ io_EOF →
    corrupt_index owner stream [] e
| corrupt_record (nm : string) (good : list Message) (bad : list gobval)
    (e : gob_error) :
    Decode_Message owner bad = DecErr e → e ≠ io_EOF →
    corrupt_index owner (index_stream nm good ++ bad) good e.

(** An index file with one well-formed record followed by a damaged one. *)
Definition sample_corrupt_fs : FS :=
  {[ sample_dir ++ [indexFileName] :=
       File (index_stream "b" [sample_msg1] ++ [GobJunk [1; 2; 3]%Z]) ]}.

(** A directory with no entry other than, possibly, [c]. *)
Definition empty_but (fs : FS) (d : pathname) (c : string) : Prop :=
  fs !! d = Some Dir ∧ ∀ c', c' ≠ c → fs !! (d ++ [c']) = None.

(** Between two states of the disk nothing was created or written. *)
Definition only_removes (fs fs' : FS) : Prop :=
  ∀ p, fs' !! p = fs !! p ∨ fs' !! p = None.

(** Between two states of the disk every path is as it was, or gone, or a
    directory, or a file holding an index with at least one record. *)
Definition no_empty_index_written (fs fs' : FS) : Prop :=
  ∀ p, fs' !! p = fs !! p ∨ fs' !! p = None ∨ fs' !! p = Some Dir
       ∨ ∃ nm m ms, fs' !! p = Some (File (index_stream nm (m :: ms))).

(** The operations of a mailbox handle. *)
Inductive operation : Type :=
| OpGetMessages
| OpGetMessage (id : string)
| OpRemoveMessage (id : string)
| OpPurge
| OpReadIndex
| OpWriteIndex.

Definition perform (op : operation) (mb : mbox) (fs : FS) : mbox * FS :=
  match op with
  | OpGetMessages => let '(_, mb', fs') := getMessages mb fs in (mb', fs')
  | OpGetMessage id => let '(_, mb', fs') := getMessage id mb fs in (mb', fs')
  | OpRemoveMessage id =>
      let '(_, mb', fs') := removeMessage id mb fs in (mb', fs')
  | OpPurge => let '(_, mb', fs') := purge mb fs in (mb', fs')
  | OpReadIndex => let '(_, mb', fs') := readIndex mb fs in (mb', fs')
  | OpWriteIndex => (mb, (writeIndex mb fs).2)
  end.

(** A mailbox on disk: its directory with the index and two raw files,
    below the two shard directories. *)
Definition sample_fs : FS :=
  {[ ["data"] := Dir;
     ["data"; "mail"] := Dir;
     ["data"; "mail"; "da3"] := Dir;
     ["data"; "mail"; "da3"; "da39a3"] := Dir;
     sample_dir := Dir;
     sample_dir ++ [indexFileName] :=
       File (index_stream "b" [sample_msg1; sample_msg2]);
     rawPath sample_msg1 := File [GobJunk [104; 105]%Z];
     rawPath sample_msg2 := File [GobJunk [104; 111]%Z] ]}.

(** A directory that exists, or can be created: nothing on the way to it
    is a regular file. *)
Definition creatable (fs : FS) (p : pathname) : Prop :=
  fs_lookup fs p = Some Dir
  ∨ (fs_lookup fs p = None
     ∧ ∀ q content, q ≠ [] → q `prefix_of` p → fs !! q ≠ Some (File content)).

(** The sends of the generator in a schedule. *)
Fixpoint sends (sched : list event) : nat :=
  match sched with
  | [] => 0
  | GeneratorSends :: sched' => S (sends sched')
  | CallGenerateID _ :: sched' => sends sched'
  end.

(** A second mailbox in the same shard directories as the sample one. *)
Definition sample_neighbour_token : string :=
  "da39a30000000000000000000000000000000000".

Definition sample_fs_two_mailboxes : FS :=
  <[ ["data"; "mail"; "da3"; "da39a3"; sample_neighbour_token] := Dir ]>
    sample_fs.

(** An index file of zero length. *)
Definition sample_empty_index_fs : FS :=
  {[ sample_dir ++ [indexFileName] := File [] ]}.

(** ** Walking the store *)

Definition is_Dir (n : node) : bool :=
  match n with
  | Dir => true
  | File _ => false
  end.

(** The entry that a path of the disk is in a directory: its name and
    whether it is a directory itself. *)
Definition entry_in (dir : pathname) (kv : pathname * node)
  : option (string * bool) :=
  if is_child_of dir kv.1
  then (λ c, (c, is_Dir kv.2)) <$> last kv.1
  else None.

Definition by_name (a b : string * bool) : Prop := String.le a.1 b.1.

#[global] Instance by_name_dec : RelDecision by_name.
Proof. intros a b. unfold by_name. apply _. Defined.

(** The entries of a directory, sorted by name. *)
Definition entries (fs : FS) (dir : pathname) : list (string * bool) :=
  merge_sort by_name (omap (entry_in dir) (map_to_list fs)).

(** [ioutil.ReadDir]: the entries of the directory sorted by file name, or
    an error when the path is no directory. *)
Definition ioutil_ReadDir (fs : FS) (dir : pathname)
  : error + list (string * bool) :=
  match fs_lookup fs dir with
  | Some Dir => inr (entries fs dir)
  | Some (File _) => inl (PathError "readdirent" dir)
  | None => inl (PathError "open" dir)
  end.

(** How a loop body ends: the loop goes on, or the function returns, or a
    panic unwinds it. *)
Inductive control : Type :=
| Continue
| Return (err : option error)
| Panicked (msg : string).

Section Visit.

(** The visitor gets the messages of a mailbox; as a Go closure it may
    update what it captured (a state of type [S]) and call the store, so
    it may change the disk. *)
Context {S : Type}.
Variable f : list Message → S → FS → bool * S * FS.
Variable st : Store.

(** The body of the innermost loop of [VisitMailboxes] for a directory
    [mbdir] of the level-2 directory [l1/l2]. *)
Definition visit_mailbox (l1 l2 mbdir : string) (s : S) (fs : FS)
  : control * S * FS :=
  let mbpath := filepath_Join (mailPath st) [l1; l2; mbdir] in
  let idx := filepath_Join mbpath [indexFileName] in
  let mb := mkMbox st "" mbdir mbpath false idx [] in
  match getMessages mb fs with
  | (Error err, _, fs1) => (Return (Some err), s, fs1)
  | (Panic msg, _, fs1) => (Panicked msg, s, fs1)
  | (Ok msgs, _, fs1) =>
      match f msgs s fs1 with
      | (false, s', fs2) => (Return None, s', fs2)
      | (true, s', fs2) => (Continue, s', fs2)
      end
  end.

(** Loop over mailboxes *)
Fixpoint visit_level3 (l1 l2 : string) (infos3 : list (string * bool))
    (s : S) (fs : FS) : control * S * FS :=
  match infos3 with
  | [] => (Continue, s, fs)
  | (mbdir, isDir) :: rest =>
      if isDir then
        match visit_mailbox l1 l2 mbdir s fs with
        | (Continue, s', fs') => visit_level3 l1 l2 rest s' fs'
        | ended => ended
        end
      else visit_level3 l1 l2 rest s fs
  end.

(** Loop over level 2 directories *)
Fixpoint visit_level2 (l1 : string) (infos2 : list (string * bool))
    (s : S) (fs : FS) : control * S * FS :=
  match infos2 with
  | [] => (Continue, s, fs)
  | (l2, isDir) :: rest =>
      if isDir then
        match ioutil_ReadDir fs (filepath_Join (mailPath st) [l1; l2]) with
        | inl err => (Return (Some err), s, fs)
        | inr infos3 =>
            match visit_level3 l1 l2 infos3 s fs with
            | (Continue, s', fs') => visit_level2 l1 rest s' fs'
            | ended => ended
            end
        end
      else visit_level2 l1 rest s fs
  end.

(** Loop over level 1 directories *)
Fixpoint visit_level1 (infos1 : list (string * bool)) (s : S) (fs : FS)
  : control * S * FS :=
  match infos1 with
  | [] => (Continue, s, fs)
  | (l1, isDir) :: rest =>
      if isDir then
        match ioutil_ReadDir fs (filepath_Join (mailPath st) [l1]) with
        | inl err => (Return (Some err), s, fs)
        | inr infos2 =>
            match visit_level2 l1 infos2 s fs with
            | (Continue, s', fs') => visit_level1 rest s' fs'
            | ended => ended
            end
        end
      else visit_level1 rest s fs
  end.

(** What the function returns when its loops have ended. *)
Definition returned (c : control) : result unit :=
  match c with
  | Continue => Ok tt
  | Return None => Ok tt
  | Return (Some err) => Error err
  | Panicked msg => Panic msg
  end.

(** VisitMailboxes accepts a function that will be called with the
    messages in each mailbox while it continues to return true. *)
Definition VisitMailboxes (s : S) (fs : FS) : result unit * S * FS :=
  match ioutil_ReadDir fs (mailPath st) with
  | inl err => (Error err, s, fs)
  | inr infos1 =>
      let '(c, s', fs') := visit_level1 infos1 s fs in
      (returned c, s', fs')
  end.

(** The same calls of the visitor, for a list of mailbox directories
    given by their three components. *)
Fixpoint visit_all (dirs : list (string * string * string)) (s : S) (fs : FS)
  : control * S * FS :=
  match dirs with
  | [] => (Continue, s, fs)
  | (l1, l2, mbdir) :: rest =>
      match visit_mailbox l1 l2 mbdir s fs with
      | (Continue, s', fs') => visit_all rest s' fs'
      | ended => ended
      end
  end.

End Visit.

(** The names of the directories in a directory, sorted. *)
Definition subdirs (fs : FS) (dir : pathname) : list string :=
  (filter (λ e : string * bool, e.2 = true) (entries fs dir)).*1.

(** The directories three levels below the mail root, in the order of
    their names level by level. *)
Definition mailbox_dirs (fs : FS) (root : pathname)
  : list (string * string * string) :=
  l1 ← subdirs fs root;
  l2 ← subdirs fs (root ++ [l1]);
  (λ mbdir, (l1, l2, mbdir)) <$> subdirs fs (root ++ [l1; l2]).

(** A visitor that leaves the disk alone. *)
Definition read_only {S : Type}
    (f : list Message → S → FS → bool * S * FS) : Prop :=
  ∀ msgs s fs, (f msgs s fs).2 = fs.

(** The visitor that records the messages it is given and goes on. *)
Definition collect (msgs : list Message) (log : list (list Message)) (fs : FS)
  : bool * list (list Message) * FS :=
  (true, log ++ [msgs], fs).

(** The handle [VisitMailboxes] makes for a mailbox directory. *)
Definition visited_handle (st : Store) (t : string * string * string) : mbox :=
  let '(l1, l2, mbdir) := t in
  let mbpath := filepath_Join (mailPath st) [l1; l2; mbdir] in
  mkMbox st "" mbdir mbpath false (filepath_Join mbpath [indexFileName]) [].

(** An index path that loads: nothing is there, or a well-formed index. *)
Definition loadable (fs : FS) (idx : pathname) : Prop :=
  fs !! idx = None ∨ ∃ nm msgs, fs !! idx = Some (File (index_stream nm msgs)).

(** ** Adding a message *)

(** The reader [StoreMessage.RawReader] gives: the bytes it delivers, and
    the error that ends the reading when it is not the end of the
    content. *)
Record RawReader : Type := mkReader {
  raw_data : list Z;
  raw_error : option error
}.

(** What the methods of a [storage.StoreMessage] return for the message
    that is to be stored. *)
Record StoreMessage : Type := mkStoreMessage {
  sm_Mailbox : string;
  sm_Date : Time;
  sm_From : string;
  sm_To : list string;
  sm_Subject : string;
  sm_RawReader : error + RawReader
}.

(** The content of a raw message file. *)
Definition raw_content (data : list Z) : list gobval := [GobJunk data].

(** The entry of the index for a stored message: the entry [newMessage]
    made, with the fields [AddMessage] assigns. *)
Definition with_metadata (fm : Message) (m : StoreMessage) (size : Z)
  : Message :=
  mkMessage (mailbox fm) (Fid fm) (sm_Date m) (sm_From m) (sm_To m) size
            (sm_Subject m).

Section Add.

Variable ParseMailboxName : string → result string.
Variable HashMailboxName : string → string.

(** [mbox.newMessage] is declared in another file of the package: it
    gives the entry for a new message of the mailbox, and may load the
    index of the handle and change the disk before. *)
Variable newMessage : mbox → FS → result Message * mbox * FS.

(** AddMessage adds a message to the specified mailbox. *)
Definition AddMessage (st : Store) (m : StoreMessage) (fs : FS)
  : result string * FS :=
  match sm_RawReader m with
  | inl err => (Error err, fs)
  | inr r =>
      match Store_mbox ParseMailboxName HashMailboxName st (sm_Mailbox m) with
      | Error err => (Error err, fs)
      | Panic msg => (Panic msg, fs)
      | Ok mb =>
          (* Create a new message. *)
          match newMessage mb fs with
          | (Error err, _, fs0) => (Error err, fs0)
          | (Panic msg, _, fs0) => (Panic msg, fs0)
          | (Ok fm, mb, fs0) =>
              (* Ensure mailbox directory exists. *)
              match createDir mb fs0 with
              | (Some err, fs1) => (Error err, fs1)
              | (None, fs1) =>
                  (* Write the message content *)
                  match os_Create (rawPath fm) fs1 with
                  | (Some err, fs2) => (Error err, fs2)
                  | (None, fs2) =>
                      match raw_error r with
                      | Some err =>
                          (* Try to remove the file *)
                          (Error err, (os_Remove (rawPath fm) fs2).2)
                      | None =>
                          let fs3 :=
                            flush_and_close (rawPath fm)
                              (raw_content (raw_data r)) fs2 in
                          (* Update the index. *)
                          let fm' :=
                            with_metadata fm m
                              (Z.of_nat (length (raw_data r))) in
                          let mb := set_messages (messages mb ++ [fm']) mb in
                          match writeIndex mb fs3 with
                          | (Some err, fs4) =>
                              (* Try to remove the file *)
                              (Error err, (os_Remove (rawPath fm') fs4).2)
                          | (None, fs4) => (Ok (Fid fm'), fs4)
                          end
                      end
                  end
              end
          end
      end
  end.

End Add.

(** A store with its mail root and no mailbox. *)
Definition sample_empty_store_fs : FS :=
  {[ ["data"] := Dir; ["data"; "mail"] := Dir ]}.

(** A [newMessage] for the concrete instances: it loads the index of the
    handle when that is not loaded, and gives an entry with a fixed
    identifier and arrival time. *)
Definition sample_newMessage (mb : mbox) (fs : FS)
  : result Message * mbox * FS :=
  let '(err, mb, fs) :=
    if indexLoaded mb then (None, mb, fs) else readIndex mb fs in
  match err with
  | Some e => (Error e, mb, fs)
  | None =>
      (Ok (mkMessage (path mb) "20180304T050609-0002"
             (mkTime 2018 3 4 5 6 9) "" [] 0 ""), mb, fs)
  end.

Definition sample_incoming : StoreMessage :=
  mkStoreMessage "b" (mkTime 2018 3 4 5 6 9) "a@x.com" ["b@y.com"] "hello"
                 (inr (mkReader [72; 105]%Z None)).

(** The same message with a reader that fails. *)
Definition sample_incoming_broken : StoreMessage :=
  mkStoreMessage "b" (mkTime 2018 3 4 5 6 9) "a@x.com" ["b@y.com"] "hello"
                 (inr (mkReader [72]%Z (Some (PathError "read" [])))).

(** * Properties *)

(** ** Strings *)

Lemma append_length (a b : string) :
  String.length (a +:+ b) = String.length a + String.length b.
Proof. induction a as [|c a IH]; simpl; [done | by f_equal]. Qed.

Lemma append_cons (x : ascii) (a b : string) :
  String x a +:+ b = String x (a +:+ b).
Proof. reflexivity. Qed.

Lemma append_assoc (a b c : string) : (a +:+ b) +:+ c = a +:+ (b +:+ c).
Proof.
  induction a as [|x a IH]; [done |]. rewrite !append_cons. by f_equal.
Qed.

Lemma substring_all (s : string) : String.substring 0 (String.length s) s = s.
Proof. induction s as [|c s IH]; simpl; [done | by f_equal]. Qed.

Lemma substring_append_r (a b : string) :
  String.substring (String.length a) (String.length b) (a +:+ b) = b.
Proof.
  induction a as [|c a IH]; [apply substring_all |].
  rewrite append_cons. exact IH.
Qed.

Lemma sequence_of_append (a b : string) :
  String.length b = 4 → sequence_of (a +:+ b) = b.
Proof.
  intros Hb. unfold sequence_of. rewrite append_length, Hb.
  replace (String.length a + 4 - 4) with (String.length a) by lia.
  rewrite <- Hb. apply substring_append_r.
Qed.

Lemma matches_layout_append (l1 l2 s1 s2 : string) :
  matches_layout l1 s1 = true → matches_layout l2 s2 = true →
  matches_layout (l1 +:+ l2) (s1 +:+ s2) = true.
Proof.
  revert s1. induction l1 as [|l l1 IH]; intros [|c s1]; try done.
  rewrite !append_cons. simpl.
  intros [Hc Hr]%andb_true_iff H2. rewrite Hc. simpl. by apply IH.
Qed.

Lemma matches_layout_length (l s : string) :
  matches_layout l s = true → String.length s = String.length l.
Proof.
  revert s. induction l as [|c l IH]; intros [|x s]; simpl; try done.
  intros [_ Hr]%andb_true_iff. f_equal. by apply IH.
Qed.

(** ** Decimal fields *)

Lemma all_from_spec (count : nat) (start : Z) (P : Z → bool) (n : Z) :
  all_from count start P = true →
  (start ≤ n < start + Z.of_nat count)%Z → P n = true.
Proof.
  revert start. induction count as [|count IH]; intros start; simpl; [lia |].
  intros [H0 Hr]%andb_true_iff Hn.
  destruct (decide (n = start)) as [->|Hne]; [done |].
  apply (IH (start + 1)%Z); [done | lia].
Qed.

Lemma below_spec (bound : nat) (P : Z → bool) (n : Z) :
  below bound P = true → (0 ≤ n < Z.of_nat bound)%Z → P n = true.
Proof. intros H Hn. apply (all_from_spec bound 0); [done | lia]. Qed.

Lemma Sprintf_04d_checked :
  below (100 * 100) (λ n, matches_layout "NNNN" (Sprintf_04d n)
                    && (parse_dec (Sprintf_04d n) 0 =? n)%Z) = true.
Proof. vm_compute. reflexivity. Qed.

Lemma appendInt_2_checked :
  below 100 (λ n, matches_layout "DD" (appendInt n 2)) = true.
Proof. vm_compute. reflexivity. Qed.

Lemma Sprintf_04d_layout (n : Z) :
  (0 ≤ n < 10000)%Z → matches_layout "NNNN" (Sprintf_04d n) = true.
Proof.
  intros Hn.
  pose proof (below_spec _ _ n Sprintf_04d_checked Hn) as H.
  by apply andb_true_iff in H as [H _].
Qed.

Lemma Sprintf_04d_length (n : Z) :
  (0 ≤ n < 10000)%Z → String.length (Sprintf_04d n) = 4.
Proof. intros Hn. by apply (matches_layout_length "NNNN"), Sprintf_04d_layout. Qed.

Lemma Sprintf_04d_parse (n : Z) :
  (0 ≤ n < 10000)%Z → parse_dec (Sprintf_04d n) 0 = n.
Proof.
  intros Hn.
  pose proof (below_spec _ _ n Sprintf_04d_checked Hn) as H.
  apply andb_true_iff in H as [_ H]. by apply Z.eqb_eq.
Qed.

Lemma Sprintf_04d_inj (a b : Z) :
  (0 ≤ a < 10000)%Z → (0 ≤ b < 10000)%Z →
  Sprintf_04d a = Sprintf_04d b → a = b.
Proof.
  intros Ha Hb Heq.
  rewrite <- (Sprintf_04d_parse a Ha), <- (Sprintf_04d_parse b Hb).
  by rewrite Heq.
Qed.

Lemma appendInt_4_layout (y : Z) :
  (0 ≤ y < 10000)%Z → matches_layout "YYYY" (appendInt y 4) = true.
Proof.
  intros Hy. pose proof (Sprintf_04d_layout y Hy) as H.
  unfold Sprintf_04d in H. unfold appendInt.
  destruct (y <? 0)%Z eqn:E; [lia | exact H].
Qed.

Lemma appendInt_2_layout (n : Z) :
  (0 ≤ n < 100)%Z → matches_layout "DD" (appendInt n 2) = true.
Proof. intros Hn. exact (below_spec _ _ n appendInt_2_checked Hn). Qed.

Lemma generatePrefix_layout (date : Time) :
  (0 ≤ t_year date ≤ 9999)%Z → clock_fields date →
  matches_layout "YYYYMMDDTHHMMSS" (generatePrefix date) = true.
Proof.
  intros Hy (Hmo & Hd & Hh & Hmi & Hs). unfold generatePrefix.
  apply (matches_layout_append "YYYY" "MMDDTHHMMSS");
    [apply appendInt_4_layout; lia |].
  apply (matches_layout_append "MM" "DDTHHMMSS");
    [apply appendInt_2_layout; lia |].
  apply (matches_layout_append "DD" "THHMMSS");
    [apply appendInt_2_layout; lia |].
  apply (matches_layout_append "T" "HHMMSS"); [done |].
  apply (matches_layout_append "HH" "MMSS");
    [apply appendInt_2_layout; lia |].
  apply (matches_layout_append "MM" "SS"); apply appendInt_2_layout; lia.
Qed.

(** ** The sequence generator *)

Lemma nth_value_range (k : nat) : (0 ≤ nth_value k < 10000)%Z.
Proof. unfold nth_value. apply Z.mod_pos_bound. lia. Qed.

Lemma nth_value_succ (k : nat) : ((nth_value k + 1) mod 10000)%Z = nth_value (S k).
Proof.
  unfold nth_value. rewrite Nat2Z.inj_succ, <- Z.add_1_r.
  by rewrite Zplus_mod_idemp_l.
Qed.

Lemma counter_inv_init : counter_inv 0 counter_init.
Proof. by split. Qed.

Lemma countGenerator_inv (k : nat) (s s' : counter) :
  counter_inv k s → countGenerator s = Some s' → counter_inv k s'.
Proof.
  intros [Hbuf Hi]. unfold countGenerator. case_decide; [|done].
  intros [= <-]. split; simpl.
  - rewrite length_app. simpl. rewrite Nat.add_1_r, seq_S, fmap_app. simpl.
    by rewrite <- Hbuf, Hi.
  - rewrite length_app. simpl. rewrite Hi, nth_value_succ. f_equal. lia.
Qed.

Lemma receive_inv (k : nat) (s s' : counter) (v : Z) :
  counter_inv k s → receive s = Some (v, s') →
  v = nth_value k ∧ counter_inv (S k) s'.
Proof.
  intros [Hbuf Hi]. unfold receive.
  destruct (countChannel s) as [|x q] eqn:Hq; [done |].
  intros [= <- <-]. simpl in Hbuf. injection Hbuf as Hx Hq'.
  split; [done |]. split; simpl; [done |].
  rewrite Hi. simpl. f_equal. lia.
Qed.

Lemma run_inv (sched : list event) :
  ∀ s issued s' issued',
    counter_inv (length issued) s → issued_inv issued →
    run sched s issued = Some (s', issued') →
    counter_inv (length issued') s' ∧ issued_inv issued'.
Proof.
  induction sched as [|e sched IH]; intros s issued s' issued' Hs Hiss; simpl.
  - by intros [= <- <-].
  - destruct e as [|date].
    + destruct (countGenerator s) as [s1|] eqn:Hg; [|done].
      apply IH; [by eapply countGenerator_inv | done].
    + unfold generateID.
      destruct (receive s) as [[v s1]|] eqn:Hr; [|done].
      destruct (receive_inv _ _ _ _ Hs Hr) as [-> Hs1].
      apply IH.
      * rewrite length_app. simpl. by rewrite Nat.add_1_r.
      * intros k d id Hk.
        destruct (decide (k < length issued)) as [Hlt|Hge].
        -- rewrite lookup_app_l in Hk by done. by apply Hiss.
        -- rewrite lookup_app_r in Hk by lia.
           destruct (k - length issued) as [|n] eqn:Hn; [|done].
           simpl in Hk. injection Hk as <- <-.
           by replace k with (length issued) by lia.
Qed.

Lemma same_value_far_apart (j k : nat) :
  (j < k)%nat → nth_value j = nth_value k →
  (10000 ≤ Z.of_nat k - Z.of_nat j)%Z.
Proof.
  unfold nth_value. intros Hlt Heq.
  assert (((Z.of_nat k - Z.of_nat j) mod 10000 = 0)%Z) as Hm.
  { rewrite Zminus_mod, Heq, Z.sub_diag. done. }
  apply Z.mod_divide in Hm; [|lia]. destruct Hm as [q Hq]. lia.
Qed.

(** C6.  The generator issues 0, 1, 2, ... modulo 10000: in every
    interleaving of the generator's sends with the calls of [generateID],
    the [k]-th identifier issued since the start (counting from 0)
    carries the sequence value [k mod 10000]; hence two identifiers that
    carry the same sequence value are at least 10000 issuances apart (the
    later one is at least the 10000th issued after the earlier one). *)
Theorem sequence_values_wrap_at_10000 :
  ∀ (sched : list event) (s : counter) (issued : list (Time * string)),
    run sched counter_init [] = Some (s, issued) →
    (∀ k date id, issued !! k = Some (date, id) →
       id = generatePrefix date +:+ "-" +:+ Sprintf_04d (Z.of_nat k mod 10000)
       ∧ sequence_of id = Sprintf_04d (Z.of_nat k mod 10000))
    ∧ (∀ j k dj idj dk idk,
         (j < k)%nat →
         issued !! j = Some (dj, idj) → issued !! k = Some (dk, idk) →
         sequence_of idj = sequence_of idk →
         (10000 ≤ Z.of_nat k - Z.of_nat j)%Z).
Proof.
  intros sched s issued Hrun.
  destruct (run_inv sched counter_init [] s issued counter_inv_init) as [_ Hiss];
    [by intros k d id Hk | done |].
  assert (∀ k date id, issued !! k = Some (date, id) →
            id = generatePrefix date +:+ "-" +:+ Sprintf_04d (nth_value k)
            ∧ sequence_of id = Sprintf_04d (nth_value k)) as Hseq.
  { intros k date id Hk. pose proof (Hiss k date id Hk) as ->. split; [done |].
    rewrite <- append_assoc.
    apply sequence_of_append, Sprintf_04d_length, nth_value_range. }
  split; [exact Hseq |].
  intros j k dj idj dk idk Hlt Hj Hk Heq.
  apply same_value_far_apart; [done |].
  destruct (Hseq j dj idj Hj) as [_ Hsj]. destruct (Hseq k dk idk Hk) as [_ Hsk].
  apply Sprintf_04d_inj; [apply nth_value_range .. |]. congruence.
Qed.

Lemma sequence_values_wrap_at_10000_witness :
  ∃ s issued,
    run schedule_two_ids counter_init [] = Some (s, issued)
    ∧ (∀ k date id, issued !! k = Some (date, id) →
         id = generatePrefix date +:+ "-" +:+ Sprintf_04d (Z.of_nat k mod 10000)
         ∧ sequence_of id = Sprintf_04d (Z.of_nat k mod 10000)).
Proof.
  eexists _, _. split; [vm_compute; reflexivity |].
  refine (proj1 (sequence_values_wrap_at_10000 schedule_two_ids _ _ _)).
  vm_compute; reflexivity.
Defined.

(** C7, as stated, fails: the timestamp of an identifier has 15
    characters, not 14, so no identifier splits into a 14-character
    timestamp, a hyphen and four digits. *)
Lemma identifier_timestamp_not_14_characters :
  let date := mkTime 2018 3 4 5 6 7 in
  run [GeneratorSends; CallGenerateID date] counter_init []
    = Some (mkCounter 1 [], [(date, "20180304T050607-0000")])
  ∧ String.length (generatePrefix date) = 15
  ∧ ¬ ∃ ts sq : string,
        "20180304T050607-0000" = ts +:+ "-" +:+ sq
        ∧ String.length ts = 14 ∧ String.length sq = 4.
Proof.
  intros date.
  split; [vm_compute; reflexivity |]. split; [vm_compute; reflexivity |].
  intros (ts & sq & Heq & Hts & Hsq).
  apply (f_equal String.length) in Heq.
  rewrite !append_length, Hts, Hsq in Heq. simpl in Heq. lia.
Qed.

(** C7, amended.  For every arrival time with a year of four digits and
    every sequence number the generator issues, the identifier has the
    form [YYYYMMDDTHHMMSS-NNNN]: a 15-character timestamp at second
    resolution (fourteen digits with a [T] between date and time), a
    hyphen, and a 4-digit zero-padded sequence number; 20 characters in
    all. *)
Theorem generateID_layout :
  ∀ (sched : list event) (s s' : counter) (issued : list (Time * string))
    (date : Time) (id : string),
    run sched counter_init [] = Some (s, issued) →
    (0 ≤ t_year date ≤ 9999)%Z → clock_fields date →
    generateID date s = Some (id, s') →
    matches_layout identifier_layout id = true
    ∧ String.length id = 20
    ∧ ∃ n : Z,
        (0 ≤ n < 10000)%Z
        ∧ id = generatePrefix date +:+ "-" +:+ Sprintf_04d n
        ∧ String.length (generatePrefix date) = 15
        ∧ matches_layout "YYYYMMDDTHHMMSS" (generatePrefix date) = true
        ∧ String.length (Sprintf_04d n) = 4
        ∧ matches_layout "NNNN" (Sprintf_04d n) = true.
Proof.
  intros sched s s' issued date id Hrun Hy Hclock Hgen.
  destruct (run_inv sched counter_init [] s issued counter_inv_init) as [Hs _];
    [by intros k d i Hk | done |].
  unfold generateID in Hgen.
  destruct (receive s) as [[n s1]|] eqn:Hr; [|done].
  destruct (receive_inv _ _ _ _ Hs Hr) as [-> _].
  injection Hgen as <- <-.
  pose proof (nth_value_range (length issued)) as Hn.
  pose proof (generatePrefix_layout date Hy Hclock) as Hp.
  pose proof (Sprintf_04d_layout _ Hn) as Hq.
  assert (matches_layout identifier_layout
            (generatePrefix date +:+ "-" +:+ Sprintf_04d (nth_value (length issued)))
          = true) as Hl.
  { apply (matches_layout_append "YYYYMMDDTHHMMSS" "-NNNN"); [done |].
    by apply (matches_layout_append "-" "NNNN"). }
  split; [done |]. split; [by apply (matches_layout_length identifier_layout) |].
  exists (nth_value (length issued)).
  repeat split; try done; try lia.
  - by apply (matches_layout_length "YYYYMMDDTHHMMSS").
  - by apply (matches_layout_length "NNNN").
Qed.

Lemma generateID_layout_witness :
  matches_layout identifier_layout "20180304T050607-0000" = true
  ∧ String.length "20180304T050607-0000" = 20.
Proof.
  pose proof (generateID_layout [GeneratorSends] (mkCounter 1 [0%Z])
                (mkCounter 1 []) [] (mkTime 2018 3 4 5 6 7)
                "20180304T050607-0000") as H.
  destruct H as (Hl & Hlen & _).
  - vm_compute; reflexivity.
  - simpl; lia.
  - unfold clock_fields; simpl; lia.
  - vm_compute; reflexivity.
  - split; [exact Hl | exact Hlen].
Defined.

(** ** Get *)

Lemma last_is_Some {A} (l : list A) : l ≠ [] → ∃ x, last l = Some x.
Proof.
  intros Hne. destruct (last l) as [x|] eqn:E; [by exists x |].
  by apply last_None in E.
Qed.

Lemma find_id_None (id : string) (l : list Message) (i : nat) :
  find_id id i l = None ↔ ∀ m, m ∈ l → Fid m ≠ id.
Proof.
  revert i. induction l as [|x l IH]; intros i; simpl.
  - split; [|done]. intros _ m Hm. by apply elem_of_nil in Hm.
  - case_decide as Hx.
    + split; [done |]. intros H. destruct (H x); [left | done].
    + rewrite IH. split.
      * intros H m [->|Hm]%elem_of_cons; [done | by apply H].
      * intros H m Hm. apply H. by right.
Qed.

(** C8.  On a loaded mailbox holding at least one message, Get of the
    identifier "latest" returns the last entry of the in-memory sequence,
    and changes neither the handle nor the disk. *)
Theorem getMessage_latest :
  ∀ (mb : mbox) (fs : FS),
    indexLoaded mb = true → messages mb ≠ [] →
    ∃ m, last (messages mb) = Some m
         ∧ getMessage "latest" mb fs = (Ok m, mb, fs).
Proof.
  intros mb fs Hl Hne. destruct (last_is_Some _ Hne) as [m Hm].
  exists m. split; [done |]. unfold getMessage. rewrite Hl, Hm.
  by destruct (decide ("latest" = "latest")).
Qed.

(** C10.  On a loaded mailbox with no message, Get of "latest" is no
    special case: the fast path is not taken and the result is the
    not-found error, which is also the result for any other identifier
    that no entry of a loaded mailbox carries. *)
Theorem getMessage_latest_empty :
  ∀ (mb : mbox) (fs : FS),
    indexLoaded mb = true → messages mb = [] →
    getMessage "latest" mb fs = (Error ErrNotExist, mb, fs)
    ∧ ∀ (id : string) (mb2 : mbox) (fs2 : FS),
        indexLoaded mb2 = true → id ≠ "latest" →
        (∀ m, m ∈ messages mb2 → Fid m ≠ id) →
        getMessage id mb2 fs2 = (Error ErrNotExist, mb2, fs2).
Proof.
  intros mb fs Hl He. split.
  - unfold getMessage. rewrite Hl, He. simpl.
    by destruct (decide ("latest" = "latest")).
  - intros id mb2 fs2 Hl2 Hid Habs. unfold getMessage. rewrite Hl2.
    apply (find_id_None id _ 0) in Habs. rewrite Habs.
    destruct (decide (id = "latest")); [done |].
    by destruct (last (messages mb2)).
Qed.

Lemma getMessage_latest_witness :
  ∃ m, last [sample_msg1; sample_msg2] = Some m
       ∧ getMessage "latest" (sample_mbox true [sample_msg1; sample_msg2]) ∅
         = (Ok m, sample_mbox true [sample_msg1; sample_msg2], ∅).
Proof.
  apply (getMessage_latest (sample_mbox true [sample_msg1; sample_msg2]) ∅).
  - reflexivity.
  - simpl. discriminate.
Defined.

Lemma getMessage_latest_empty_witness :
  getMessage "latest" (sample_mbox true []) ∅
  = (Error ErrNotExist, sample_mbox true [], ∅).
Proof.
  refine (proj1 (getMessage_latest_empty (sample_mbox true []) ∅ _ _));
    reflexivity.
Defined.

(** ** Resolving a mailbox name *)

Lemma string_slice_prefix (s : string) (n : nat) :
  n ≤ String.length s → string_slice s 0 n = Some (String.substring 0 n s).
Proof.
  intros Hn. unfold string_slice. rewrite Nat.sub_0_r.
  case_decide as H; [done |]. destruct H. lia.
Qed.

Lemma concat_cons (sep x : string) (l : list string) :
  l ≠ [] → String.concat sep (x :: l) = x +:+ sep +:+ String.concat sep l.
Proof. by destruct l. Qed.

Lemma concat_app (sep : string) (a b : list string) :
  a ≠ [] → b ≠ [] →
  String.concat sep (a ++ b)
  = String.concat sep a +:+ sep +:+ String.concat sep b.
Proof.
  intros Ha Hb. induction a as [|x a IH]; [done |].
  destruct a as [|y a].
  - simpl app. by rewrite concat_cons.
  - change ((x :: y :: a) ++ b) with (x :: ((y :: a) ++ b)).
    rewrite !concat_cons by done. rewrite IH by done.
    by rewrite !append_assoc.
Qed.

Section ResolverFacts.

Variable ParseMailboxName : string → result string.
Variable HashMailboxName : string → string.

Local Abbreviation Store_mbox :=
  (Store_mbox ParseMailboxName HashMailboxName).
Local Abbreviation GetMessage :=
  (GetMessage ParseMailboxName HashMailboxName).

Lemma New_mailPath (cfg : DataStoreConfig) (fs fs' : FS) (st : Store) :
  New cfg fs = (Some st, fs') →
  Path cfg ≠ [] ∧ basePath st = Path cfg
  ∧ mailPath st = Path cfg ++ ["mail"].
Proof.
  unfold New. destruct (Path cfg) as [|c p] eqn:Hp; [done |].
  by intros [= <- _].
Qed.

(** C3, amended.  For every valid mailbox name (with a hash token of at
    least six characters, which the fixed-length name hash gives),
    resolving it yields the layout
    [<base>/mail/<token[0:3]>/<token[0:6]>/<token>/], and the index file
    of the mailbox is in the level-3 directory under the fixed file name
    [index.gob]. *)
Theorem Store_mbox_layout :
  ∀ (cfg : DataStoreConfig) (fs fs' : FS) (st : Store)
    (mailbox nm : string),
    New cfg fs = (Some st, fs') →
    ParseMailboxName mailbox = Ok nm →
    6 ≤ String.length (HashMailboxName nm) →
    let token := HashMailboxName nm in
    let shard1 := String.substring 0 3 token in
    let shard2 := String.substring 0 6 token in
    ∃ mb : mbox,
      Store_mbox st mailbox = Ok mb
      ∧ name mb = nm ∧ dirName mb = token
      ∧ path mb = Path cfg ++ ["mail"; shard1; shard2; token]
      ∧ indexPath mb = path mb ++ ["index.gob"]
      ∧ path_string (indexPath mb)
        = path_string (Path cfg) +:+ "/mail/" +:+ shard1 +:+ "/"
          +:+ shard2 +:+ "/" +:+ token +:+ "/index.gob".
Proof.
  intros cfg fs fs' st mailbox nm Hnew Hparse Hlen token shard1 shard2.
  destruct (New_mailPath _ _ _ _ Hnew) as (Hne & _ & Hmail).
  unfold Store_mbox. rewrite Hparse.
  rewrite !string_slice_prefix by lia.
  eexists. split; [reflexivity |]. simpl.
  rewrite Hmail. unfold filepath_Join, indexFileName.
  repeat split.
  - by rewrite <- app_assoc.
  - rewrite <- !app_assoc. simpl. unfold path_string.
    by rewrite concat_app.
Qed.

(** C9.  On a mailbox that was never written to (there is no index file
    on disk), Get of any identifier returns the not-found error and
    leaves the disk as it was: no directory and no index file is
    created.  The handle ends up loaded, with no message. *)
Theorem GetMessage_never_written :
  ∀ (st : Store) (mailbox id : string) (fs : FS) (mb : mbox),
    Store_mbox st mailbox = Ok mb →
    os_Stat fs (indexPath mb) = None →
    GetMessage st mailbox id fs = (Error ErrNotExist, fs)
    ∧ getMessage id mb fs
      = (Error ErrNotExist, set_indexLoaded true mb, fs).
Proof.
  intros st mailbox id fs mb Hmb Hstat.
  assert (indexLoaded mb = false ∧ messages mb = []) as [Hl Hm].
  { unfold Store_mbox in Hmb.
    destruct (ParseMailboxName mailbox); try done.
    destruct (string_slice _ 0 3); try done.
    destruct (string_slice _ 0 6); try done.
    by injection Hmb as <-. }
  assert (getMessage id mb fs
          = (Error ErrNotExist, set_indexLoaded true mb, fs)) as Hget.
  { unfold getMessage, readIndex. rewrite Hl. simpl. rewrite Hstat. simpl.
    destruct (decide (id = "latest")); destruct mb; simpl in *; by subst. }
  split; [|done]. unfold GetMessage. by rewrite Hmb, Hget.
Qed.

End ResolverFacts.

(** C3, as stated, fails: the index file is not called [index]. *)
Lemma index_file_not_named_index :
  ∃ mb : mbox,
    Store_mbox sample_parse sample_hash sample_store "b" = Ok mb
    ∧ path mb = ["data"; "mail"; "da3"; "da39a3"; sample_token]
    ∧ indexPath mb ≠ path mb ++ ["index"].
Proof.
  eexists. split; [vm_compute; reflexivity |]. split; [reflexivity |].
  simpl. discriminate.
Qed.

Lemma Store_mbox_layout_witness :
  ∃ mb : mbox,
    Store_mbox sample_parse sample_hash sample_store "b" = Ok mb
    ∧ name mb = "b" ∧ dirName mb = sample_token
    ∧ path mb = ["data"; "mail"; "da3"; "da39a3"; sample_token]
    ∧ indexPath mb = path mb ++ ["index.gob"]
    ∧ path_string (indexPath mb)
      = "data/mail/da3/da39a3/da39a3ee5e6b4b0d3255bfef95601890afd80709/index.gob".
Proof.
  apply (Store_mbox_layout sample_parse sample_hash (mkConfig ["data"] 0) ∅
           (os_MkdirAll ["data"; "mail"] ∅).2 sample_store "b" "b").
  - reflexivity.
  - reflexivity.
  - vm_compute. lia.
Defined.

Lemma GetMessage_never_written_witness :
  GetMessage sample_parse sample_hash sample_store "b" "20180304T050607-0000"
             {[ ["data"] := Dir; ["data"; "mail"] := Dir ]}
  = (Error ErrNotExist, {[ ["data"] := Dir; ["data"; "mail"] := Dir ]}).
Proof.
  refine (proj1 (GetMessage_never_written sample_parse sample_hash
                   sample_store "b" "20180304T050607-0000" _
                   (sample_mbox false []) _ _)).
  - reflexivity.
  - vm_compute. reflexivity.
Defined.

(** ** Encoding and file creation *)

Lemma encode_all (msgs : list Message) (enc : list gobval) :
  fold_left (λ e m, Encode (gob_of_Message m) e) msgs enc
  = enc ++ (gob_of_Message <$> msgs).
Proof.
  revert enc. induction msgs as [|m msgs IH]; intros enc; simpl.
  - by rewrite app_nil_r.
  - rewrite IH. unfold Encode. by rewrite <- app_assoc.
Qed.

Lemma os_Create_ok (p : pathname) (fs fs' : FS) :
  os_Create p fs = (None, fs') → p ≠ [] ∧ fs' = <[p := File []]> fs.
Proof.
  unfold os_Create. destruct p as [|c p]; [done |].
  intros H. split; [done |]. repeat case_match; by simplify_eq.
Qed.

(** ** The file system *)

Lemma child_iff (dir p : pathname) :
  p ≠ [] ∧ filepath_Dir p = dir ↔ ∃ c, p = dir ++ [c].
Proof.
  unfold filepath_Dir. split.
  - intros [Hne <-]. destruct (exists_last Hne) as (q & c & ->).
    exists c. by rewrite removelast_last.
  - intros [c ->]. split; [by destruct dir | apply removelast_last].
Qed.

Lemma filepath_Dir_child (dir : pathname) (c : string) :
  filepath_Dir (dir ++ [c]) = dir.
Proof. apply removelast_last. Qed.

Lemma Readdirnames_nil (fs : FS) (dir : pathname) :
  Readdirnames fs dir = [] ↔ ∀ c, fs !! (dir ++ [c]) = None.
Proof.
  unfold Readdirnames. split.
  - intros Hnil c. destruct (fs !! (dir ++ [c])) as [n|] eqn:E; [|done].
    apply elem_of_map_to_list in E.
    assert (c ∈ @nil string) as Hc; [|by apply elem_of_nil in Hc].
    rewrite <- Hnil. apply list_elem_of_omap. exists (dir ++ [c], n).
    split; [done |]. simpl. unfold is_child_of.
    rewrite bool_decide_eq_true_2 by (apply child_iff; eauto).
    by rewrite last_snoc.
  - intros Hno. destruct (omap _ (map_to_list fs)) as [|x l] eqn:E; [done |].
    assert (x ∈ x :: l) as Hx by left. rewrite <- E in Hx.
    apply list_elem_of_omap in Hx as ([p n] & Hin & Hf). simpl in Hf.
    apply elem_of_map_to_list in Hin. unfold is_child_of in Hf.
    case_bool_decide as Hc; [|done].
    apply child_iff in Hc as [c ->]. by rewrite Hno in Hin.
Qed.

Lemma os_RemoveAll_result (p : pathname) (fs : FS) :
  p ≠ [] →
  ∃ fs1, os_RemoveAll p fs = (None, fs1)
         ∧ (∀ q, p `prefix_of` q → fs1 !! q = None)
         ∧ (∀ q, ¬ p `prefix_of` q → fs1 !! q = fs !! q).
Proof.
  intros Hp. unfold os_RemoveAll. destruct p as [|c p]; [done |].
  eexists. split; [done |]. split.
  - intros q Hq. apply map_lookup_filter_None. right. intros x _ Hn. by apply Hn.
  - intros q Hq. destruct (fs !! q) as [n|] eqn:E.
    + by apply map_lookup_filter_Some.
    + apply map_lookup_filter_None. by left.
Qed.

Lemma removeDirIfEmpty_result (d : pathname) (fs : FS) :
  (d ≠ [] ∧ fs !! d = Some Dir ∧ (∀ c, fs !! (d ++ [c]) = None)
   ∧ removeDirIfEmpty d fs = (true, delete d fs))
  ∨ (¬ (d ≠ [] ∧ fs !! d = Some Dir ∧ (∀ c, fs !! (d ++ [c]) = None))
     ∧ removeDirIfEmpty d fs = (false, fs)).
Proof.
  unfold removeDirIfEmpty, os_Open, os_Remove, fs_lookup.
  destruct d as [|c d].
  - right. split; [by intros [? _] |]. by destruct (Readdirnames fs []).
  - destruct (fs !! (c :: d)) as [[|content]|] eqn:E; rewrite ?E.
    + destruct (Readdirnames fs (c :: d)) as [|x l] eqn:R; rewrite ?R.
      * left. pose proof (proj1 (Readdirnames_nil _ _) R) as Hno.
        by repeat split.
      * right. split; [|done]. intros (_ & _ & Hno).
        apply (proj2 (Readdirnames_nil _ _)) in Hno. congruence.
    + right. split; [|done]. by intros (_ & ? & _).
    + right. split; [|done]. by intros (_ & ? & _).
Qed.

Lemma removeDirIfEmpty_only_removes (d : pathname) (fs : FS) :
  only_removes fs (removeDirIfEmpty d fs).2.
Proof.
  intros p.
  destruct (removeDirIfEmpty_result d fs) as [(_ & _ & _ & Hr)|[_ Hr]];
    rewrite Hr; simpl.
  - destruct (decide (p = d)) as [-> | Hne].
    + right. apply lookup_delete_eq.
    + left. by apply lookup_delete_ne.
  - by left.
Qed.

Lemma only_removes_trans (fs1 fs2 fs3 : FS) :
  only_removes fs1 fs2 → only_removes fs2 fs3 → only_removes fs1 fs3.
Proof.
  intros H12 H23 p. destruct (H23 p) as [-> | ->]; [apply H12 | by right].
Qed.

Lemma os_RemoveAll_only_removes (p : pathname) (fs : FS) :
  (os_RemoveAll p fs).1 = None ∧ only_removes fs (os_RemoveAll p fs).2.
Proof.
  destruct p as [|c p]; [split; [done | by left] |].
  destruct (os_RemoveAll_result (c :: p) fs) as (fs1 & -> & Hin & Hout); [done |].
  split; [done |]. intros q. simpl.
  destruct (decide ((c :: p) `prefix_of` q)); [right; by apply Hin | left; by apply Hout].
Qed.

Lemma removeDir_only_removes (mb : mbox) (fs : FS) :
  (removeDir mb fs).1 = None ∧ only_removes fs (removeDir mb fs).2.
Proof.
  unfold removeDir.
  destruct (os_RemoveAll_only_removes (path mb) fs) as [He Hr].
  destruct (os_RemoveAll (path mb) fs) as [e fs1]. simpl in He, Hr. subst e.
  pose proof (removeDirIfEmpty_only_removes (filepath_Dir (path mb)) fs1) as H2.
  destruct (removeDirIfEmpty (filepath_Dir (path mb)) fs1) as [[|] fs2];
    simpl in *.
  - split; [done |]. eapply only_removes_trans; [done |].
    eapply only_removes_trans; [done |]. apply removeDirIfEmpty_only_removes.
  - split; [done |]. by eapply only_removes_trans.
Qed.

Lemma prefix_of_shorter (p q : pathname) :
  length q < length p → ¬ p `prefix_of` q.
Proof. intros Hlen Hp. apply prefix_length in Hp. lia. Qed.

Lemma removeDir_prunes (mb : mbox) (fs : FS) (base : pathname)
    (s1 s2 tok : string) :
  path mb = base ++ [s1; s2; tok] →
  let d2 := base ++ [s1; s2] in
  let d1 := base ++ [s1] in
  ∃ fs' : FS,
    removeDir mb fs = (None, fs')
    ∧ (∀ p, path mb `prefix_of` p → fs' !! p = None)
    ∧ (empty_but fs d2 tok → fs' !! d2 = None)
    ∧ (¬ empty_but fs d2 tok → fs' !! d2 = fs !! d2)
    ∧ (empty_but fs d2 tok → empty_but fs d1 s2 → fs' !! d1 = None)
    ∧ (¬ (empty_but fs d2 tok ∧ empty_but fs d1 s2) → fs' !! d1 = fs !! d1)
    ∧ (∀ p, ¬ path mb `prefix_of` p → p ≠ d2 → p ≠ d1 → fs' !! p = fs !! p).
Proof.
  intros Hpath d2 d1.
  assert (path mb = d2 ++ [tok]) as Hp2.
  { rewrite Hpath. unfold d2. by rewrite <- app_assoc. }
  assert (d2 = d1 ++ [s2]) as Hd21.
  { unfold d2, d1. by rewrite <- app_assoc. }
  assert (path mb ≠ []) as Hne by (rewrite Hp2; by destruct d2).
  assert (d2 ≠ []) as Hne2 by (rewrite Hd21; by destruct d1).
  assert (d1 ≠ []) as Hne1 by (unfold d1; by destruct base).
  assert (d1 ≠ d2) as H12.
  { intros H. apply (f_equal length) in H. rewrite Hd21, length_app in H.
    simpl in H. lia. }
  assert (¬ path mb `prefix_of` d2) as Hnp2.
  { apply prefix_of_shorter. rewrite Hp2, length_app. simpl. lia. }
  assert (¬ path mb `prefix_of` d1) as Hnp1.
  { apply prefix_of_shorter. rewrite Hp2, Hd21, !length_app. simpl. lia. }
  unfold removeDir.
  destruct (os_RemoveAll_result (path mb) fs Hne) as (fs1 & -> & Hin & Hout).
  simpl.
  replace (filepath_Dir (path mb)) with d2
    by (rewrite Hp2; by rewrite filepath_Dir_child).
  (* the level-2 directory after the removal of the mailbox *)
  assert ((d2 ≠ [] ∧ fs1 !! d2 = Some Dir ∧ ∀ c, fs1 !! (d2 ++ [c]) = None)
          ↔ empty_but fs d2 tok) as He2.
  { unfold empty_but. rewrite (Hout d2 Hnp2). split.
    - intros (_ & Hd & Hc). split; [done |]. intros c Hct.
      rewrite <- (Hout (d2 ++ [c])); [apply Hc |].
      rewrite Hp2. intros Hpre. apply prefix_length_eq in Hpre.
      + by apply app_inj_1 in Hpre as [_ [= ->]].
      + rewrite !length_app. simpl. lia.
    - intros [Hd Hc]. repeat split; [done.. |]. intros c.
      destruct (decide (c = tok)) as [-> | Hct].
      + apply Hin. by rewrite Hp2.
      + rewrite Hout; [by apply Hc |].
        rewrite Hp2. intros Hpre. apply prefix_length_eq in Hpre.
        * by apply app_inj_1 in Hpre as [_ [= ->]].
        * rewrite !length_app. simpl. lia. }
  destruct (removeDirIfEmpty_result d2 fs1) as [(_ & Hd & Hc & Hr)|[Hnot Hr]];
    rewrite Hr; clear Hr.
  - (* the level-2 directory is removed; now the level-1 directory *)
    assert (empty_but fs d2 tok) as HE2 by (apply He2; by repeat split).
    replace (filepath_Dir d2) with d1
      by (rewrite Hd21; by rewrite filepath_Dir_child).
    set (fs2 := delete d2 fs1).
    assert ((d1 ≠ [] ∧ fs2 !! d1 = Some Dir ∧ ∀ c, fs2 !! (d1 ++ [c]) = None)
            ↔ empty_but fs d1 s2) as He1.
    { unfold empty_but, fs2. rewrite lookup_delete_ne by done.
      rewrite (Hout d1 Hnp1).
      assert (∀ c, c ≠ s2 → delete d2 fs1 !! (d1 ++ [c]) = fs !! (d1 ++ [c]))
        as Hother.
      { intros c Hc2. rewrite lookup_delete_ne.
        - apply Hout, prefix_of_shorter.
          rewrite Hp2, Hd21, !length_app. simpl. lia.
        - rewrite Hd21. intros H. by apply app_inj_1 in H as [_ [= ->]]. }
      split.
      - intros (_ & Hd1 & Hc1). split; [done |]. intros c Hc2.
        rewrite <- Hother by done. apply Hc1.
      - intros [Hd1 Hc1]. repeat split; [done.. |]. intros c.
        destruct (decide (c = s2)) as [-> | Hc2].
        + rewrite <- Hd21. apply lookup_delete_eq.
        + rewrite Hother by done. by apply Hc1. }
    destruct (removeDirIfEmpty_result d1 fs2) as [(_ & Hd1 & Hc1 & Hr)|[Hnot1 Hr]];
      rewrite Hr; clear Hr; simpl; eexists; (split; [reflexivity |]).
    + assert (empty_but fs d1 s2) as HE1 by (apply He1; by repeat split).
      repeat split.
      * intros p Hp. unfold fs2.
        rewrite !lookup_delete_ne by (intros <-; done). by apply Hin.
      * intros _. rewrite lookup_delete_ne by done. apply lookup_delete_eq.
      * done.
      * intros _ _. apply lookup_delete_eq.
      * intros Hn. destruct Hn. done.
      * intros p Hp Hp2' Hp1'. unfold fs2.
        rewrite !lookup_delete_ne by done. by apply Hout.
    + assert (¬ empty_but fs d1 s2) as HE1 by (by rewrite <- He1).
      repeat split.
      * intros p Hp. unfold fs2.
        rewrite !lookup_delete_ne by (intros <-; done). by apply Hin.
      * intros _. apply lookup_delete_eq.
      * done.
      * done.
      * intros _. unfold fs2. rewrite lookup_delete_ne by done. by apply Hout.
      * intros p Hp Hp2' Hp1'. unfold fs2.
        rewrite !lookup_delete_ne by done. by apply Hout.
  - assert (¬ empty_but fs d2 tok) as HE2 by (by rewrite <- He2).
    eexists. split; [reflexivity |]. repeat split.
    + done.
    + done.
    + intros _. by apply Hout.
    + done.
    + intros _. by apply Hout.
    + intros p Hp _ _. by apply Hout.
Qed.

Lemma only_removes_refl (fs : FS) : only_removes fs fs.
Proof. intros p. by left. Qed.

Lemma only_removes_keeps_None (fs fs' : FS) (p : pathname) :
  only_removes fs fs' → fs !! p = None → fs' !! p = None.
Proof. intros H Hp. destruct (H p) as [-> | ->]; done. Qed.

Lemma removeDir_removes_mailbox (mb : mbox) (fs : FS) :
  path mb ≠ [] →
  ∀ p, path mb `prefix_of` p → (removeDir mb fs).2 !! p = None.
Proof.
  intros Hne p Hp. unfold removeDir.
  destruct (os_RemoveAll_result (path mb) fs Hne) as (fs1 & -> & Hin & _).
  pose proof (removeDirIfEmpty_only_removes (filepath_Dir (path mb)) fs1) as H2.
  destruct (removeDirIfEmpty (filepath_Dir (path mb)) fs1) as [[|] fs2];
    simpl in *.
  - eapply only_removes_keeps_None; [apply removeDirIfEmpty_only_removes |].
    eapply only_removes_keeps_None; [done | by apply Hin].
  - eapply only_removes_keeps_None; [done | by apply Hin].
Qed.

Lemma os_Remove_only_removes (p : pathname) (fs : FS) :
  only_removes fs (os_Remove p fs).2.
Proof.
  unfold os_Remove. intros q.
  destruct p as [|c p]; [by left |].
  assert (delete (c :: p) fs !! q = fs !! q ∨ delete (c :: p) fs !! q = None)
    as Hdel.
  { destruct (decide (q = c :: p)) as [-> | Hne].
    - right. apply lookup_delete_eq.
    - left. by apply lookup_delete_ne. }
  destruct (fs !! (c :: p)) as [[|content]|]; simpl; [| done | by left].
  destruct (Readdirnames fs (c :: p)); simpl; [done | by left].
Qed.

Lemma os_Remove_ok (p : pathname) (fs fs' : FS) :
  os_Remove p fs = (None, fs') → fs' = delete p fs.
Proof.
  unfold os_Remove. destruct p as [|c p]; [done |].
  destruct (fs !! (c :: p)) as [[|content]|]; [| by intros [= <-] | done].
  destruct (Readdirnames fs (c :: p)); [by intros [= <-] | done].
Qed.

(** *** Nothing but complete indexes is written *)

Lemma no_empty_index_written_refl (fs : FS) : no_empty_index_written fs fs.
Proof. intros p. by left. Qed.

Lemma no_empty_index_written_trans (fs1 fs2 fs3 : FS) :
  no_empty_index_written fs1 fs2 → no_empty_index_written fs2 fs3 →
  no_empty_index_written fs1 fs3.
Proof.
  intros H12 H23 p. destruct (H23 p) as [-> | H]; [apply H12 | by right].
Qed.

Lemma only_removes_no_empty_index (fs fs' : FS) :
  only_removes fs fs' → no_empty_index_written fs fs'.
Proof. intros H p. destruct (H p) as [-> | ->]; [by left | right; by left]. Qed.

Lemma mkdir_from_makes_directories (rest : list string) :
  ∀ (pre : pathname) (fs : FS) (p : pathname),
    (mkdir_from pre rest fs).2 !! p = fs !! p
    ∨ (mkdir_from pre rest fs).2 !! p = Some Dir.
Proof.
  induction rest as [|c rest IH]; intros pre fs p; simpl; [by left |].
  destruct (fs !! (pre ++ [c])) as [[|content]|] eqn:E; [apply IH | by left |].
  destruct (IH (pre ++ [c]) (<[pre ++ [c] := Dir]> fs) p) as [-> | ->];
    [| by right].
  destruct (decide (p = pre ++ [c])) as [-> | Hne].
  - right. apply lookup_insert_eq.
  - left. by apply lookup_insert_ne.
Qed.

Lemma createDir_no_empty_index (mb : mbox) (fs : FS) :
  no_empty_index_written fs (createDir mb fs).2.
Proof.
  unfold createDir. destruct (os_Stat fs (path mb)); [by left |].
  intros p. unfold os_MkdirAll.
  destruct (mkdir_from_makes_directories (path mb) [] fs p) as [-> | ->];
    [by left | right; right; by left].
Qed.

Lemma writeIndex_no_empty_index (mb : mbox) (fs : FS) :
  no_empty_index_written fs (writeIndex mb fs).2.
Proof.
  unfold writeIndex. destruct (messages mb) as [|m ms] eqn:Hm.
  - apply only_removes_no_empty_index, removeDir_only_removes.
  - pose proof (createDir_no_empty_index mb fs) as Hc.
    destruct (createDir mb fs) as [[e|] fs1]; simpl in *; [done |].
    destruct (os_Create (indexPath mb) fs1) as [[e|] fs2] eqn:Hcr; simpl.
    + unfold os_Create in Hcr. repeat case_match; by simplify_eq.
    + apply os_Create_ok in Hcr as [_ ->].
      eapply no_empty_index_written_trans; [done |].
      intros p. unfold flush_and_close.
      destruct (decide (p = indexPath mb)) as [-> | Hne].
      * right; right; right. exists (name mb), m, ms.
        rewrite lookup_insert_eq, encode_all. reflexivity.
      * left. by rewrite !lookup_insert_ne.
Qed.

Lemma readIndex_leaves_disk (mb : mbox) (fs : FS) :
  (readIndex mb fs).2 = fs.
Proof. unfold readIndex. by repeat case_match. Qed.

Lemma perform_no_empty_index (op : operation) (mb : mbox) (fs : FS) :
  no_empty_index_written fs (perform op mb fs).2.
Proof.
  destruct op as [|id|id| | |]; simpl.
  - unfold getMessages. destruct (indexLoaded mb).
    + apply no_empty_index_written_refl.
    + pose proof (readIndex_leaves_disk mb fs) as H.
      destruct (readIndex mb fs) as [[e mb'] fs']. simpl in H. subst fs'.
      destruct e; apply no_empty_index_written_refl.
  - unfold getMessage. destruct (indexLoaded mb).
    + repeat case_match; simplify_eq; apply no_empty_index_written_refl.
    + pose proof (readIndex_leaves_disk mb fs) as H.
      destruct (readIndex mb fs) as [[e mb'] fs']. simpl in H. subst fs'.
      repeat case_match; simplify_eq; apply no_empty_index_written_refl.
  - unfold removeMessage.
    assert (∀ mb0, no_empty_index_written fs
              (let '(_, mb', fs') :=
                 match find_id id 0 (messages mb0) with
                 | None => (Some ErrNotExist, mb0, fs)
                 | Some (i, msg) =>
                     let mb1 :=
                       set_messages (take i (messages mb0)
                                     ++ drop (S i) (messages mb0)) mb0 in
                     match writeIndex mb1 fs with
                     | (Some e, fs1) => (Some e, mb1, fs1)
                     | (None, fs1) =>
                         match messages mb1 with
                         | [] => (None, mb1, fs1)
                         | _ :: _ =>
                             let '(e, fs2) := os_Remove (rawPath msg) fs1 in
                             (e, mb1, fs2)
                         end
                     end
                 end in (mb', fs')).2) as Hbody.
    { intros mb0. destruct (find_id id 0 (messages mb0)) as [[i msg]|];
        [| apply no_empty_index_written_refl].
      cbv zeta. set (mb1 := set_messages _ mb0).
      pose proof (writeIndex_no_empty_index mb1 fs) as Hw.
      destruct (writeIndex mb1 fs) as [[e|] fs1]; simpl in *; [done |].
      destruct (take i (messages mb0) ++ drop (S i) (messages mb0));
        [done |].
      pose proof (os_Remove_only_removes (rawPath msg) fs1) as Hr.
      destruct (os_Remove (rawPath msg) fs1) as [e fs2]. simpl in *.
      eapply no_empty_index_written_trans; [done |].
      by apply only_removes_no_empty_index. }
    destruct (indexLoaded mb); [apply Hbody |].
    pose proof (readIndex_leaves_disk mb fs) as H.
    destruct (readIndex mb fs) as [[e mb'] fs']. simpl in H. subst fs'.
    destruct e; [apply no_empty_index_written_refl | apply Hbody].
  - unfold purge.
    pose proof (writeIndex_no_empty_index (set_messages [] mb) fs) as Hw.
    by destruct (writeIndex (set_messages [] mb) fs).
  - pose proof (readIndex_leaves_disk mb fs) as H.
    destruct (readIndex mb fs) as [[e mb'] fs']. simpl in *. subst fs'.
    apply no_empty_index_written_refl.
  - apply writeIndex_no_empty_index.
Qed.

(** ** The index engine *)


Lemma readIndex_loop_records (owner : pathname) (msgs : list Message)
    (rest : list gobval) (acc : list Message) :
  readIndex_loop owner ((gob_of_Message <$> msgs) ++ rest) acc
  = readIndex_loop owner rest (acc ++ (owned_by owner <$> msgs)).
Proof.
  revert acc. induction msgs as [|m msgs IH]; intros acc; simpl.
  - by rewrite app_nil_r.
  - rewrite IH. by rewrite <- app_assoc.
Qed.

Lemma readIndex_loop_error (owner : pathname) (bad : list gobval)
    (e : gob_error) (acc : list Message) :
  Decode_Message owner bad = DecErr e → e ≠ io_EOF →
  readIndex_loop owner bad acc = (acc, Some e).
Proof.
  destruct bad as [|[s|fid fdate ffrom fto fsize fsubject|b] rest]; simpl;
    intros [= <-] He; done.
Qed.

Lemma same_metadata_owned_by (owner : pathname) (msgs : list Message) :
  Forall2 same_metadata (owned_by owner <$> msgs) msgs.
Proof. induction msgs; simpl; constructor; [by repeat split | done]. Qed.


Lemma writeIndex_stores (mb : mbox) (fs fs' : FS) :
  messages mb ≠ [] → writeIndex mb fs = (None, fs') →
  indexPath mb ≠ []
  ∧ fs' !! indexPath mb = Some (File (index_stream (name mb) (messages mb))).
Proof.
  intros Hne. unfold writeIndex.
  destruct (messages mb) as [|m0 ms] eqn:Hm; [done |].
  destruct (createDir mb fs) as [[e|] fs1]; [done |].
  destruct (os_Create (indexPath mb) fs1) as [[e|] fs2] eqn:Hc; [done |].
  intros [= <-]. apply os_Create_ok in Hc as [Hp ->]. split; [done |].
  unfold flush_and_close. rewrite lookup_insert_eq, encode_all.
  reflexivity.
Qed.

Lemma readIndex_of_index_stream (mb : mbox) (fs : FS) (nm : string)
    (msgs : list Message) :
  indexPath mb ≠ [] →
  fs !! indexPath mb = Some (File (index_stream nm msgs)) →
  readIndex mb fs
  = (None,
     set_indexLoaded true
       (set_messages (owned_by (path mb) <$> msgs)
          (set_name nm (set_messages [] mb))),
     fs).
Proof.
  intros Hp Hf. unfold readIndex, os_Stat, os_Open, fs_lookup. simpl.
  destruct (indexPath mb) as [|c p] eqn:Hi; [done |]. rewrite Hf. simpl.
  rewrite <- (app_nil_r (gob_of_Message <$> msgs)).
  by rewrite readIndex_loop_records.
Qed.

(** C1.  Round trip of the index.  When a handle holding at least one
    message persists its index, a fresh handle of the same mailbox that
    then loads the index ends up loaded, with the persisted mailbox name
    and a message sequence of the same length whose entries agree, one by
    one and in order, with the persisted ones in identifier, timestamp,
    from, to, subject and size; the entries it holds refer back to the
    fresh handle. *)
Theorem index_round_trip :
  ∀ (mb fresh : mbox) (fs fs' : FS),
    messages mb ≠ [] →
    writeIndex mb fs = (None, fs') →
    indexPath fresh = indexPath mb →
    ∃ loaded : mbox,
      readIndex fresh fs' = (None, loaded, fs')
      ∧ indexLoaded loaded = true
      ∧ name loaded = name mb
      ∧ Forall2 same_metadata (messages loaded) (messages mb)
      ∧ (∀ m, m ∈ messages loaded → mailbox m = path fresh).
Proof.
  intros mb fresh fs fs' Hne Hw Hidx.
  destruct (writeIndex_stores mb fs fs' Hne Hw) as [Hp Hf].
  rewrite <- Hidx in Hp, Hf.
  eexists. split; [by apply readIndex_of_index_stream |]. simpl.
  repeat split.
  - apply same_metadata_owned_by.
  - intros m (m0 & -> & _)%list_elem_of_fmap. done.
Qed.

Lemma no_error_result {A B} (r : option A * B) : r.1 = None → r = (None, r.2).
Proof. destruct r as [e b]. simpl. by intros ->. Qed.

Lemma index_round_trip_witness :
  ∃ loaded : mbox,
    readIndex (sample_mbox false [])
              (writeIndex (sample_mbox true [sample_msg1; sample_msg2]) ∅).2
    = (None, loaded,
       (writeIndex (sample_mbox true [sample_msg1; sample_msg2]) ∅).2)
    ∧ indexLoaded loaded = true
    ∧ name loaded = "b"
    ∧ Forall2 same_metadata (messages loaded) [sample_msg1; sample_msg2]
    ∧ (∀ m, m ∈ messages loaded → mailbox m = sample_dir).
Proof.
  apply (index_round_trip (sample_mbox true [sample_msg1; sample_msg2])
           (sample_mbox false []) ∅).
  - simpl. discriminate.
  - apply no_error_result. vm_compute. reflexivity.
  - reflexivity.
Defined.

Lemma readIndex_corrupt_result (mb : mbox) (fs : FS) (stream : list gobval)
    (good : list Message) (e : gob_error) :
  os_Open fs (indexPath mb) = Some (File stream) →
  corrupt_index (path mb) stream good e →
  ∃ mb' : mbox,
    readIndex mb fs = (Some (ErrCorrupt (indexPath mb) e), mb', fs)
    ∧ readIndex mb' fs = (Some (ErrCorrupt (indexPath mb) e), mb', fs)
    ∧ indexLoaded mb' = indexLoaded mb
    ∧ path mb' = path mb ∧ indexPath mb' = indexPath mb
    ∧ messages mb' = owned_by (path mb) <$> good.
Proof.
  intros Hopen Hc. unfold readIndex, os_Stat. simpl.
  unfold os_Open in *. rewrite Hopen.
  destruct Hc as [stream e Hd He | nm good bad e Hd He].
  - rewrite Hd. eexists. split; [reflexivity |]. simpl.
    rewrite Hopen, Hd. done.
  - simpl. rewrite readIndex_loop_records.
    rewrite (readIndex_loop_error _ _ e) by done.
    eexists. split; [reflexivity |]. simpl.
    rewrite Hopen. simpl. rewrite readIndex_loop_records.
    rewrite (readIndex_loop_error _ _ e) by done. done.
Qed.

(** C4.  When loading the index hits a decode error that is not the end
    of the data, on the header or on a record after some well-formed
    ones, the load returns a corruption error; Get, GetAll and Remove on
    the handle return that error and deliver no message, although the
    records decoded before the failing one stay in the handle; the handle
    remains not loaded, so that its next access reads the index from the
    disk again: it fails in the same way while the file is as it was, and
    returns exactly the stored entries once the file is a well-formed
    index. *)
Theorem readIndex_corruption :
  ∀ (mb : mbox) (fs : FS) (stream : list gobval) (good : list Message)
    (e : gob_error),
    indexLoaded mb = false →
    os_Open fs (indexPath mb) = Some (File stream) →
    corrupt_index (path mb) stream good e →
    ∃ mb' : mbox,
      let err := ErrCorrupt (indexPath mb) e in
      readIndex mb fs = (Some err, mb', fs)
      ∧ indexLoaded mb' = false
      ∧ messages mb' = owned_by (path mb) <$> good
      ∧ getMessages mb fs = (Error err, mb', fs)
      ∧ (∀ id, getMessage id mb fs = (Error err, mb', fs))
      ∧ (∀ id, removeMessage id mb fs = (Some err, mb', fs))
      ∧ getMessages mb' fs = (Error err, mb', fs)
      ∧ (∀ (fs2 : FS) (nm : string) (msgs : list Message),
           fs2 !! indexPath mb = Some (File (index_stream nm msgs)) →
           ∃ mb'' : mbox,
             getMessages mb' fs2
             = (Ok (owned_by (path mb) <$> msgs), mb'', fs2)
             ∧ indexLoaded mb'' = true).
Proof.
  intros mb fs stream good e Hl Hopen Hc.
  destruct (readIndex_corrupt_result mb fs stream good e Hopen Hc)
    as (mb' & Hr & Hr' & Hl' & Hp' & Hi' & Hm').
  exists mb'. simpl. rewrite Hl in Hl'.
  assert (indexPath mb ≠ []) as Hne.
  { intros H0. unfold os_Open in Hopen. by rewrite H0 in Hopen. }
  repeat split; try done.
  - unfold getMessages. by rewrite Hl, Hr.
  - intros id. unfold getMessage. by rewrite Hl, Hr.
  - intros id. unfold removeMessage. by rewrite Hl, Hr.
  - unfold getMessages. by rewrite Hl', Hr'.
  - intros fs2 nm msgs Hf. unfold getMessages. rewrite Hl'.
    rewrite (readIndex_of_index_stream mb' fs2 nm msgs) by (by rewrite Hi').
    eexists. rewrite Hp'. by split.
Qed.

Lemma readIndex_corruption_witness :
  ∃ mb' : mbox,
    let err := ErrCorrupt (sample_dir ++ [indexFileName]) gob_bad_data in
    readIndex (sample_mbox false []) sample_corrupt_fs
    = (Some err, mb', sample_corrupt_fs)
    ∧ indexLoaded mb' = false
    ∧ messages mb' = [sample_msg1]
    ∧ getMessages (sample_mbox false []) sample_corrupt_fs
      = (Error err, mb', sample_corrupt_fs).
Proof.
  destruct (readIndex_corruption (sample_mbox false []) sample_corrupt_fs
              (index_stream "b" [sample_msg1] ++ [GobJunk [1; 2; 3]%Z])
              [sample_msg1] gob_bad_data)
    as (mb' & Hr & Hl & Hm & Hg & _).
  - reflexivity.
  - vm_compute. reflexivity.
  - apply corrupt_record; [reflexivity | discriminate].
  - exists mb'. simpl. repeat split; assumption.
Defined.

(** C2.  Persisting the index of a handle that holds no message returns
    no error and writes nothing: it removes the mailbox directory with
    everything below it; then the level-2 shard directory if that is now
    a directory without entries, and, only if that one was removed, the
    level-1 shard directory under the same condition; every other path is
    left as it was.  And whatever operation runs on whatever handle, every
    path of the disk is afterwards as it was before, or gone, or a
    directory, or an index file holding the header and at least one
    message record: no index file with zero records is written. *)
Theorem writeIndex_empty_removes_mailbox :
  ∀ (mb : mbox) (fs : FS) (base : pathname) (s1 s2 tok : string),
    messages mb = [] →
    path mb = base ++ [s1; s2; tok] →
    let d2 := base ++ [s1; s2] in
    let d1 := base ++ [s1] in
    (∃ fs' : FS,
       writeIndex mb fs = (None, fs')
       ∧ only_removes fs fs'
       ∧ (∀ p, path mb `prefix_of` p → fs' !! p = None)
       ∧ (empty_but fs d2 tok → fs' !! d2 = None)
       ∧ (¬ empty_but fs d2 tok → fs' !! d2 = fs !! d2)
       ∧ (empty_but fs d2 tok → empty_but fs d1 s2 → fs' !! d1 = None)
       ∧ (¬ (empty_but fs d2 tok ∧ empty_but fs d1 s2) →
          fs' !! d1 = fs !! d1)
       ∧ (∀ p, ¬ path mb `prefix_of` p → p ≠ d2 → p ≠ d1 →
               fs' !! p = fs !! p))
    ∧ (∀ (op : operation) (mb0 : mbox) (fs0 : FS),
         no_empty_index_written fs0 (perform op mb0 fs0).2).
Proof.
  intros mb fs base s1 s2 tok Hm Hpath d2 d1. split.
  - destruct (removeDir_prunes mb fs base s1 s2 tok Hpath)
      as (fs' & Hr & Hrest).
    exists fs'. unfold writeIndex. rewrite Hm. split; [done |].
    split; [|exact Hrest].
    pose proof (removeDir_only_removes mb fs) as [_ Ho].
    by rewrite Hr in Ho.
  - apply perform_no_empty_index.
Qed.

Lemma writeIndex_empty_removes_mailbox_witness :
  ∃ fs' : FS,
    writeIndex (sample_mbox true []) sample_fs = (None, fs')
    ∧ only_removes sample_fs fs'
    ∧ (∀ p, sample_dir `prefix_of` p → fs' !! p = None).
Proof.
  destruct (writeIndex_empty_removes_mailbox (sample_mbox true []) sample_fs
              ["data"; "mail"] "da3" "da39a3" sample_token
              eq_refl eq_refl)
    as [(fs' & Hw & Ho & Hgone & _) _].
  exists fs'. split; [exact Hw |]. split; [exact Ho | exact Hgone].
Defined.

(** ** Remove *)

Lemma find_id_first (id : string) (l1 l2 : list Message) (m : Message) :
  Fid m = id → (∀ x, x ∈ l1 → Fid x ≠ id) →
  ∀ i, find_id id i (l1 ++ m :: l2) = Some (i + length l1, m).
Proof.
  intros Hm. induction l1 as [|x l1 IH]; intros Hl1 i; simpl.
  - rewrite decide_True by done. by rewrite Nat.add_0_r.
  - rewrite decide_False by (apply Hl1; left).
    rewrite IH by (intros y Hy; apply Hl1; by right). f_equal. f_equal. lia.
Qed.

Lemma slice_around (l1 l2 : list Message) (m : Message) :
  take (length l1) (l1 ++ m :: l2) ++ drop (S (length l1)) (l1 ++ m :: l2)
  = l1 ++ l2.
Proof. induction l1 as [|x l1 IH]; simpl; [done | by f_equal]. Qed.

Lemma os_Remove_other (p q : pathname) (fs : FS) :
  q ≠ p → (os_Remove p fs).2 !! q = fs !! q.
Proof.
  intros Hne. unfold os_Remove. destruct p as [|c p]; [done |].
  destruct (fs !! (c :: p)) as [[|content]|]; simpl; [| | done].
  - destruct (Readdirnames fs (c :: p)); simpl; [|done].
    by apply lookup_delete_ne.
  - by apply lookup_delete_ne.
Qed.

Lemma os_Remove_error (p : pathname) (fs fs' : FS) (e : error) :
  os_Remove p fs = (Some e, fs') → fs' = fs.
Proof.
  unfold os_Remove. destruct p as [|c p]; [by intros [= _ <-] |].
  destruct (fs !! (c :: p)) as [[|content]|]; [| done | by intros [= _ <-]].
  destruct (Readdirnames fs (c :: p)); [done | by intros [= _ <-]].
Qed.

Lemma removeMessage_found (id : string) (mb : mbox) (fs : FS)
    (l1 l2 : list Message) (m : Message) :
  indexLoaded mb = true → messages mb = l1 ++ m :: l2 →
  Fid m = id → (∀ x, x ∈ l1 → Fid x ≠ id) →
  removeMessage id mb fs
  = match writeIndex (set_messages (l1 ++ l2) mb) fs with
    | (Some e, fs1) => (Some e, set_messages (l1 ++ l2) mb, fs1)
    | (None, fs1) =>
        match l1 ++ l2 with
        | [] => (None, set_messages (l1 ++ l2) mb, fs1)
        | _ :: _ =>
            let '(e, fs2) := os_Remove (rawPath m) fs1 in
            (e, set_messages (l1 ++ l2) mb, fs2)
        end
    end.
Proof.
  intros Hl Hmsgs Hm Hl1. unfold removeMessage. rewrite Hl, Hmsgs.
  rewrite (find_id_first id l1 l2 m Hm Hl1 0). simpl.
  by rewrite slice_around.
Qed.

Lemma readIndex_missing (mb : mbox) (fs : FS) :
  os_Stat fs (indexPath mb) = None →
  readIndex mb fs = (None, set_indexLoaded true (set_messages [] mb), fs).
Proof. intros H. unfold readIndex. simpl. by rewrite H. Qed.

(** C5.  On a loaded mailbox, Remove of an identifier that no entry
    carries returns the not-found error and changes nothing.  Otherwise it
    removes the first entry that carries the identifier and keeps all the
    others in their order, and persists the index of the sequence that
    remains: the disk differs from what persisting that sequence leaves
    at most at the raw file of the removed message; an error of the
    persist is returned; and when Remove returns no error, a fresh handle
    of the mailbox loads exactly the remaining entries. *)
Theorem removeMessage_first_match :
  ∀ (id : string) (mb : mbox) (fs : FS),
    indexLoaded mb = true →
    ((∀ m, m ∈ messages mb → Fid m ≠ id) →
     removeMessage id mb fs = (Some ErrNotExist, mb, fs))
    ∧ (∀ (l1 l2 : list Message) (m : Message),
         messages mb = l1 ++ m :: l2 → Fid m = id →
         (∀ x, x ∈ l1 → Fid x ≠ id) →
         let mb' := set_messages (l1 ++ l2) mb in
         ∃ (err : option error) (fs' : FS),
           removeMessage id mb fs = (err, mb', fs')
           ∧ (∃ (e1 : option error) (fs1 : FS),
                writeIndex mb' fs = (e1, fs1)
                ∧ (e1 ≠ None → err = e1 ∧ fs' = fs1)
                ∧ (∀ p, p ≠ rawPath m → fs' !! p = fs1 !! p))
           ∧ (err = None →
              path mb ≠ [] →
              indexPath mb = path mb ++ [indexFileName] →
              rawPath m ≠ indexPath mb →
              ∀ fresh : mbox,
                indexPath fresh = indexPath mb →
                ∃ loaded : mbox,
                  readIndex fresh fs' = (None, loaded, fs')
                  ∧ indexLoaded loaded = true
                  ∧ Forall2 same_metadata (messages loaded) (l1 ++ l2))).
Proof.
  intros id mb fs Hl. split.
  - intros Habs. unfold removeMessage. rewrite Hl.
    by rewrite (proj2 (find_id_None id (messages mb) 0) Habs).
  - intros l1 l2 m Hmsgs Hm Hl1 mb'.
    rewrite (removeMessage_found id mb fs l1 l2 m Hl Hmsgs Hm Hl1).
    fold mb'. destruct (writeIndex mb' fs) as [e1 fs1] eqn:Hw.
    destruct e1 as [e|].
    { (* the persist fails *)
      eexists _, _. split; [reflexivity |]. split; [|done].
      eexists _, _. split; [reflexivity |]. by split. }
    destruct (l1 ++ l2) as [|x rest] eqn:Hrest.
    { (* the last message was removed *)
      eexists _, _. split; [reflexivity |].
      split; [eexists _, _; split; [reflexivity |]; by split |].
      intros _ Hpne Hidx Hraw fresh Hfresh.
      assert (fs1 !! indexPath fresh = None) as Hgone.
      { assert (fs1 = (removeDir mb' fs).2) as ->.
        { unfold writeIndex in Hw. subst mb'. simpl in Hw.
          by rewrite Hw. }
        apply removeDir_removes_mailbox; [done |].
        rewrite Hfresh, Hidx. by apply prefix_app_r. }
      rewrite readIndex_missing.
      - eexists. split; [reflexivity |]. split; [done | constructor].
      - unfold os_Stat, fs_lookup. revert Hgone.
        rewrite Hfresh, Hidx. by destruct (path mb). }
    (* other messages remain *)
    assert (messages mb' ≠ []) as Hne by (subst mb'; simpl; by rewrite ?Hrest).
    destruct (writeIndex_stores mb' fs fs1 Hne Hw) as [Hip Hstored].
    pose proof (os_Remove_other (rawPath m)) as Hothers.
    destruct (os_Remove (rawPath m) fs1) as [e2 fs2] eqn:Hrm.
    eexists _, _. split; [reflexivity |]. split.
    { eexists _, _. split; [reflexivity |]. split; [done |].
      intros p Hp. specialize (Hothers p fs1 Hp). by rewrite Hrm in Hothers. }
    intros -> Hpne Hidx Hraw fresh Hfresh.
    assert (fs2 !! indexPath fresh
            = Some (File (index_stream (name mb') (messages mb')))) as Hf.
    { rewrite Hfresh. specialize (Hothers (indexPath mb) fs1).
      rewrite Hrm in Hothers. simpl in Hothers.
      rewrite Hothers by (intros H; by apply Hraw). exact Hstored. }
    rewrite (readIndex_of_index_stream fresh fs2 _ _) by
      (first [by rewrite Hfresh | exact Hf]).
    eexists. split; [reflexivity |]. split; [done |]. simpl.
    apply (same_metadata_owned_by (path fresh) (x :: rest)).
Qed.

Lemma removeMessage_first_match_witness :
  ∃ (err : option error) (fs' : FS),
    removeMessage "20180304T050607-0000"
                  (sample_mbox true [sample_msg1; sample_msg2]) sample_fs
    = (err, sample_mbox true [sample_msg2], fs').
Proof.
  destruct (proj2 (removeMessage_first_match "20180304T050607-0000"
                     (sample_mbox true [sample_msg1; sample_msg2]) sample_fs
                     eq_refl)
              [] [sample_msg2] sample_msg1 eq_refl eq_refl)
    as (err & fs' & Hrm & _).
  - intros x Hx. by apply elem_of_nil in Hx.
  - exists err, fs'. exact Hrm.
Defined.

(** ** The model on the sample mailbox *)

Example removeMessage_sample :
  (removeMessage "20180304T050607-0000"
     (sample_mbox false []) sample_fs).1
  = (None, sample_mbox true [sample_msg2]).
Proof. vm_compute. reflexivity. Qed.

Example removeMessage_sample_absent :
  (removeMessage "20180304T050609-0002"
     (sample_mbox false []) sample_fs).1
  = (Some ErrNotExist, sample_mbox true [sample_msg1; sample_msg2]).
Proof. vm_compute. reflexivity. Qed.

Example purge_sample_prunes :
  map_to_list (purge (sample_mbox false []) sample_fs).2
  = [(["data"; "mail"], Dir); (["data"], Dir)].
Proof. vm_compute. reflexivity. Qed.

Example getMessage_sample_latest :
  (getMessage "latest" (sample_mbox false []) sample_fs).1.1
  = Ok sample_msg2.
Proof. vm_compute. reflexivity. Qed.

(** * Further properties *)

(** ** Directories *)

(** X1.  [removeDirIfEmpty] removes a path exactly when it is a directory
    other than the root that has no entry, and then removes nothing else
    and returns true; in every other case (the path is missing, is a
    regular file, or has an entry) it returns false and leaves the disk as
    it is. *)
Theorem removeDirIfEmpty_removes_only_empty_directories :
  ∀ (d : pathname) (fs : FS),
    let removable :=
      d ≠ [] ∧ fs !! d = Some Dir ∧ ∀ c, fs !! (d ++ [c]) = None in
    (removable → removeDirIfEmpty d fs = (true, delete d fs))
    ∧ (¬ removable → removeDirIfEmpty d fs = (false, fs)).
Proof.
  intros d fs removable.
  destruct (removeDirIfEmpty_result d fs) as [(H1 & H2 & H3 & Hr)|[Hnot Hr]].
  - split; [done |]. intros Hn. destruct Hn. by repeat split.
  - split; [|done]. intros H. by destruct Hnot.
Qed.

Lemma nonempty_prefix_cons (q : pathname) (c : string) (rest : list string) :
  q ≠ [] → q `prefix_of` c :: rest →
  ∃ q', q = c :: q' ∧ q' `prefix_of` rest.
Proof.
  destruct q as [|x q']; [done |]. intros _ Hp.
  pose proof (prefix_cons_inv_1 _ _ _ _ Hp) as ->.
  exists q'. split; [done |]. by apply prefix_cons_inv_2 in Hp.
Qed.

Lemma mkdir_from_creates (rest : list string) :
  ∀ (pre : pathname) (fs : FS),
    (∀ q content, q ≠ [] → q `prefix_of` rest →
       fs !! (pre ++ q) ≠ Some (File content)) →
    ∃ fs' : FS,
      mkdir_from pre rest fs = (None, fs')
      ∧ (∀ q, q ≠ [] → q `prefix_of` rest → fs' !! (pre ++ q) = Some Dir)
      ∧ (∀ p, (∀ q, q ≠ [] → q `prefix_of` rest → p ≠ pre ++ q) →
              fs' !! p = fs !! p).
Proof.
  induction rest as [|c rest IH]; intros pre fs Hfree; simpl.
  - exists fs. split; [done |]. split; [|done].
    intros q Hq Hp. by apply prefix_nil_inv in Hp.
  - assert (∀ q', pre ++ c :: q' = (pre ++ [c]) ++ q') as Hshift
      by (intros q'; by rewrite <- app_assoc).
    assert (∀ q', q' ≠ [] → (pre ++ [c]) ++ q' ≠ pre ++ [c]) as Hlonger.
    { intros q' Hq' H. apply (f_equal length) in H.
      rewrite !length_app in H. destruct q'; simpl in *; [done | lia]. }
    assert ([c] `prefix_of` c :: rest) as Hc by (apply prefix_cons, prefix_nil).
    (* the state in which the remaining components are created *)
    assert (∃ fs1 : FS,
              match fs !! (pre ++ [c]) with
              | Some (File _) => (Some (PathError "mkdir" (pre ++ [c])), fs)
              | Some Dir => mkdir_from (pre ++ [c]) rest fs
              | None => mkdir_from (pre ++ [c]) rest (<[pre ++ [c] := Dir]> fs)
              end = mkdir_from (pre ++ [c]) rest fs1
              ∧ fs1 !! (pre ++ [c]) = Some Dir
              ∧ (∀ p, p ≠ pre ++ [c] → fs1 !! p = fs !! p)) as (fs1 & -> & H1 & Hrest1).
    { destruct (fs !! (pre ++ [c])) as [[|content]|] eqn:E.
      - by exists fs.
      - by destruct (Hfree [c] content).
      - exists (<[pre ++ [c] := Dir]> fs). split; [done |].
        split; [apply lookup_insert_eq |]. intros p Hp. by apply lookup_insert_ne. }
    destruct (IH (pre ++ [c]) fs1) as (fs' & Hm & Hdirs & Hframe).
    { intros q content Hq Hp. rewrite Hrest1 by (by apply Hlonger).
      rewrite <- Hshift. apply Hfree; [done | by apply prefix_cons]. }
    exists fs'. split; [done |]. split.
    + intros q Hq Hp.
      destruct (nonempty_prefix_cons q c rest Hq Hp) as (q' & -> & Hp').
      rewrite Hshift. destruct (decide (q' = [])) as [-> | Hq'].
      * rewrite app_nil_r, Hframe; [done |].
        intros q Hq0 _. intros H. symmetry in H. by apply Hlonger in H.
      * by apply Hdirs.
    + intros p Hp. rewrite Hframe.
      * apply Hrest1. apply (Hp [c]); done.
      * intros q Hq Hpq. rewrite <- Hshift. apply Hp; [done | by apply prefix_cons].
Qed.

Lemma mkdir_from_error (rest : list string) :
  ∀ (pre : pathname) (fs fs' : FS) (e : error),
    mkdir_from pre rest fs = (Some e, fs') →
    ∃ q content, q ≠ [] ∧ q `prefix_of` rest
                 ∧ fs !! (pre ++ q) = Some (File content).
Proof.
  induction rest as [|c rest IH]; intros pre fs fs' e; simpl; [done |].
  assert (∀ q', pre ++ c :: q' = (pre ++ [c]) ++ q') as Hshift
    by (intros q'; by rewrite <- app_assoc).
  destruct (fs !! (pre ++ [c])) as [[|content]|] eqn:E.
  - intros (q & content & Hq & Hp & Hf)%IH.
    exists (c :: q), content. rewrite Hshift. by split; [|split; [apply prefix_cons|]].
  - intros _. exists [c], content.
    split; [done |]. split; [apply prefix_cons, prefix_nil | done].
  - intros (q & content & Hq & Hp & Hf)%IH.
    exists (c :: q), content. rewrite Hshift.
    split; [done |]. split; [by apply prefix_cons |].
    rewrite lookup_insert_ne in Hf; [done |].
    intros H. apply (f_equal length) in H. rewrite !length_app in H.
    destruct q; simpl in *; [done | lia].
Qed.

Lemma mkdir_from_blocked (rest : list string) :
  ∀ (pre : pathname) (fs : FS) (q : pathname) (content : list gobval),
    q ≠ [] → q `prefix_of` rest → fs !! (pre ++ q) = Some (File content) →
    (mkdir_from pre rest fs).1 ≠ None.
Proof.
  induction rest as [|c rest IH]; intros pre fs q content Hq Hp Hf.
  - by apply prefix_nil_inv in Hp.
  - destruct (nonempty_prefix_cons q c rest Hq Hp) as (q' & -> & Hp').
    assert (pre ++ c :: q' = (pre ++ [c]) ++ q') as Hshift
      by (by rewrite <- app_assoc).
    rewrite Hshift in Hf. simpl.
    destruct (decide (q' = [])) as [-> | Hq'].
    { rewrite app_nil_r in Hf. by rewrite Hf. }
    destruct (fs !! (pre ++ [c])) as [[|content']|] eqn:E; [| done |].
    + by apply (IH _ _ q' content).
    + apply (IH _ _ q' content); [done | done |].
      rewrite lookup_insert_ne; [done |].
      intros H. apply (f_equal length) in H. rewrite !length_app in H.
      destruct q'; simpl in *; [done | lia].
Qed.

Lemma createDir_existing (mb : mbox) (fs : FS) :
  fs_lookup fs (path mb) ≠ None → createDir mb fs = (None, fs).
Proof.
  intros H. unfold createDir, os_Stat. by destruct (fs_lookup fs (path mb)).
Qed.

Lemma createDir_missing (mb : mbox) (fs : FS) :
  fs_lookup fs (path mb) = None →
  (∀ q content, q ≠ [] → q `prefix_of` path mb →
     fs !! q ≠ Some (File content)) →
  ∃ fs' : FS,
    createDir mb fs = (None, fs')
    ∧ (∀ q, q ≠ [] → q `prefix_of` path mb → fs' !! q = Some Dir)
    ∧ (∀ p, ¬ (p ≠ [] ∧ p `prefix_of` path mb) → fs' !! p = fs !! p).
Proof.
  intros Hmiss Hfree. unfold createDir, os_Stat. rewrite Hmiss.
  destruct (mkdir_from_creates (path mb) [] fs Hfree) as (fs' & Hm & Hd & Hf).
  exists fs'. split; [done |]. split; [exact Hd |].
  intros p Hp. apply Hf. intros q Hq Hpre ->. by apply Hp.
Qed.

(** X2.  [createDir] does nothing when something is at the path of the
    mailbox.  When nothing is there and no regular file is on the way, it
    returns no error, makes the path and every missing ancestor a
    directory, keeps every entry the disk had, changes no path that is
    not on the way, and a second call changes nothing more. *)
Theorem createDir_makes_the_directory :
  ∀ (mb : mbox) (fs : FS),
    (fs_lookup fs (path mb) ≠ None → createDir mb fs = (None, fs))
    ∧ (fs_lookup fs (path mb) = None →
       (∀ q content, q ≠ [] → q `prefix_of` path mb →
          fs !! q ≠ Some (File content)) →
       ∃ fs' : FS,
         createDir mb fs = (None, fs')
         ∧ (∀ q, q ≠ [] → q `prefix_of` path mb → fs' !! q = Some Dir)
         ∧ (∀ p n, fs !! p = Some n → fs' !! p = Some n)
         ∧ (∀ p, ¬ p `prefix_of` path mb → fs' !! p = fs !! p)
         ∧ createDir mb fs' = (None, fs')).
Proof.
  intros mb fs. split; [apply createDir_existing |].
  intros Hmiss Hfree.
  destruct (createDir_missing mb fs Hmiss Hfree) as (fs' & Hc & Hd & Hf).
  exists fs'. split; [done |]. split; [exact Hd |].
  split; [|split; [intros p Hp; apply Hf; by intros [_ ?] |]].
  - intros p n Hp.
    destruct (decide (p ≠ [] ∧ p `prefix_of` path mb)) as [[Hne Hpre] | Hno].
    + rewrite (Hd p Hne Hpre). destruct n as [|content]; [done |].
      by destruct (Hfree p content Hne Hpre).
    + by rewrite Hf.
  - apply createDir_existing.
    assert (path mb ≠ []) as Hne by (intros H0; by rewrite H0 in Hmiss).
    assert (fs_lookup fs' (path mb) = fs' !! path mb) as ->
      by (by destruct (path mb)).
    by rewrite Hd.
Qed.

(** X3.  [createDir] returns an error exactly when nothing is at the path
    of the mailbox and a regular file is on the way to it; whether it
    fails or not, it only ever adds directories. *)
Theorem createDir_fails_only_on_a_file_in_the_way :
  ∀ (mb : mbox) (fs : FS),
    ((createDir mb fs).1 ≠ None ↔
     fs_lookup fs (path mb) = None
     ∧ ∃ q content, q ≠ [] ∧ q `prefix_of` path mb
                    ∧ fs !! q = Some (File content))
    ∧ (∀ p, (createDir mb fs).2 !! p = fs !! p
            ∨ (createDir mb fs).2 !! p = Some Dir).
Proof.
  intros mb fs. split.
  - split.
    + intros Herr.
      destruct (fs_lookup fs (path mb)) as [n|] eqn:Hl.
      { rewrite createDir_existing in Herr by (by rewrite Hl). done. }
      split; [done |]. unfold createDir, os_Stat in Herr. rewrite Hl in Herr.
      unfold os_MkdirAll in Herr.
      destruct (mkdir_from [] (path mb) fs) as [[e|] fs'] eqn:Hm; [|done].
      by apply mkdir_from_error in Hm.
    + intros [Hmiss (q & content & Hq & Hp & Hf)] Hnone.
      unfold createDir, os_Stat in Hnone. rewrite Hmiss in Hnone.
      unfold os_MkdirAll in Hnone.
      by apply (mkdir_from_blocked (path mb) [] fs q content) in Hnone.
  - intros p. unfold createDir, os_Stat.
    destruct (fs_lookup fs (path mb)); [by left |].
    apply mkdir_from_makes_directories.
Qed.

(** ** Persisting a non-empty index *)

Lemma os_Create_succeeds (p : pathname) (fs : FS) :
  (os_Create p fs).1 = None ↔
  p ≠ [] ∧ fs_lookup fs (filepath_Dir p) = Some Dir ∧ fs !! p ≠ Some Dir.
Proof.
  unfold os_Create. destruct p as [|c p]; [by split; [|intros [? _]] |].
  destruct (fs_lookup fs (filepath_Dir (c :: p))) as [[|?]|];
    destruct (fs !! (c :: p)) as [[|?]|]; simpl; split; try done;
    by intros (_ & ? & ?).
Qed.

Lemma writeIndex_nonempty (mb : mbox) (fs : FS) :
  messages mb ≠ [] →
  writeIndex mb fs
  = match createDir mb fs with
    | (Some err, fs1) => (Some err, fs1)
    | (None, fs1) =>
        match os_Create (indexPath mb) fs1 with
        | (Some err, fs2) => (Some err, fs2)
        | (None, fs2) =>
            (None,
             <[indexPath mb := File (index_stream (name mb) (messages mb))]>
               fs2)
        end
    end.
Proof.
  intros Hne. unfold writeIndex.
  destruct (messages mb) as [|m ms] eqn:Hm; [done |].
  destruct (createDir mb fs) as [[e|] fs1]; [done |].
  destruct (os_Create (indexPath mb) fs1) as [[e|] fs2]; [done |].
  unfold flush_and_close. rewrite encode_all. reflexivity.
Qed.

Lemma mkdir_from_frame (rest : list string) :
  ∀ (pre : pathname) (fs : FS) (p : pathname),
    (mkdir_from pre rest fs).2 !! p = fs !! p
    ∨ (fs !! p = None ∧ (mkdir_from pre rest fs).2 !! p = Some Dir
       ∧ ∃ q, q ≠ [] ∧ q `prefix_of` rest ∧ p = pre ++ q).
Proof.
  induction rest as [|c rest IH]; intros pre fs p; simpl; [by left |].
  assert (∀ q, q ≠ [] → q `prefix_of` rest →
            ∃ q', q' ≠ [] ∧ q' `prefix_of` c :: rest
                  ∧ (pre ++ [c]) ++ q = pre ++ q') as Hshift.
  { intros q Hq Hp. exists (c :: q). split; [done |].
    split; [by apply prefix_cons | by rewrite <- app_assoc]. }
  destruct (fs !! (pre ++ [c])) as [[|content]|] eqn:E; [| by left |].
  - destruct (IH (pre ++ [c]) fs p) as [H | (H1 & H2 & q & Hq & Hp & ->)];
      [by left | right].
    split; [done |]. split; [done |]. by apply Hshift.
  - destruct (IH (pre ++ [c]) (<[pre ++ [c] := Dir]> fs) p)
      as [H | (H1 & H2 & q & Hq & Hp & ->)].
    + destruct (decide (p = pre ++ [c])) as [-> | Hne].
      * right. rewrite H, lookup_insert_eq. split; [done |]. split; [done |].
        exists [c]. split; [done |]. split; [apply prefix_cons, prefix_nil | done].
      * left. by rewrite H, lookup_insert_ne.
    + right. split; [|split; [done | by apply Hshift]].
      rewrite lookup_insert_ne in H1; [done |].
      intros H. apply (f_equal length) in H. rewrite !length_app in H.
      destruct q; simpl in *; [done | lia].
Qed.

Lemma index_not_on_the_way (p : pathname) (x : string) :
  ¬ (p ++ [x] ≠ [] ∧ p ++ [x] `prefix_of` p).
Proof.
  intros [_ H]. apply prefix_length in H. rewrite length_app in H.
  simpl in H. lia.
Qed.

Lemma writeIndex_success_iff (mb : mbox) (fs : FS) :
  messages mb ≠ [] →
  indexPath mb = path mb ++ [indexFileName] →
  (writeIndex mb fs).1 = None ↔
  creatable fs (path mb) ∧ fs !! indexPath mb ≠ Some Dir.
Proof.
  intros Hne Hidx. rewrite writeIndex_nonempty by done.
  pose proof (λ fs1, os_Create_succeeds (indexPath mb) fs1) as Hcr.
  rewrite Hidx in Hcr. setoid_rewrite filepath_Dir_child in Hcr.
  rewrite <- Hidx in Hcr.
  assert (indexPath mb ≠ []) as Hip by (rewrite Hidx; by destruct (path mb)).
  destruct (fs_lookup fs (path mb)) as [[|content]|] eqn:Hl.
  - (* the directory exists *)
    rewrite createDir_existing by (by rewrite Hl). specialize (Hcr fs).
    destruct (os_Create (indexPath mb) fs) as [[e|] fs2]; simpl in *.
    + split; [done |]. intros [_ Hn]. destruct Hcr as [_ Hcr].
      by discriminate Hcr.
    + destruct Hcr as [Hcr _]. destruct (Hcr eq_refl) as (_ & _ & Hn).
      split; [|done]. intros _. split; [left; by rewrite Hl | done].
  - (* a regular file is at the path of the directory *)
    rewrite createDir_existing by (by rewrite Hl). specialize (Hcr fs).
    destruct (os_Create (indexPath mb) fs) as [[e|] fs2]; simpl in *.
    + split; [done |]. intros [[Hc | [Hc _]] _]; congruence.
    + destruct Hcr as [Hcr _]. destruct (Hcr eq_refl) as (_ & Hd & _).
      congruence.
  - (* the directory is missing *)
    destruct (createDir mb fs) as [[e|] fs1] eqn:Hc; simpl.
    + split; [done |]. intros [[Hd | [_ Hfree]] _]; [congruence |].
      destruct (createDir_missing mb fs Hl Hfree) as (fs' & Hc' & _).
      congruence.
    + assert (∀ q content, q ≠ [] → q `prefix_of` path mb →
                fs !! q ≠ Some (File content)) as Hfree.
      { intros q content Hq Hp Hf.
        assert ((createDir mb fs).1 ≠ None) as Herr; [|by rewrite Hc in Herr].
        unfold createDir, os_Stat. rewrite Hl.
        by apply (mkdir_from_blocked (path mb) [] fs q content). }
      destruct (createDir_missing mb fs Hl Hfree) as (fs' & Hc' & Hd & Hf).
      assert (fs' = fs1) as -> by congruence.
      assert (fs_lookup fs1 (path mb) = Some Dir) as Hdir.
      { assert (path mb ≠ []) as Hpne by (intros H0; by rewrite H0 in Hl).
        pose proof (Hd (path mb) Hpne (reflexivity _)) as Hdd.
        unfold fs_lookup. by destruct (path mb). }
      assert (fs1 !! indexPath mb = fs !! indexPath mb) as Hsame.
      { apply Hf. rewrite Hidx. apply index_not_on_the_way. }
      specialize (Hcr fs1).
      destruct (os_Create (indexPath mb) fs1) as [[e|] fs2]; simpl in *.
      * split; [done |]. intros [_ Hn]. destruct Hcr as [_ Hcr].
        rewrite Hsame in Hcr. by discriminate Hcr.
      * destruct Hcr as [Hcr _]. destruct (Hcr eq_refl) as (_ & _ & Hn).
        split; [|done]. intros _. split; [right; by split |].
        by rewrite <- Hsame.
Qed.

Lemma writeIndex_nonempty_frame (mb : mbox) (fs fs' : FS) :
  messages mb ≠ [] →
  writeIndex mb fs = (None, fs') →
  fs' !! indexPath mb = Some (File (index_stream (name mb) (messages mb)))
  ∧ ∀ p, p ≠ indexPath mb →
         fs' !! p = fs !! p
         ∨ (fs !! p = None ∧ fs' !! p = Some Dir
            ∧ p ≠ [] ∧ p `prefix_of` path mb).
Proof.
  intros Hne Hw. split; [by apply (writeIndex_stores mb fs fs') |].
  rewrite writeIndex_nonempty in Hw by done.
  intros p Hp.
  assert (∀ fs1, createDir mb fs = (None, fs1) →
            fs1 !! p = fs !! p
            ∨ (fs !! p = None ∧ fs1 !! p = Some Dir
               ∧ p ≠ [] ∧ p `prefix_of` path mb)) as Hcd.
  { intros fs1. unfold createDir, os_Stat, os_MkdirAll.
    destruct (fs_lookup fs (path mb)); [intros [= <-]; by left |].
    intros Hm. pose proof (mkdir_from_frame (path mb) [] fs p) as Hfr.
    rewrite Hm in Hfr. simpl in Hfr.
    destruct Hfr as [H | (H1 & H2 & q & Hq & Hpre & ->)]; [by left | right].
    done. }
  destruct (createDir mb fs) as [[e|] fs1]; [done |].
  destruct (os_Create (indexPath mb) fs1) as [[e|] fs2] eqn:Hcr; [done |].
  injection Hw as <-. apply os_Create_ok in Hcr as [_ ->].
  rewrite !lookup_insert_ne by done. by apply Hcd.
Qed.

(** X4.  Persisting a non-empty index succeeds exactly when the mailbox
    directory exists as a directory or can be created, and the index path
    is not a directory.  When it succeeds the index file holds the header
    and the records of the handle, whatever it held before, and every
    other path is as it was, except for the missing directories on the
    way to the mailbox, which now exist: no raw message file is touched. *)
Theorem writeIndex_nonempty_effect :
  ∀ (mb : mbox) (fs : FS),
    messages mb ≠ [] →
    indexPath mb = path mb ++ [indexFileName] →
    ((writeIndex mb fs).1 = None ↔
     creatable fs (path mb) ∧ fs !! indexPath mb ≠ Some Dir)
    ∧ (∀ fs' : FS,
         writeIndex mb fs = (None, fs') →
         fs' !! indexPath mb
         = Some (File (index_stream (name mb) (messages mb)))
         ∧ ∀ p, p ≠ indexPath mb →
                fs' !! p = fs !! p
                ∨ (fs !! p = None ∧ fs' !! p = Some Dir
                   ∧ p ≠ [] ∧ p `prefix_of` path mb)).
Proof.
  intros mb fs Hne Hidx. split; [by apply writeIndex_success_iff |].
  intros fs' Hw. by apply writeIndex_nonempty_frame.
Qed.

(** ** Removing a mailbox *)

Lemma same_length_prefix (a b p : pathname) :
  length a = length b → a `prefix_of` p → b `prefix_of` p → a = b.
Proof.
  intros Hlen [ka ->] [kb Hb].
  apply app_inj_1 in Hb as [Hab _]; done.
Qed.

(** X5.  Removing a mailbox (persisting a handle without messages) spares
    its neighbours: for another mailbox directory below the same mail
    root that exists together with its level-2 shard directory,
    everything at or below that directory is unchanged, and its two shard
    directories are kept even when the removed mailbox shared them. *)
Theorem removing_a_mailbox_spares_its_neighbours :
  ∀ (mb : mbox) (fs : FS) (base : pathname) (a1 a2 ta b1 b2 tb : string),
    messages mb = [] →
    path mb = base ++ [a1; a2; ta] →
    base ++ [b1; b2; tb] ≠ path mb →
    fs !! (base ++ [b1; b2]) = Some Dir →
    fs !! (base ++ [b1; b2; tb]) = Some Dir →
    ∃ fs' : FS,
      writeIndex mb fs = (None, fs')
      ∧ (∀ p, base ++ [b1; b2; tb] `prefix_of` p → fs' !! p = fs !! p)
      ∧ fs' !! (base ++ [b1; b2]) = Some Dir
      ∧ fs' !! (base ++ [b1]) = fs !! (base ++ [b1]).
Proof.
  intros mb fs base a1 a2 ta b1 b2 tb Hm Hpath Hdiff Hd2 Hd3.
  destruct (removeDir_prunes mb fs base a1 a2 ta Hpath)
    as (fs' & Hr & _ & _ & Hkeep2 & _ & Hkeep1 & Hframe).
  exists fs'. unfold writeIndex. rewrite Hm. split; [done |].
  assert (length (path mb) = length (base ++ [b1; b2; tb])) as Hlen
    by (rewrite Hpath, !length_app; done).
  assert (∀ p, (base ++ [b1; b2; tb]) `prefix_of` p → ¬ path mb `prefix_of` p) as Hnotunder.
  { intros p Hb Ha. apply Hdiff. symmetry.
    by apply (same_length_prefix (path mb) (base ++ [b1; b2; tb]) p). }
  assert (∀ (l : list string) (x y : string),
            base ++ l ++ [x] = base ++ l ++ [y] → x = y) as Hlast.
  { intros l x y H. apply app_inv_head in H.
    by apply app_inj_2 in H as [_ [= ->]]. }
  (* the level-2 directory of the removed mailbox keeps an entry when it
     is the neighbour's as well *)
  assert (base ++ [a1; a2] = base ++ [b1; b2] → ¬ empty_but fs (base ++ [a1; a2]) ta)
    as Hshared2.
  { intros Heq [_ Hno]. specialize (Hno tb).
    rewrite Heq, <- app_assoc in Hno. simpl in Hno. rewrite Hd3 in Hno.
    assert (tb ≠ ta) as Hne; [|by specialize (Hno Hne)].
    intros ->. apply Hdiff. rewrite Hpath.
    apply app_inv_head in Heq. injection Heq as -> ->. done. }
  split; [|split].
  - intros p Hp. apply Hframe; [by apply Hnotunder | |];
      intros ->; apply prefix_length in Hp;
      rewrite !length_app in Hp; simpl in Hp; lia.
  - destruct (decide (base ++ [a1; a2] = base ++ [b1; b2])) as [Heq | Hne].
    + rewrite <- Heq, Hkeep2 by (by apply Hshared2). by rewrite Heq.
    + rewrite Hframe; [done | | done |].
      * apply prefix_of_shorter. rewrite Hpath, !length_app.
        simpl. lia.
      * intros H. apply (f_equal length) in H. rewrite !length_app in H.
        simpl in H. lia.
  - destruct (decide (base ++ [a1] = base ++ [b1])) as [Heq | Hne].
    + rewrite <- Heq. apply Hkeep1. intros [HE2 [_ Hno]].
      destruct (decide (b2 = a2)) as [-> | Hb2].
      * apply (Hshared2); [|done].
        apply app_inv_head in Heq. injection Heq as ->. done.
      * specialize (Hno b2 Hb2). rewrite Heq, <- app_assoc in Hno.
        simpl in Hno. by rewrite Hd2 in Hno.
    + rewrite Hframe; [done | | |done].
      * apply prefix_of_shorter. rewrite Hpath, !length_app.
        simpl. lia.
      * intros H. apply (f_equal length) in H. rewrite !length_app in H.
        simpl in H. lia.
Qed.

Lemma os_RemoveAll_nothing_below (p : pathname) (fs : FS) :
  (∀ q, p `prefix_of` q → fs !! q = None) → os_RemoveAll p fs = (None, fs).
Proof.
  intros Hno. unfold os_RemoveAll. destruct p as [|c p]; [done |].
  f_equal. apply map_filter_id. intros q n Hq Hpre. simpl in Hpre.
  by rewrite (Hno q Hpre) in Hq.
Qed.

Lemma removeDir_twice (mb : mbox) (fs : FS) :
  removeDir mb (removeDir mb fs).2 = (None, (removeDir mb fs).2).
Proof.
  destruct (decide (path mb = [])) as [Hnil | Hne].
  { unfold removeDir. rewrite Hnil. simpl.
    destruct (removeDirIfEmpty_result [] fs) as [(H & _)|[_ Hr]]; [done |].
    rewrite Hr. simpl. by rewrite Hr. }
  pose proof (removeDir_removes_mailbox mb fs Hne) as Hgone.
  unfold removeDir in *.
  destruct (os_RemoveAll_result (path mb) fs Hne) as (fs1 & Hra & Hin & _).
  rewrite Hra in *.
  destruct (removeDirIfEmpty_result (filepath_Dir (path mb)) fs1)
    as [(Hd0 & Hd & Hc & Hr)|[Hnot Hr]]; rewrite Hr in *; simpl in *.
  - set (fs' := (removeDirIfEmpty _ (delete _ fs1)).2) in *.
    rewrite (os_RemoveAll_nothing_below _ fs' Hgone).
    assert (fs' !! filepath_Dir (path mb) = None) as Hd'.
    { eapply only_removes_keeps_None; [apply removeDirIfEmpty_only_removes |].
      apply lookup_delete_eq. }
    destruct (removeDirIfEmpty_result (filepath_Dir (path mb)) fs')
      as [(_ & Hd2 & _)|[_ Hr2]]; [congruence |]. by rewrite Hr2.
  - rewrite (os_RemoveAll_nothing_below _ fs1 Hin). by rewrite Hr.
Qed.

Lemma purge_result (mb : mbox) (fs : FS) :
  purge mb fs = (None, set_messages [] mb, (removeDir mb fs).2).
Proof.
  unfold purge, writeIndex. simpl.
  change (removeDir (set_messages [] mb) fs) with (removeDir mb fs).
  pose proof (removeDir_only_removes mb fs) as [He _].
  destruct (removeDir mb fs) as [e fs']. simpl in *. by subst e.
Qed.

(** X6.  [purge] never fails and never reads the index, so it also clears
    a mailbox whose index is corrupt; it only removes, and purging again
    changes nothing.  For a resolved handle nothing is left at or below
    the mailbox directory, and a fresh handle then lists no message. *)
Theorem purge_always_succeeds_and_is_idempotent :
  ∀ (mb : mbox) (fs : FS),
    ∃ fs' : FS,
      purge mb fs = (None, set_messages [] mb, fs')
      ∧ only_removes fs fs'
      ∧ purge (set_messages [] mb) fs' = (None, set_messages [] mb, fs')
      ∧ (path mb ≠ [] →
         indexPath mb = path mb ++ [indexFileName] →
         (∀ p, path mb `prefix_of` p → fs' !! p = None)
         ∧ ∀ fresh : mbox,
             indexLoaded fresh = false → indexPath fresh = indexPath mb →
             getMessages fresh fs'
             = (Ok [], set_indexLoaded true (set_messages [] fresh), fs')).
Proof.
  intros mb fs. exists (removeDir mb fs).2.
  split; [apply purge_result |].
  split; [apply removeDir_only_removes |].
  split.
  { rewrite purge_result.
    change (removeDir (set_messages [] mb)) with (removeDir mb).
    by rewrite removeDir_twice. }
  intros Hne Hidx.
  pose proof (removeDir_removes_mailbox mb fs Hne) as Hgone.
  split; [exact Hgone |].
  intros fresh Hl Hfresh. unfold getMessages. rewrite Hl.
  rewrite readIndex_missing; [done |].
  unfold os_Stat. rewrite Hfresh, Hidx.
  assert (fs_lookup (removeDir mb fs).2 (path mb ++ [indexFileName])
          = (removeDir mb fs).2 !! (path mb ++ [indexFileName])) as ->
    by (by destruct (path mb)).
  apply Hgone. by apply prefix_app_r.
Qed.

(** ** Get and Remove *)

Lemma find_id_skip (id : string) (m : Message) (l1 l2 : list Message) :
  Fid m ≠ id →
  ∀ i j, snd <$> find_id id i (l1 ++ m :: l2) = snd <$> find_id id j (l1 ++ l2).
Proof.
  intros Hm. induction l1 as [|x l1 IH]; intros i j; simpl.
  - rewrite decide_False by done. revert i j.
    induction l2 as [|y l2 IH2]; intros i j; simpl; [done |].
    destruct (decide (Fid y = id)); [done | apply IH2].
  - destruct (decide (Fid x = id)); [done | apply IH].
Qed.

Lemma NoDup_ids_after (id : string) (m : Message) (l1 l2 : list Message) :
  NoDup (Fid <$> (l1 ++ m :: l2)) → Fid m = id →
  ∀ x, x ∈ l1 ++ l2 → Fid x ≠ id.
Proof.
  rewrite fmap_app, fmap_cons. intros Hnd <- x Hx Heq.
  apply NoDup_app in Hnd as (_ & Hdisj & Hnd2).
  apply NoDup_cons in Hnd2 as [Hnotin _].
  apply elem_of_app in Hx as [Hx | Hx].
  - apply (Hdisj (Fid m)); [rewrite <- Heq; by apply list_elem_of_fmap_2 | left].
  - apply Hnotin. rewrite <- Heq. by apply list_elem_of_fmap_2.
Qed.

(** X7.  Get after Remove.  On a loaded mailbox whose identifiers are
    pairwise different, once Remove has been called for the identifier of
    an entry (other than the literal "latest"), Get of that identifier on
    the handle returns the not-found error, and Get of every other
    identifier returns what it returned before; this holds whether or not
    persisting the index succeeded. *)
Theorem get_after_remove :
  ∀ (id : string) (mb mb' : mbox) (fs fs' : FS) (err : option error)
    (m : Message),
    indexLoaded mb = true →
    NoDup (Fid <$> messages mb) →
    id ≠ "latest" → m ∈ messages mb → Fid m = id →
    removeMessage id mb fs = (err, mb', fs') →
    getMessage id mb' fs' = (Error ErrNotExist, mb', fs')
    ∧ ∀ id', id' ≠ id → id' ≠ "latest" →
             (getMessage id' mb' fs').1.1 = (getMessage id' mb fs).1.1.
Proof.
  intros id mb mb' fs fs' err m Hl Hnd Hid Hin Hm Hrm.
  (* the first entry with the identifier *)
  destruct (find_id id 0 (messages mb)) as [[i m0]|] eqn:Hfind;
    [| by apply (find_id_None id (messages mb) 0) in Hin].
  assert (∃ l1 l2, messages mb = l1 ++ m0 :: l2 ∧ Fid m0 = id
                   ∧ ∀ x, x ∈ l1 → Fid x ≠ id) as (l1 & l2 & Hmsgs & Hm0 & Hl1).
  { clear -Hfind. revert i Hfind. generalize 0.
    induction (messages mb) as [|x l IH]; intros n i; simpl; [done |].
    destruct (decide (Fid x = id)) as [Hx | Hx].
    - intros [= <- <-]. exists [], l. split; [done |]. split; [done |].
      intros y Hy. by apply elem_of_nil in Hy.
    - intros (l1 & l2 & -> & H1 & H2)%IH. exists (x :: l1), l2.
      split; [done |]. split; [done |].
      intros y [-> | Hy]%elem_of_cons; [done | by apply H2]. }
  rewrite (removeMessage_found id mb fs l1 l2 m0 Hl Hmsgs Hm0 Hl1) in Hrm.
  assert (mb' = set_messages (l1 ++ l2) mb) as ->.
  { destruct (writeIndex (set_messages (l1 ++ l2) mb) fs) as [[e|] fs1];
      [by injection Hrm |].
    destruct (l1 ++ l2); [by injection Hrm |].
    destruct (os_Remove (rawPath m0) fs1). by injection Hrm. }
  rewrite Hmsgs in Hnd.
  pose proof (NoDup_ids_after id m0 l1 l2 Hnd Hm0) as Habs.
  split.
  - unfold getMessage. simpl. rewrite Hl.
    change (messages (set_messages (l1 ++ l2) mb)) with (l1 ++ l2).
    rewrite (proj2 (find_id_None id (l1 ++ l2) 0) Habs).
    destruct (decide (id = "latest")); [done |]. by destruct (last (l1 ++ l2)).
  - intros id' Hne Hlat. unfold getMessage. simpl. rewrite Hl, Hmsgs.
    change (messages (set_messages (l1 ++ l2) mb)) with (l1 ++ l2).
    pose proof (find_id_skip id' m0 l1 l2) as Hskip.
    rewrite Hm0 in Hskip. specialize (Hskip (λ H, Hne (eq_sym H)) 0 0).
    destruct (decide (id' = "latest")); [done |].
    destruct (find_id id' 0 (l1 ++ m0 :: l2)) as [[? ?]|];
      destruct (find_id id' 0 (l1 ++ l2)) as [[? ?]|]; simpl in Hskip;
      simplify_eq; by repeat case_match.
Qed.

(** ** Loading *)

(** X8.  The index is loaded once.  The first access of a handle reads
    the index file, takes the mailbox name from its header and returns the
    stored entries in order; from then on the handle answers from memory:
    GetAll and Get return the same on any later state of the disk. *)
Theorem getMessages_loads_once :
  ∀ (mb : mbox) (fs : FS) (nm : string) (msgs : list Message),
    indexLoaded mb = false →
    fs_lookup fs (indexPath mb) = Some (File (index_stream nm msgs)) →
    ∃ mb' : mbox,
      getMessages mb fs = (Ok (owned_by (path mb) <$> msgs), mb', fs)
      ∧ indexLoaded mb' = true ∧ name mb' = nm
      ∧ path mb' = path mb ∧ indexPath mb' = indexPath mb
      ∧ ∀ fs2 : FS,
          getMessages mb' fs2 = (Ok (owned_by (path mb) <$> msgs), mb', fs2)
          ∧ ∀ id, (getMessage id mb' fs2).1.1 = (getMessage id mb' fs).1.1.
Proof.
  intros mb fs nm msgs Hl Hf.
  assert (indexPath mb ≠ []) as Hne.
  { intros H0. rewrite H0 in Hf. simpl in Hf. discriminate. }
  assert (fs !! indexPath mb = Some (File (index_stream nm msgs))) as Hf'.
  { unfold fs_lookup in Hf. by destruct (indexPath mb). }
  eexists. split.
  { unfold getMessages. rewrite Hl.
    by rewrite (readIndex_of_index_stream mb fs nm msgs Hne Hf'). }
  repeat split; try reflexivity.
  intros id. unfold getMessage, set_indexLoaded. simpl.
  by repeat case_match.
Qed.

(** X9.  Index files without records.  For a handle that is not loaded,
    an index file of zero length is a corruption error (the end of the
    data in place of the header is no regular end) and the handle stays
    not loaded; an index file that holds the header only loads as a
    mailbox without messages, in which Get finds nothing. *)
Theorem index_file_without_records :
  ∀ (mb : mbox) (fs : FS),
    indexLoaded mb = false →
    (fs_lookup fs (indexPath mb) = Some (File []) →
     getMessages mb fs
     = (Error (ErrCorrupt (indexPath mb) io_EOF), set_messages [] mb, fs)
     ∧ indexLoaded (set_messages [] mb) = false)
    ∧ (∀ nm,
         fs_lookup fs (indexPath mb) = Some (File [GobString nm]) →
         getMessages mb fs
         = (Ok [], set_indexLoaded true (set_name nm (set_messages [] mb)),
            fs)
         ∧ ∀ id, (getMessage id mb fs).1.1 = Error ErrNotExist).
Proof.
  intros mb fs Hl. unfold getMessages, getMessage. rewrite Hl.
  unfold readIndex, os_Stat, os_Open. simpl. split.
  - intros ->. by split.
  - intros nm ->. simpl. split; [done |]. intros id.
    by destruct (decide (id = "latest")).
Qed.

(** ** Identifiers *)

Lemma run_counts (sched : list event) :
  ∀ s issued s' issued',
    length (countChannel s) ≤ countChannel_cap →
    run sched s issued = Some (s', issued') →
    length (countChannel s') ≤ countChannel_cap
    ∧ sends sched + length issued + length (countChannel s)
      = length issued' + length (countChannel s').
Proof.
  induction sched as [|e sched IH]; intros s issued s' issued' Hcap; simpl.
  - intros [= <- <-]. split; [done | lia].
  - destruct e as [|date].
    + unfold countGenerator. case_decide as Hroom; [|done].
      intros Hrun. apply IH in Hrun as [Hc Hn]; simpl in *.
      * split; [done |]. rewrite length_app in Hn. simpl in Hn. lia.
      * rewrite length_app. simpl. unfold countChannel_cap in *. lia.
    + unfold generateID, receive.
      destruct (countChannel s) as [|v q] eqn:Hq; [done |].
      intros Hrun. apply IH in Hrun as [Hc Hn]; simpl in *.
      * split; [done |]. rewrite length_app in Hn. simpl in Hn. lia.
      * lia.
Qed.

(** X10.  In every interleaving the channel holds at most ten values;
    the number of sends is the number of identifiers issued plus the
    number of buffered values; the buffered values are the next sequence
    values in order, and the generator's counter is the number of sends
    modulo 10000. *)
Theorem channel_holds_at_most_ten :
  ∀ (sched : list event) (s : counter) (issued : list (Time * string)),
    run sched counter_init [] = Some (s, issued) →
    length (countChannel s) ≤ 10
    ∧ sends sched = length issued + length (countChannel s)
    ∧ (∀ i v, countChannel s !! i = Some v →
              v = (Z.of_nat (length issued + i) mod 10000)%Z)
    ∧ gen_i s = (Z.of_nat (sends sched) mod 10000)%Z.
Proof.
  intros sched s issued Hrun.
  destruct (run_counts sched counter_init [] s issued) as [Hcap Hn];
    [simpl; unfold countChannel_cap; lia | done |].
  destruct (run_inv sched counter_init [] s issued counter_inv_init)
    as [[Hbuf Hi] _]; [by intros k d id Hk | done |].
  unfold counter_init in Hn. simpl in Hn.
  split; [exact Hcap |]. split; [lia |]. split.
  - intros i v Hv. rewrite Hbuf in Hv.
    rewrite list_lookup_fmap in Hv.
    destruct (seq (length issued) (length (countChannel s)) !! i) as [k|] eqn:Hk;
      [|done].
    apply lookup_seq in Hk as [-> _]. by injection Hv as <-.
  - rewrite Hi. unfold nth_value. f_equal. lia.
Qed.

Lemma append_inj_r (a a' b b' : string) :
  String.length b = String.length b' → a +:+ b = a' +:+ b' →
  a = a' ∧ b = b'.
Proof.
  intros Hlen. revert a'. induction a as [|c a IH]; intros [|c' a'] H.
  - done.
  - apply (f_equal String.length) in H. rewrite !append_length in H.
    simpl in *. lia.
  - apply (f_equal String.length) in H. rewrite !append_length in H.
    simpl in *. lia.
  - rewrite !append_cons in H. injection H as -> H.
    by destruct (IH a' H) as [-> ->].
Qed.

Lemma append_inj_l (a a' b b' : string) :
  String.length a = String.length a' → a +:+ b = a' +:+ b' →
  a = a' ∧ b = b'.
Proof.
  revert a'. induction a as [|c a IH]; intros [|c' a'] Hlen H; try done.
  rewrite !append_cons in H. injection H as -> H. injection Hlen as Hlen.
  by destruct (IH a' Hlen H) as [-> ->].
Qed.

(** X11.  Two identifiers issued in one run are equal exactly when their
    timestamps are formatted alike and their positions in the order of
    issue are congruent modulo 10000: identifiers fewer than 10000
    issuances apart always differ, and identifiers 10000 issuances apart
    in the same second collide. *)
Theorem identifiers_collide_only_across_the_wrap :
  ∀ (sched : list event) (s : counter) (issued : list (Time * string))
    (j k : nat) (dj dk : Time) (idj idk : string),
    run sched counter_init [] = Some (s, issued) →
    issued !! j = Some (dj, idj) → issued !! k = Some (dk, idk) →
    idj = idk ↔
    generatePrefix dj = generatePrefix dk
    ∧ (Z.of_nat j mod 10000 = Z.of_nat k mod 10000)%Z.
Proof.
  intros sched s issued j k dj dk idj idk Hrun Hj Hk.
  destruct (run_inv sched counter_init [] s issued counter_inv_init)
    as [_ Hiss]; [by intros n d id Hn | done |].
  rewrite (Hiss j dj idj Hj), (Hiss k dk idk Hk). unfold nth_value.
  pose proof (nth_value_range j) as Hrj. pose proof (nth_value_range k) as Hrk.
  unfold nth_value in *. split.
  - intros H. apply append_inj_r in H as [Hp Hs].
    + split; [done |].
      apply append_inj_r in Hs as [_ Hs];
        [| by rewrite !Sprintf_04d_length].
      by apply Sprintf_04d_inj.
    + rewrite !append_length, !Sprintf_04d_length; done.
  - intros [-> ->]. done.
Qed.

Lemma appendInt_2_parse_checked :
  below 100 (λ n, (parse_dec (appendInt n 2) 0 =? n)%Z) = true.
Proof. vm_compute. reflexivity. Qed.

Lemma appendInt_2_inj (a b : Z) :
  (0 ≤ a < 100)%Z → (0 ≤ b < 100)%Z → appendInt a 2 = appendInt b 2 → a = b.
Proof.
  intros Ha Hb Heq.
  pose proof (below_spec _ _ a appendInt_2_parse_checked Ha) as Hpa.
  pose proof (below_spec _ _ b appendInt_2_parse_checked Hb) as Hpb.
  simpl in Hpa, Hpb. apply Z.eqb_eq in Hpa, Hpb. congruence.
Qed.

Lemma appendInt_4_inj (a b : Z) :
  (0 ≤ a < 10000)%Z → (0 ≤ b < 10000)%Z →
  appendInt a 4 = appendInt b 4 → a = b.
Proof.
  intros Ha Hb. unfold appendInt.
  destruct (a <? 0)%Z eqn:Ea; [lia |]. destruct (b <? 0)%Z eqn:Eb; [lia |].
  pose proof (Sprintf_04d_inj a b Ha Hb) as H. unfold Sprintf_04d in H.
  by rewrite Ea, Eb in H.
Qed.

Lemma appendInt_2_length (n : Z) :
  (0 ≤ n < 100)%Z → String.length (appendInt n 2) = 2.
Proof.
  intros Hn. by apply (matches_layout_length "DD"), appendInt_2_layout.
Qed.

Lemma appendInt_4_length (n : Z) :
  (0 ≤ n < 10000)%Z → String.length (appendInt n 4) = 4.
Proof.
  intros Hn. by apply (matches_layout_length "YYYY"), appendInt_4_layout.
Qed.

(** X12.  For arrival times with a year of four digits, the timestamp
    prefix determines the time to the second: two times with the same
    prefix are the same. *)
Theorem generatePrefix_injective :
  ∀ d d' : Time,
    (0 ≤ t_year d ≤ 9999)%Z → clock_fields d →
    (0 ≤ t_year d' ≤ 9999)%Z → clock_fields d' →
    generatePrefix d = generatePrefix d' → d = d'.
Proof.
  intros [y mo da h mi se] [y' mo' da' h' mi' se']. simpl.
  intros Hy (Hmo & Hda & Hh & Hmi & Hse) Hy' (Hmo' & Hda' & Hh' & Hmi' & Hse').
  simpl in *. unfold generatePrefix. simpl. intros H.
  apply append_inj_l in H as [Ey H];
    [| rewrite !appendInt_4_length; [done | lia | lia]].
  apply append_inj_l in H as [Emo H];
    [| rewrite !appendInt_2_length; [done | lia | lia]].
  apply append_inj_l in H as [Eda H];
    [| rewrite !appendInt_2_length; [done | lia | lia]].
  apply (append_inj_l "T" "T") in H as [_ H]; [|done].
  apply append_inj_l in H as [Eh H];
    [| rewrite !appendInt_2_length; [done | lia | lia]].
  apply append_inj_l in H as [Emi Ese];
    [| rewrite !appendInt_2_length; [done | lia | lia]].
  apply appendInt_4_inj in Ey; [| lia | lia].
  apply appendInt_2_inj in Emo, Eda, Eh, Emi, Ese; try lia.
  by subst.
Qed.

(** ** Concrete instances *)

Lemma triple_eta {A B C} (r : A * B * C) : r = (r.1.1, r.1.2, r.2).
Proof. by destruct r as [[? ?] ?]. Qed.

Lemma writeIndex_nonempty_effect_witness :
  (writeIndex (sample_mbox true [sample_msg1]) sample_fs).1 = None ↔
  creatable sample_fs sample_dir
  ∧ sample_fs !! (sample_dir ++ [indexFileName]) ≠ Some Dir.
Proof.
  refine (proj1 (writeIndex_nonempty_effect
                   (sample_mbox true [sample_msg1]) sample_fs _ _)).
  - simpl. discriminate.
  - reflexivity.
Defined.

Lemma removing_a_mailbox_spares_its_neighbours_witness :
  ∃ fs' : FS,
    writeIndex (sample_mbox true []) sample_fs_two_mailboxes = (None, fs')
    ∧ (∀ p, ["data"; "mail"; "da3"; "da39a3"; sample_neighbour_token]
              `prefix_of` p →
            fs' !! p = sample_fs_two_mailboxes !! p)
    ∧ fs' !! ["data"; "mail"; "da3"; "da39a3"] = Some Dir
    ∧ fs' !! ["data"; "mail"; "da3"]
      = sample_fs_two_mailboxes !! ["data"; "mail"; "da3"].
Proof.
  apply (removing_a_mailbox_spares_its_neighbours
           (sample_mbox true []) sample_fs_two_mailboxes ["data"; "mail"]
           "da3" "da39a3" sample_token "da3" "da39a3" sample_neighbour_token).
  - reflexivity.
  - reflexivity.
  - simpl. discriminate.
  - vm_compute. reflexivity.
  - vm_compute. reflexivity.
Defined.

Lemma get_after_remove_witness :
  getMessage "20180304T050607-0000"
    (removeMessage "20180304T050607-0000"
       (sample_mbox true [sample_msg1; sample_msg2]) sample_fs).1.2
    (removeMessage "20180304T050607-0000"
       (sample_mbox true [sample_msg1; sample_msg2]) sample_fs).2
  = (Error ErrNotExist,
     (removeMessage "20180304T050607-0000"
        (sample_mbox true [sample_msg1; sample_msg2]) sample_fs).1.2,
     (removeMessage "20180304T050607-0000"
        (sample_mbox true [sample_msg1; sample_msg2]) sample_fs).2).
Proof.
  refine (proj1 (get_after_remove "20180304T050607-0000"
                   (sample_mbox true [sample_msg1; sample_msg2]) _
                   sample_fs _ _ sample_msg1 eq_refl _ _ _ eq_refl
                   (triple_eta _))).
  - simpl. apply NoDup_cons. split; [|apply NoDup_singleton].
    rewrite list_elem_of_singleton. discriminate.
  - discriminate.
  - simpl. left.
Defined.

Lemma getMessages_loads_once_witness :
  ∃ mb' : mbox,
    getMessages (sample_mbox false []) sample_fs
    = (Ok [sample_msg1; sample_msg2], mb', sample_fs)
    ∧ indexLoaded mb' = true ∧ name mb' = "b".
Proof.
  destruct (getMessages_loads_once (sample_mbox false []) sample_fs "b"
              [sample_msg1; sample_msg2] eq_refl)
    as (mb' & Hget & Hl & Hn & _).
  - vm_compute. reflexivity.
  - exists mb'. split; [exact Hget |]. split; [exact Hl | exact Hn].
Defined.

Lemma index_file_without_records_witness :
  getMessages (sample_mbox false []) sample_empty_index_fs
  = (Error (ErrCorrupt (sample_dir ++ [indexFileName]) io_EOF),
     sample_mbox false [], sample_empty_index_fs).
Proof.
  refine (proj1 (proj1 (index_file_without_records (sample_mbox false [])
                          sample_empty_index_fs eq_refl) _)).
  vm_compute. reflexivity.
Defined.

Lemma channel_holds_at_most_ten_witness :
  ∃ s issued,
    run schedule_two_ids counter_init [] = Some (s, issued)
    ∧ length (countChannel s) ≤ 10
    ∧ sends schedule_two_ids = length issued + length (countChannel s).
Proof.
  eexists _, _. split; [vm_compute; reflexivity |].
  pose proof (channel_holds_at_most_ten schedule_two_ids _ _
                ltac:(vm_compute; reflexivity)) as (H1 & H2 & _).
  split; [exact H1 | exact H2].
Defined.

Lemma identifiers_collide_only_across_the_wrap_witness :
  "20180304T050607-0000" = "20180304T050608-0001" ↔
  generatePrefix (mkTime 2018 3 4 5 6 7) = generatePrefix (mkTime 2018 3 4 5 6 8)
  ∧ (Z.of_nat 0 mod 10000 = Z.of_nat 1 mod 10000)%Z.
Proof.
  apply (identifiers_collide_only_across_the_wrap schedule_two_ids
           (mkCounter 3 [2%Z])
           [(mkTime 2018 3 4 5 6 7, "20180304T050607-0000");
            (mkTime 2018 3 4 5 6 8, "20180304T050608-0001")]).
  - vm_compute. reflexivity.
  - reflexivity.
  - reflexivity.
Defined.

Lemma generatePrefix_injective_witness :
  mkTime 2018 3 4 5 6 7 = mkTime 2018 3 4 5 6 7.
Proof.
  apply generatePrefix_injective.
  - simpl. lia.
  - unfold clock_fields. simpl. lia.
  - simpl. lia.
  - unfold clock_fields. simpl. lia.
  - reflexivity.
Defined.

(** ** Walking the store *)

Lemma entry_in_Some (dir k : pathname) (n : node) (c : string) (b : bool) :
  entry_in dir (k, n) = Some (c, b) ↔ k = dir ++ [c] ∧ b = is_Dir n.
Proof.
  unfold entry_in, is_child_of. simpl. split.
  - case_bool_decide as Hc; [|done]. apply child_iff in Hc as [c' ->].
    rewrite last_snoc. simpl. by intros [= <- <-].
  - intros [-> ->].
    rewrite bool_decide_eq_true_2 by (apply child_iff; eauto).
    by rewrite last_snoc.
Qed.

Lemma elem_of_entries (fs : FS) (dir : pathname) (c : string) (b : bool) :
  (c, b) ∈ entries fs dir ↔ ∃ n, fs !! (dir ++ [c]) = Some n ∧ b = is_Dir n.
Proof.
  unfold entries. rewrite merge_sort_Permutation, list_elem_of_omap. split.
  - intros ([k n] & Hin & [-> ->]%entry_in_Some).
    apply elem_of_map_to_list in Hin. eauto.
  - intros (n & Hn & ->). exists (dir ++ [c], n).
    split; [by apply elem_of_map_to_list | by apply entry_in_Some].
Qed.

Lemma NoDup_omap_strong {A B} (g : A → option B) (l : list A) :
  (∀ x y z, x ∈ l → y ∈ l → g x = Some z → g y = Some z → x = y) →
  NoDup l → NoDup (omap g l).
Proof.
  intros Hinj. induction 1 as [|x l Hx Hnd IH]; simpl; [constructor |].
  assert (NoDup (omap g l)) as Hrest.
  { apply IH. intros a b z Ha Hb. apply Hinj; by right. }
  destruct (g x) as [z|] eqn:Hz; [|done]. constructor; [|done].
  intros (y & Hy & Hgy)%list_elem_of_omap. apply Hx.
  by rewrite (Hinj x y z) by (done || by left || by right).
Qed.

Lemma NoDup_entries (fs : FS) (dir : pathname) : NoDup (entries fs dir).
Proof.
  unfold entries. rewrite merge_sort_Permutation.
  apply NoDup_omap_strong; [|apply NoDup_map_to_list].
  intros [k n] [k' n'] [c b] Hin Hin' [-> ->]%entry_in_Some
    [-> Hb]%entry_in_Some.
  apply elem_of_map_to_list in Hin, Hin'. congruence.
Qed.

Lemma elem_of_subdirs (fs : FS) (dir : pathname) (c : string) :
  c ∈ subdirs fs dir ↔ fs !! (dir ++ [c]) = Some Dir.
Proof.
  unfold subdirs. rewrite list_elem_of_fmap. split.
  - intros ([c' b] & -> & [Hb Hin]%list_elem_of_filter). simpl in *. subst b.
    apply elem_of_entries in Hin as (n & Hn & Hd). by destruct n.
  - intros Hd. exists (c, true). split; [done |].
    apply list_elem_of_filter. split; [done |].
    apply elem_of_entries. by exists Dir.
Qed.

Lemma NoDup_subdirs (fs : FS) (dir : pathname) : NoDup (subdirs fs dir).
Proof.
  unfold subdirs. apply NoDup_fmap_2_strong;
    [| apply NoDup_filter, NoDup_entries].
  intros [c b] [c' b'] [Hb _]%list_elem_of_filter [Hb' _]%list_elem_of_filter.
  simpl in *. congruence.
Qed.

Lemma elem_of_mailbox_dirs (fs : FS) (root : pathname) (l1 l2 d : string) :
  (l1, l2, d) ∈ mailbox_dirs fs root ↔
  fs !! (root ++ [l1]) = Some Dir
  ∧ fs !! (root ++ [l1; l2]) = Some Dir
  ∧ fs !! (root ++ [l1; l2; d]) = Some Dir.
Proof.
  unfold mailbox_dirs.
  assert (∀ a b, (root ++ [a]) ++ [b] = root ++ [a; b]) as E2
    by (intros; by rewrite <- app_assoc).
  assert (∀ a b c, (root ++ [a; b]) ++ [c] = root ++ [a; b; c]) as E3
    by (intros; by rewrite <- app_assoc).
  rewrite list_elem_of_bind. split.
  - intros (a & (b & (c & Hc & Hb)%list_elem_of_fmap
                    & Ha)%list_elem_of_bind & Hl1).
    injection Hc as -> -> ->.
    apply elem_of_subdirs in Hl1, Ha, Hb. by rewrite E2 in Ha; rewrite E3 in Hb.
  - intros (H1 & H2 & H3). exists l1.
    split; [|by apply elem_of_subdirs].
    apply list_elem_of_bind. exists l2.
    split; [|apply elem_of_subdirs; by rewrite E2].
    apply list_elem_of_fmap. exists d. split; [done |].
    apply elem_of_subdirs. by rewrite E3.
Qed.

Lemma NoDup_mailbox_dirs (fs : FS) (root : pathname) :
  NoDup (mailbox_dirs fs root).
Proof.
  unfold mailbox_dirs. apply NoDup_bind; [| |apply NoDup_subdirs].
  - intros a a' [[x y] z] _ _
      (b & (c & Hc & _)%list_elem_of_fmap & _)%list_elem_of_bind
      (b' & (c' & Hc' & _)%list_elem_of_fmap & _)%list_elem_of_bind.
    congruence.
  - intros a _. apply NoDup_bind; [| |apply NoDup_subdirs].
    + intros b b' [[x y] z] _ _ (c & Hc & _)%list_elem_of_fmap
        (c' & Hc' & _)%list_elem_of_fmap.
      congruence.
    + intros b _. apply NoDup_fmap_2_strong; [|apply NoDup_subdirs].
      intros c c' _ _. congruence.
Qed.

Lemma ioutil_ReadDir_directory (fs : FS) (dir : pathname) :
  fs_lookup fs dir = Some Dir → ioutil_ReadDir fs dir = inr (entries fs dir).
Proof. intros H. unfold ioutil_ReadDir. by rewrite H. Qed.

Lemma fs_lookup_child (fs : FS) (dir : pathname) (c : string) :
  fs_lookup fs (dir ++ [c]) = fs !! (dir ++ [c]).
Proof. by destruct dir. Qed.

Section VisitFacts.

Context {S : Type}.
Variable f : list Message → S → FS → bool * S * FS.
Variable st : Store.

Lemma visit_all_app (a b : list (string * string * string)) (s : S) (fs : FS) :
  visit_all f st (a ++ b) s fs
  = match visit_all f st a s fs with
    | (Continue, s', fs') => visit_all f st b s' fs'
    | ended => ended
    end.
Proof.
  revert s fs. induction a as [|[[l1 l2] d] a IH]; intros s fs; simpl; [done |].
  destruct (visit_mailbox f st l1 l2 d s fs) as [[[| |] s'] fs']; [apply IH | done..].
Qed.

Lemma visit_level3_all (l1 l2 : string) (infos3 : list (string * bool))
    (s : S) (fs : FS) :
  visit_level3 f st l1 l2 infos3 s fs
  = visit_all f st
      ((λ d, (l1, l2, d))
         <$> (filter (λ e : string * bool, e.2 = true) infos3).*1) s fs.
Proof.
  revert s fs. induction infos3 as [|[d b] infos IH]; intros s fs; [done |].
  destruct b.
  - rewrite filter_cons_True by done. simpl.
    destruct (visit_mailbox f st l1 l2 d s fs) as [[[| |] s'] fs'];
      [apply IH | done..].
  - rewrite filter_cons_False by done. simpl. apply IH.
Qed.

Hypothesis f_read_only : read_only f.

Lemma visit_mailbox_leaves_disk (l1 l2 d : string) (s : S) (fs : FS) :
  (visit_mailbox f st l1 l2 d s fs).2 = fs.
Proof.
  unfold visit_mailbox, getMessages. simpl.
  pose proof (readIndex_leaves_disk
                (mkMbox st "" d (filepath_Join (mailPath st) [l1; l2; d]) false
                   (filepath_Join (filepath_Join (mailPath st) [l1; l2; d])
                      [indexFileName]) []) fs) as Hr.
  destruct (readIndex _ fs) as [[e mb'] fs1]. simpl in Hr. subst fs1.
  destruct e; [done |].
  pose proof (f_read_only (messages mb') s fs) as Hf.
  destruct (f (messages mb') s fs) as [[[|] s'] fs2]; simpl in *; by subst.
Qed.

Lemma visit_all_leaves_disk (dirs : list (string * string * string))
    (s : S) (fs : FS) :
  (visit_all f st dirs s fs).2 = fs.
Proof.
  revert s. induction dirs as [|[[l1 l2] d] dirs IH]; intros s; simpl; [done |].
  pose proof (visit_mailbox_leaves_disk l1 l2 d s fs) as Hm.
  destruct (visit_mailbox f st l1 l2 d s fs) as [[[| |] s'] fs'];
    simpl in *; subst; [apply IH | done..].
Qed.

Lemma visit_level2_all (l1 : string) (infos2 : list (string * bool))
    (s : S) (fs : FS) :
  (∀ l2, (l2, true) ∈ infos2 → fs !! (mailPath st ++ [l1; l2]) = Some Dir) →
  visit_level2 f st l1 infos2 s fs
  = visit_all f st
      (l2 ← (filter (λ e : string * bool, e.2 = true) infos2).*1;
       (λ d, (l1, l2, d)) <$> subdirs fs (mailPath st ++ [l1; l2])) s fs.
Proof.
  revert s. induction infos2 as [|[l2 b] infos IH]; intros s Hdirs; [done |].
  assert (∀ l, (l, true) ∈ infos → fs !! (mailPath st ++ [l1; l]) = Some Dir)
    as Hrest by (intros l Hl; apply Hdirs; by right).
  destruct b.
  - rewrite filter_cons_True by done.
    rewrite fmap_cons, bind_cons, visit_all_app.
    cbn [visit_level2 visit_level1 fst]. unfold filepath_Join.
    rewrite ioutil_ReadDir_directory.
    2:{ replace (mailPath st ++ [l1; l2]) with ((mailPath st ++ [l1]) ++ [l2])
          by (by rewrite <- app_assoc).
        rewrite fs_lookup_child, <- app_assoc. apply Hdirs. left. }
    rewrite visit_level3_all. fold (subdirs fs (mailPath st ++ [l1; l2])).
    pose proof (visit_all_leaves_disk
                  ((λ d, (l1, l2, d)) <$> subdirs fs (mailPath st ++ [l1; l2]))
                  s fs) as Hfs.
    destruct (visit_all f st _ s fs) as [[[| |] s'] fs']; simpl in Hfs;
      subst; [by apply IH | done..].
  - rewrite filter_cons_False by done. cbn [visit_level2 visit_level1].
    by apply IH.
Qed.

Lemma visit_level1_all (infos1 : list (string * bool)) (s : S) (fs : FS) :
  (∀ l1, (l1, true) ∈ infos1 → fs !! (mailPath st ++ [l1]) = Some Dir) →
  visit_level1 f st infos1 s fs
  = visit_all f st
      (l1 ← (filter (λ e : string * bool, e.2 = true) infos1).*1;
       l2 ← subdirs fs (mailPath st ++ [l1]);
       (λ d, (l1, l2, d)) <$> subdirs fs (mailPath st ++ [l1; l2])) s fs.
Proof.
  revert s. induction infos1 as [|[l1 b] infos IH]; intros s Hdirs; [done |].
  assert (∀ l, (l, true) ∈ infos → fs !! (mailPath st ++ [l]) = Some Dir)
    as Hrest by (intros l Hl; apply Hdirs; by right).
  destruct b.
  - rewrite filter_cons_True by done.
    rewrite fmap_cons, bind_cons, visit_all_app.
    cbn [visit_level2 visit_level1 fst]. unfold filepath_Join.
    rewrite ioutil_ReadDir_directory
      by (rewrite fs_lookup_child; apply Hdirs; left).
    rewrite visit_level2_all.
    2:{ intros l2 Hl2. apply elem_of_entries in Hl2 as (n & Hn & Hd).
        rewrite <- app_assoc in Hn. by destruct n. }
    fold (subdirs fs (mailPath st ++ [l1])).
    pose proof (visit_all_leaves_disk
                  (l2 ← subdirs fs (mailPath st ++ [l1]);
                   (λ d, (l1, l2, d)) <$> subdirs fs (mailPath st ++ [l1; l2]))
                  s fs) as Hfs.
    destruct (visit_all f st _ s fs) as [[[| |] s'] fs']; simpl in Hfs;
      subst; [by apply IH | done..].
  - rewrite filter_cons_False by done. cbn [visit_level2 visit_level1].
    by apply IH.
Qed.

End VisitFacts.

Lemma readIndex_error (mb : mbox) (fs : FS) (e : error) (mb' : mbox)
    (fs' : FS) :
  readIndex mb fs = (Some e, mb', fs') →
  ∃ cause, e = ErrCorrupt (indexPath mb) cause.
Proof.
  unfold readIndex, os_Stat, os_Open. simpl.
  destruct (fs_lookup fs (indexPath mb)) as [[|stream]|]; [| | done].
  - intros [= <- _ _]. eauto.
  - destruct (Decode_string stream) as [nm rest|cause].
    + simpl. destruct (readIndex_loop (path mb) rest []) as [msgs [cause|]];
        [|done]. intros [= <- _ _]. eauto.
    + intros [= <- _ _]. eauto.
Qed.

Lemma visit_all_error {S : Type} (f : list Message → S → FS → bool * S * FS)
    (st : Store) (dirs : list (string * string * string)) :
  ∀ (s s' : S) (fs fs' : FS) (c : control),
    visit_all f st dirs s fs = (c, s', fs') →
    match c with
    | Continue | Return None => True
    | Return (Some e) =>
        ∃ l1 l2 d cause,
          (l1, l2, d) ∈ dirs
          ∧ e = ErrCorrupt (mailPath st ++ [l1; l2; d; indexFileName]) cause
    | Panicked _ => False
    end.
Proof.
  induction dirs as [|[[l1 l2] d] dirs IH]; intros s s' fs fs' c; simpl.
  - by intros [= <- _ _].
  - unfold visit_mailbox at 1.
    destruct (getMessages _ fs) as [[r mb1] fs1] eqn:Hget.
    unfold getMessages in Hget. simpl in Hget.
    destruct (readIndex _ fs) as [[e mb2] fs2] eqn:Hread.
    destruct e as [e|]; injection Hget as <- <- <-.
    + intros [= <- _ _]. apply readIndex_error in Hread as [cause ->].
      exists l1, l2, d, cause. split; [left |].
      simpl. unfold filepath_Join. by rewrite <- app_assoc.
    + destruct (f (messages mb2) s fs2) as [[[|] s1] fs3].
      * intros Hrest. apply IH in Hrest.
        destruct c as [|[e|]|]; try done.
        destruct Hrest as (a & b & x & cause & Hin & ->).
        exists a, b, x, cause. split; [by right | done].
      * by intros [= <- _ _].
Qed.

Lemma visit_level1_no_directories {S : Type}
    (f : list Message → S → FS → bool * S * FS) (st : Store)
    (infos1 : list (string * bool)) (s : S) (fs : FS) :
  (∀ l1, (l1, true) ∉ infos1) →
  visit_level1 f st infos1 s fs = (Continue, s, fs).
Proof.
  induction infos1 as [|[l1 b] infos IH]; intros Hno; [done |].
  destruct b; [destruct (Hno l1); left |]. simpl. apply IH.
  intros l Hl. apply (Hno l). by right.
Qed.

(** X13 ([Store.VisitMailboxes], with [mbox.getMessages]): when the mail
    root is a directory and the visitor leaves the disk alone, the walk
    is the run of the visitor over the mailbox directories: the list
    [dirs] of the directories three levels below the root (each level a
    directory) has every one of them exactly once, the index of each is
    loaded and the visitor called with its messages in that order until a
    load fails or the visitor returns false, the result is the one of
    that run, and the disk is as before. *)
Theorem VisitMailboxes_visits_every_mailbox_once :
  ∀ {S : Type} (f : list Message → S → FS → bool * S * FS) (st : Store)
    (s : S) (fs : FS),
    read_only f →
    fs_lookup fs (mailPath st) = Some Dir →
    ∃ dirs : list (string * string * string),
      NoDup dirs
      ∧ (∀ l1 l2 d,
           (l1, l2, d) ∈ dirs ↔
           fs !! (mailPath st ++ [l1]) = Some Dir
           ∧ fs !! (mailPath st ++ [l1; l2]) = Some Dir
           ∧ fs !! (mailPath st ++ [l1; l2; d]) = Some Dir)
      ∧ VisitMailboxes f st s fs
        = (returned (visit_all f st dirs s fs).1.1,
           (visit_all f st dirs s fs).1.2, fs).
Proof.
  intros S f st s fs Hro Hroot. exists (mailbox_dirs fs (mailPath st)).
  split; [apply NoDup_mailbox_dirs |].
  split; [intros; apply elem_of_mailbox_dirs |].
  unfold VisitMailboxes. rewrite ioutil_ReadDir_directory by done.
  rewrite (visit_level1_all f st Hro).
  2:{ intros l1 Hl1. apply elem_of_entries in Hl1 as (n & Hn & Hd).
      by destruct n. }
  fold (subdirs fs (mailPath st)). fold (mailbox_dirs fs (mailPath st)).
  pose proof (visit_all_leaves_disk f st Hro (mailbox_dirs fs (mailPath st))
                s fs) as Hfs.
  destruct (visit_all f st _ s fs) as [[c s'] fs']. simpl in *. by subst.
Qed.

(** X14 ([Store.VisitMailboxes]): when the mail root is missing or is a
    regular file the walk returns an error without calling the visitor
    (its state and the disk are as before); when the root is a directory
    without a directory in it, the walk returns no error and the visitor
    is not called either. *)
Theorem VisitMailboxes_without_mailboxes :
  ∀ {S : Type} (f : list Message → S → FS → bool * S * FS) (st : Store)
    (s : S) (fs : FS),
    (fs_lookup fs (mailPath st) ≠ Some Dir →
     ∃ e, VisitMailboxes f st s fs = (Error e, s, fs))
    ∧ (fs_lookup fs (mailPath st) = Some Dir →
       (∀ l1, fs !! (mailPath st ++ [l1]) ≠ Some Dir) →
       VisitMailboxes f st s fs = (Ok tt, s, fs)).
Proof.
  intros S f st s fs. unfold VisitMailboxes, ioutil_ReadDir. split.
  - intros Hroot. destruct (fs_lookup fs (mailPath st)) as [[|content]|];
      [done | eauto..].
  - intros -> Hno. rewrite visit_level1_no_directories; [done |].
    intros l1 (n & Hn & Hd)%elem_of_entries. destruct n; [|done].
    by destruct (Hno l1).
Qed.

(** X15 ([Store.VisitMailboxes], with [mbox.readIndex]): with a mail
    root that is a directory and a visitor that leaves the disk alone,
    the walk does not panic, and an error it returns is the corruption
    error of the index file of a mailbox directory that is on the disk:
    regular files among the directories, and mailbox directories without
    an index, do not stop it. *)
Theorem VisitMailboxes_fails_only_on_a_corrupt_index :
  ∀ {S : Type} (f : list Message → S → FS → bool * S * FS) (st : Store)
    (s s' : S) (fs fs' : FS) (r : result unit),
    read_only f →
    fs_lookup fs (mailPath st) = Some Dir →
    VisitMailboxes f st s fs = (r, s', fs') →
    match r with
    | Ok _ => True
    | Error e =>
        ∃ l1 l2 d cause,
          fs !! (mailPath st ++ [l1; l2; d]) = Some Dir
          ∧ e = ErrCorrupt (mailPath st ++ [l1; l2; d; indexFileName]) cause
    | Panic _ => False
    end.
Proof.
  intros S f st s s' fs fs' r Hro Hroot.
  unfold VisitMailboxes. rewrite ioutil_ReadDir_directory by done.
  rewrite (visit_level1_all f st Hro).
  2:{ intros l1 Hl1. apply elem_of_entries in Hl1 as (n & Hn & Hd).
      by destruct n. }
  fold (subdirs fs (mailPath st)). fold (mailbox_dirs fs (mailPath st)).
  destruct (visit_all f st _ s fs) as [[c s1] fs1] eqn:Hv.
  intros [= <- _ _]. apply visit_all_error in Hv.
  destruct c as [|[e|]|]; simpl; try done.
  destruct Hv as (l1 & l2 & d & cause & Hin & ->).
  exists l1, l2, d, cause. split; [|done].
  by apply elem_of_mailbox_dirs in Hin as (_ & _ & ?).
Qed.

Lemma owned_by_of_stream (p : pathname) (a b : list Message) :
  gob_of_Message <$> a = gob_of_Message <$> b →
  owned_by p <$> a = owned_by p <$> b.
Proof.
  revert b. induction a as [|x a IH]; intros [|y b]; simpl; try done.
  intros [= ? ? ? ? ? ? Hrest]. f_equal; [|by apply IH].
  unfold owned_by. congruence.
Qed.

Lemma getMessages_loadable (mb : mbox) (fs : FS) :
  indexLoaded mb = false → indexPath mb ≠ [] →
  loadable fs (indexPath mb) →
  ∃ msgs mb',
    getMessages mb fs = (Ok msgs, mb', fs)
    ∧ ∀ nm stored, fs !! indexPath mb = Some (File (index_stream nm stored)) →
                   msgs = owned_by (path mb) <$> stored.
Proof.
  intros Hl Hne [Hmiss | (nm & stored & Hf)]; unfold getMessages; rewrite Hl.
  - rewrite readIndex_missing
      by (unfold os_Stat, fs_lookup; by destruct (indexPath mb)).
    eexists _, _. split; [done |]. intros nm stored Hf. congruence.
  - rewrite (readIndex_of_index_stream mb fs nm stored Hne Hf).
    eexists _, _. split; [done |]. intros nm' stored' Hf'.
    rewrite Hf in Hf'. injection Hf' as _ Hs. simpl.
    by apply owned_by_of_stream.
Qed.

Lemma visit_all_collect (st : Store) (fs : FS)
    (dirs : list (string * string * string)) :
  (∀ t, t ∈ dirs → loadable fs (indexPath (visited_handle st t))) →
  ∀ log,
    ∃ seen : list (list Message),
      visit_all collect st dirs log fs = (Continue, log ++ seen, fs)
      ∧ length seen = length dirs
      ∧ ∀ t nm stored,
          t ∈ dirs →
          fs !! indexPath (visited_handle st t)
          = Some (File (index_stream nm stored)) →
          (owned_by (path (visited_handle st t)) <$> stored) ∈ seen.
Proof.
  induction dirs as [|[[l1 l2] d] dirs IH]; intros Hload log.
  - exists []. rewrite app_nil_r. split; [done |]. split; [done |].
    intros t nm stored Ht. by apply elem_of_nil in Ht.
  - simpl. unfold visit_mailbox.
    destruct (getMessages_loadable (visited_handle st (l1, l2, d)) fs)
      as (msgs & mb' & Hget & Hstored).
    { done. }
    { simpl. unfold filepath_Join. by destruct (mailPath st). }
    { apply Hload. left. }
    simpl in Hget. rewrite Hget. simpl.
    destruct (IH (λ t Ht, Hload t (list_elem_of_further _ _ _ Ht))
                (log ++ [msgs])) as (seen & Hv & Hlen & Hin).
    exists (msgs :: seen). rewrite Hv, <- app_assoc. split; [done |].
    split; [simpl; by rewrite Hlen |].
    intros t nm stored [-> | Ht]%elem_of_cons Hf.
    + rewrite <- (Hstored nm stored Hf). left.
    + right. by apply (Hin t nm).
Qed.

(** X16 ([Store.VisitMailboxes], with [mbox.getMessages]): when the mail
    root is a directory and the index of every mailbox directory is
    missing or well formed, the walk with the recording visitor returns
    no error, leaves the disk as it was, and has been given the stored
    entries of every mailbox that has a well-formed index, each entry
    with the path of its mailbox directory. *)
Theorem VisitMailboxes_collects_every_mailbox :
  ∀ (st : Store) (fs : FS),
    fs_lookup fs (mailPath st) = Some Dir →
    (∀ l1 l2 d,
       fs !! (mailPath st ++ [l1; l2; d]) = Some Dir →
       loadable fs (mailPath st ++ [l1; l2; d; indexFileName])) →
    ∃ seen : list (list Message),
      VisitMailboxes collect st [] fs = (Ok tt, seen, fs)
      ∧ ∀ l1 l2 d nm stored,
          fs !! (mailPath st ++ [l1]) = Some Dir →
          fs !! (mailPath st ++ [l1; l2]) = Some Dir →
          fs !! (mailPath st ++ [l1; l2; d]) = Some Dir →
          fs !! (mailPath st ++ [l1; l2; d; indexFileName])
          = Some (File (index_stream nm stored)) →
          (owned_by (mailPath st ++ [l1; l2; d]) <$> stored) ∈ seen.
Proof.
  intros st fs Hroot Hload.
  assert (read_only collect) as Hro by done.
  assert (∀ t, indexPath (visited_handle st t)
               = mailPath st ++ [t.1.1; t.1.2; t.2; indexFileName]) as Hidx.
  { intros [[l1 l2] d]. simpl. unfold filepath_Join. by rewrite <- app_assoc. }
  unfold VisitMailboxes. rewrite ioutil_ReadDir_directory by done.
  rewrite (visit_level1_all collect st Hro).
  2:{ intros l1 Hl1. apply elem_of_entries in Hl1 as (n & Hn & Hd).
      by destruct n. }
  fold (subdirs fs (mailPath st)). fold (mailbox_dirs fs (mailPath st)).
  destruct (visit_all_collect st fs (mailbox_dirs fs (mailPath st)))
    with (log := @nil (list Message)) as (seen & Hv & _ & Hin).
  { intros [[l1 l2] d] (_ & _ & Hd)%elem_of_mailbox_dirs.
    rewrite Hidx. simpl. by apply Hload. }
  rewrite Hv. simpl. exists seen. split; [done |].
  intros l1 l2 d nm stored H1 H2 H3 Hf.
  apply (Hin (l1, l2, d) nm stored).
  - by apply elem_of_mailbox_dirs.
  - by rewrite Hidx.
Qed.

(** ** Adding a message *)

Lemma os_Remove_file (p : pathname) (fs : FS) (content : list gobval) :
  p ≠ [] → fs !! p = Some (File content) →
  os_Remove p fs = (None, delete p fs).
Proof.
  intros Hp Hf. unfold os_Remove. destruct p as [|c p]; [done |].
  by rewrite Hf.
Qed.

Lemma writeIndex_error_keeps_files (mb : mbox) (fs fs' : FS) (e : error)
    (p : pathname) (content : list gobval) :
  messages mb ≠ [] →
  writeIndex mb fs = (Some e, fs') →
  fs !! p = Some (File content) → fs' !! p = Some (File content).
Proof.
  intros Hne Hw Hp. rewrite writeIndex_nonempty in Hw by done.
  assert ((createDir mb fs).2 !! p = Some (File content)) as Hc.
  { unfold createDir, os_Stat, os_MkdirAll.
    destruct (fs_lookup fs (path mb)); [done |].
    destruct (mkdir_from_frame (path mb) [] fs p) as [-> | (Hn & _)];
      [done | congruence]. }
  destruct (createDir mb fs) as [[e1|] fs1]; simpl in Hc.
  - by injection Hw as _ <-.
  - destruct (os_Create (indexPath mb) fs1) as [[e2|] fs2] eqn:Hcr; [|done].
    injection Hw as _ <-. unfold os_Create in Hcr.
    repeat case_match; by simplify_eq.
Qed.

Section AddFacts.

Variable ParseMailboxName : string → result string.
Variable HashMailboxName : string → string.
Variable newMessage : mbox → FS → result Message * mbox * FS.

Local Abbreviation Store_mbox :=
  (Store_mbox ParseMailboxName HashMailboxName).
Local Abbreviation GetMessage :=
  (GetMessage ParseMailboxName HashMailboxName).
Local Abbreviation AddMessage :=
  (AddMessage ParseMailboxName HashMailboxName newMessage).

Lemma AddMessage_success (st : Store) (m : StoreMessage) (fs fs' : FS)
    (mb0 mb : mbox) (fm : Message) (fs0 : FS) (id : string) :
  Store_mbox st (sm_Mailbox m) = Ok mb0 →
  newMessage mb0 fs = (Ok fm, mb, fs0) →
  AddMessage st m fs = (Ok id, fs') →
  ∃ r : RawReader,
    sm_RawReader m = inr r ∧ raw_error r = None ∧ id = Fid fm
    ∧ ∃ fs3 : FS,
        fs3 !! rawPath fm = Some (File (raw_content (raw_data r)))
        ∧ writeIndex
            (set_messages
               (messages mb
                ++ [with_metadata fm m (Z.of_nat (length (raw_data r)))]) mb)
            fs3
          = (None, fs').
Proof.
  intros Hmb Hnew. unfold AddMessage.
  destruct (sm_RawReader m) as [err|r]; [done |]. rewrite Hmb, Hnew.
  destruct (createDir mb fs0) as [[e|] fs1]; [done |].
  destruct (os_Create (rawPath fm) fs1) as [[e|] fs2]; [done |].
  destruct (raw_error r) as [e|] eqn:Hre; [done |].
  destruct (writeIndex _ _) as [[e|] fs4] eqn:Hw; [done |].
  intros [= <- <-]. exists r. split; [done |]. split; [done |].
  split; [done |]. eexists. split; [|exact Hw].
  unfold flush_and_close. apply lookup_insert_eq.
Qed.

(** X17 ([Store.AddMessage], with [mbox.writeIndex] and
    [mbox.getMessages]): when Add returns an identifier, the reader gave
    its content without an error, the identifier is the one of the entry
    [newMessage] made, the index file on the disk holds the messages the
    handle had followed by the new entry (with the date, sender,
    recipients, subject and size of the incoming message), the raw file
    holds the content, and a fresh handle of the mailbox lists exactly
    these messages. *)
Theorem AddMessage_appends_to_the_index :
  ∀ (st : Store) (m : StoreMessage) (fs fs' : FS) (mb0 mb : mbox)
    (fm : Message) (fs0 : FS) (id : string),
    Store_mbox st (sm_Mailbox m) = Ok mb0 →
    newMessage mb0 fs = (Ok fm, mb, fs0) →
    AddMessage st m fs = (Ok id, fs') →
    ∃ r : RawReader,
      sm_RawReader m = inr r ∧ raw_error r = None ∧ id = Fid fm
      ∧ let fm' := with_metadata fm m (Z.of_nat (length (raw_data r))) in
        fs' !! indexPath mb
        = Some (File (index_stream (name mb) (messages mb ++ [fm'])))
        ∧ (rawPath fm ≠ indexPath mb →
           fs' !! rawPath fm = Some (File (raw_content (raw_data r))))
        ∧ ∀ fresh : mbox,
            indexLoaded fresh = false → indexPath fresh = indexPath mb →
            ∃ loaded : mbox,
              getMessages fresh fs'
              = (Ok (owned_by (path fresh) <$> (messages mb ++ [fm'])),
                 loaded, fs').
Proof.
  intros st m fs fs' mb0 mb fm fs0 id Hmb Hnew Hadd.
  destruct (AddMessage_success st m fs fs' mb0 mb fm fs0 id Hmb Hnew Hadd)
    as (r & Hr & Hre & -> & fs3 & Hraw & Hw).
  exists r. split; [done |]. split; [done |]. split; [done |]. simpl.
  set (fm' := with_metadata fm m (Z.of_nat (length (raw_data r)))) in *.
  set (mb' := set_messages (messages mb ++ [fm']) mb) in *.
  assert (messages mb' ≠ []) as Hne by (simpl; by destruct (messages mb)).
  destruct (writeIndex_nonempty_frame mb' fs3 fs' Hne Hw) as [Hidx Hframe].
  destruct (writeIndex_stores mb' fs3 fs' Hne Hw) as [Hip _].
  split; [exact Hidx |]. split.
  - intros Hdiff. destruct (Hframe (rawPath fm) Hdiff) as [-> | (Hn & _)];
      [done | congruence].
  - intros fresh Hl Hfresh. unfold getMessages. rewrite Hl.
    rewrite (readIndex_of_index_stream fresh fs' (name mb)
               (messages mb ++ [fm'])); [by eexists | |];
      by rewrite Hfresh.
Qed.

(** X18 ([Store.AddMessage]): a failure before the raw file is created
    leaves the disk as it was: an error of [RawReader] is returned as it
    is, and so is a mailbox name that does not resolve.  Once the raw
    file has been created, an error of Add comes from the copy or from
    writing the index, and in both cases no raw file of the message is
    left on the disk. *)
Theorem AddMessage_failure_leaves_no_raw_file :
  ∀ (st : Store) (m : StoreMessage) (fs : FS),
    (∀ err, sm_RawReader m = inl err →
            AddMessage st m fs = (Error err, fs))
    ∧ (∀ err, Store_mbox st (sm_Mailbox m) = Error err →
              ∃ e, AddMessage st m fs = (Error e, fs))
    ∧ (∀ (r : RawReader) (mb0 mb : mbox) (fm : Message) (fs0 fs1 fs2 fs' : FS)
         (e : error),
         sm_RawReader m = inr r →
         Store_mbox st (sm_Mailbox m) = Ok mb0 →
         newMessage mb0 fs = (Ok fm, mb, fs0) →
         createDir mb fs0 = (None, fs1) →
         os_Create (rawPath fm) fs1 = (None, fs2) →
         AddMessage st m fs = (Error e, fs') →
         fs' !! rawPath fm = None
         ∧ (raw_error r = Some e
            ∨ raw_error r = None
              ∧ (writeIndex
                   (set_messages
                      (messages mb
                       ++ [with_metadata fm m
                             (Z.of_nat (length (raw_data r)))]) mb)
                   (flush_and_close (rawPath fm) (raw_content (raw_data r))
                      fs2)).1 = Some e)).
Proof.
  intros st m fs. unfold AddMessage. split; [|split].
  - by intros err ->.
  - intros err Hmb. destruct (sm_RawReader m) as [e|r]; [by eexists |].
    rewrite Hmb. by eexists.
  - intros r mb0 mb fm fs0 fs1 fs2 fs' e -> -> -> -> Hcr. rewrite Hcr.
    apply os_Create_ok in Hcr as [Hp ->].
    destruct (raw_error r) as [e'|].
    + intros [= <- <-]. split; [|by left].
      rewrite (os_Remove_file _ _ []) by (done || apply lookup_insert_eq).
      apply lookup_delete_eq.
    + set (fm' := with_metadata fm m (Z.of_nat (length (raw_data r)))).
      set (mb' := set_messages (messages mb ++ [fm']) mb).
      set (fs3 := flush_and_close _ _ _).
      destruct (writeIndex mb' fs3) as [[e'|] fs4] eqn:Hw; [|done].
      intros [= <- <-]. split; [|right; by split].
      assert (messages mb' ≠ []) as Hne by (simpl; by destruct (messages mb)).
      assert (fs3 !! rawPath fm = Some (File (raw_content (raw_data r))))
        as Hraw by apply lookup_insert_eq.
      pose proof (writeIndex_error_keeps_files mb' fs3 fs4 e' _ _ Hne Hw Hraw)
        as Hkept.
      change (rawPath fm') with (rawPath fm).
      rewrite (os_Remove_file _ _ _ Hp Hkept). apply lookup_delete_eq.
Qed.

(** X19 ([Store.AddMessage] then [Store.GetMessage]): after a successful
    Add, where the handle that [newMessage] gives back still names the
    index file of the mailbox, Get of "latest" on the resulting disk
    returns the entry just added, with the identifier Add returned and
    the date, sender, recipients and subject of the incoming message; Get
    of that identifier returns it as well when the identifier is not
    "latest" and no older entry of the mailbox has it. *)
Theorem latest_after_AddMessage :
  ∀ (st : Store) (m : StoreMessage) (fs fs' : FS) (mb0 mb : mbox)
    (fm : Message) (fs0 : FS) (id : string),
    Store_mbox st (sm_Mailbox m) = Ok mb0 →
    newMessage mb0 fs = (Ok fm, mb, fs0) →
    indexPath mb = indexPath mb0 →
    AddMessage st m fs = (Ok id, fs') →
    ∃ size : Z,
      let stored := owned_by (path mb0) (with_metadata fm m size) in
      Fid stored = id ∧ Fdate stored = sm_Date m ∧ Ffrom stored = sm_From m
      ∧ Fto stored = sm_To m ∧ Fsubject stored = sm_Subject m
      ∧ GetMessage st (sm_Mailbox m) "latest" fs' = (Ok stored, fs')
      ∧ (id ≠ "latest" → (∀ x, x ∈ messages mb → Fid x ≠ id) →
         GetMessage st (sm_Mailbox m) id fs' = (Ok stored, fs')).
Proof.
  intros st m fs fs' mb0 mb fm fs0 id Hmb Hnew Hsame Hadd.
  destruct (AddMessage_success st m fs fs' mb0 mb fm fs0 id Hmb Hnew Hadd)
    as (r & Hr & Hre & -> & fs3 & Hraw & Hw).
  exists (Z.of_nat (length (raw_data r))). simpl.
  set (fm' := with_metadata fm m (Z.of_nat (length (raw_data r)))) in *.
  set (mb' := set_messages (messages mb ++ [fm']) mb) in *.
  assert (messages mb' ≠ []) as Hne by (simpl; by destruct (messages mb)).
  destruct (writeIndex_stores mb' fs3 fs' Hne Hw) as [Hip Hidx].
  assert (indexLoaded mb0 = false) as Hl0.
  { unfold Store_mbox in Hmb.
    destruct (ParseMailboxName (sm_Mailbox m)); try done.
    destruct (string_slice _ 0 3); try done.
    destruct (string_slice _ 0 6); try done.
    by injection Hmb as <-. }
  assert (readIndex mb0 fs'
          = (None,
             set_indexLoaded true
               (set_messages (owned_by (path mb0) <$> (messages mb ++ [fm']))
                  (set_name (name mb) (set_messages [] mb0))), fs')) as Hread.
  { apply readIndex_of_index_stream; by rewrite <- Hsame. }
  repeat split.
  - unfold GetMessage. rewrite Hmb.
    unfold getMessage. rewrite Hl0, Hread.
    unfold set_indexLoaded, set_messages, set_name. simpl.
    rewrite fmap_app. simpl. by rewrite last_snoc.
  - intros Hid Hfresh. unfold GetMessage. rewrite Hmb.
    unfold getMessage. rewrite Hl0, Hread.
    unfold set_indexLoaded, set_messages, set_name. simpl.
    destruct (decide (Fid fm = "latest")); [done |].
    rewrite fmap_app. simpl.
    rewrite (find_id_first (Fid fm) (owned_by (path mb0) <$> messages mb) []
               (owned_by (path mb0) fm')); [done | done |].
    intros x (y & -> & Hy)%list_elem_of_fmap. simpl. by apply Hfresh.
Qed.

End AddFacts.

(** ** Opening a store *)

(** X20 ([New]): without a path in the configuration no store is made
    and the disk is left alone.  With a path, a store is returned whose
    mail directory is the path followed by "mail", whether or not the
    directory could be made; the disk changes only by directories that
    are added, not at all when something is at the mail directory
    already, and the mail directory is a directory afterwards whenever
    no regular file is in its way. *)
Theorem New_makes_the_mail_root :
  ∀ (cfg : DataStoreConfig) (fs : FS),
    (Path cfg = [] → New cfg fs = (None, fs))
    ∧ (Path cfg ≠ [] →
       ∃ fs' : FS,
         New cfg fs
         = (Some (mkStore (Path cfg) (Path cfg ++ ["mail"])
                    (MailboxMsgCap cfg)), fs')
         ∧ (∀ p, fs' !! p = fs !! p ∨ fs' !! p = Some Dir)
         ∧ (fs_lookup fs (Path cfg ++ ["mail"]) ≠ None → fs' = fs)
         ∧ (creatable fs (Path cfg ++ ["mail"]) →
            fs' !! (Path cfg ++ ["mail"]) = Some Dir)).
Proof.
  intros cfg fs. unfold New. split; [by intros -> |].
  intros Hne. destruct (Path cfg) as [|c p] eqn:Hp; [done |]. rewrite <- Hp.
  unfold filepath_Join.
  set (mail := Path cfg ++ ["mail"]).
  set (mb := mkMbox (mkStore [] [] 0) "" "" mail false [] []).
  assert (match os_Stat fs mail with
          | Some _ => fs
          | None => (os_MkdirAll mail fs).2
          end = (createDir mb fs).2) as ->.
  { unfold createDir. simpl. by destruct (os_Stat fs mail). }
  eexists. split; [reflexivity |]. split; [|split].
  - intros k. unfold createDir, os_Stat, os_MkdirAll.
    destruct (fs_lookup fs _); [by left |].
    apply mkdir_from_makes_directories.
  - intros Hex. by rewrite (createDir_existing mb fs Hex).
  - intros [Hd | [Hmiss Hfree]].
    + rewrite (createDir_existing mb fs) by (simpl; by rewrite Hd).
      unfold mail in *. by rewrite fs_lookup_child in Hd.
    + destruct (createDir_missing mb fs Hmiss Hfree) as (fs' & -> & Hdirs & _).
      simpl. apply Hdirs; [by destruct (Path cfg) | done].
Qed.

(** ** Concrete instances of the walk and of Add *)

Lemma triple_parts {A B C} (r : A * B * C) (a : A) (b : B) (c : C) :
  r.1.1 = a → r.1.2 = b → r.2 = c → r = (a, b, c).
Proof. destruct r as [[? ?] ?]. simpl. by intros -> -> ->. Qed.

Lemma sample_newMessage_leaves_disk (mb : mbox) (fs : FS) :
  (sample_newMessage mb fs).2 = fs.
Proof.
  unfold sample_newMessage. destruct (indexLoaded mb); [done |].
  pose proof (readIndex_leaves_disk mb fs) as H.
  destruct (readIndex mb fs) as [[e mb'] fs']. simpl in *. subst fs'.
  by destruct e.
Qed.

Lemma result_and_disk {A B} (r : A * B) (a : A) : r.1 = a → r = (a, r.2).
Proof. destruct r. by intros <-. Qed.

Lemma VisitMailboxes_visits_every_mailbox_once_witness :
  ∃ dirs : list (string * string * string),
    NoDup dirs
    ∧ (∀ l1 l2 d,
         (l1, l2, d) ∈ dirs ↔
         sample_fs !! (["data"; "mail"] ++ [l1]) = Some Dir
         ∧ sample_fs !! (["data"; "mail"] ++ [l1; l2]) = Some Dir
         ∧ sample_fs !! (["data"; "mail"] ++ [l1; l2; d]) = Some Dir)
    ∧ VisitMailboxes collect sample_store [] sample_fs
      = (returned (visit_all collect sample_store dirs [] sample_fs).1.1,
         (visit_all collect sample_store dirs [] sample_fs).1.2, sample_fs).
Proof.
  apply (VisitMailboxes_visits_every_mailbox_once collect sample_store []
           sample_fs).
  - done.
  - vm_compute. reflexivity.
Defined.

Lemma VisitMailboxes_fails_only_on_a_corrupt_index_witness :
  match (VisitMailboxes collect sample_store [] sample_fs).1.1 with
  | Ok _ => True
  | Error e =>
      ∃ l1 l2 d cause,
        sample_fs !! (["data"; "mail"] ++ [l1; l2; d]) = Some Dir
        ∧ e = ErrCorrupt (["data"; "mail"] ++ [l1; l2; d; indexFileName]) cause
  | Panic _ => False
  end.
Proof.
  apply (VisitMailboxes_fails_only_on_a_corrupt_index collect sample_store
           [] _ sample_fs _ _ (λ _ _ _, eq_refl)
           ltac:(vm_compute; reflexivity) (triple_eta _)).
Defined.

Lemma sample_fs_mailbox_directories :
  ∀ l1 l2 d,
    sample_fs !! (["data"; "mail"] ++ [l1; l2; d]) = Some Dir →
    [l1; l2; d] = ["da3"; "da39a3"; sample_token].
Proof.
  intros l1 l2 d. unfold sample_fs, sample_dir, rawPath, filepath_Join.
  simpl. intros H.
  repeat match type of H with
         | <[ ?k := _ ]> _ !! ?p = _ =>
             destruct (decide (k = p)) as [E | E];
             [ rewrite E in H; rewrite lookup_insert_eq in H;
               first [ discriminate E | discriminate H
                     | by injection E as <- <- <- ]
             | rewrite lookup_insert_ne in H by exact E; clear E ]
         end.
  match type of H with
  | {[ ?k := _ ]} !! ?p = _ =>
      assert (k ≠ p) as E by discriminate
  end.
  by rewrite lookup_singleton_ne in H.
Qed.

Lemma VisitMailboxes_collects_every_mailbox_witness :
  ∃ seen : list (list Message),
    VisitMailboxes collect sample_store [] sample_fs = (Ok tt, seen, sample_fs)
    ∧ (owned_by sample_dir <$> [sample_msg1; sample_msg2]) ∈ seen.
Proof.
  destruct (VisitMailboxes_collects_every_mailbox sample_store sample_fs)
    as (seen & Hv & Hseen).
  - vm_compute. reflexivity.
  - intros l1 l2 d H. apply sample_fs_mailbox_directories in H.
    injection H as -> -> ->. right. exists "b", [sample_msg1; sample_msg2].
    vm_compute. reflexivity.
  - exists seen. split; [exact Hv |].
    apply (Hseen "da3" "da39a3" sample_token "b");
      vm_compute; reflexivity.
Defined.

Lemma AddMessage_appends_to_the_index_witness :
  (AddMessage sample_parse sample_hash sample_newMessage sample_store
     sample_incoming sample_empty_store_fs).2
  !! (sample_dir ++ [indexFileName])
  = Some (File (index_stream "b"
                  [mkMessage sample_dir "20180304T050609-0002"
                     (mkTime 2018 3 4 5 6 9) "a@x.com" ["b@y.com"] 2
                     "hello"])).
Proof.
  destruct (AddMessage_appends_to_the_index sample_parse sample_hash
              sample_newMessage sample_store sample_incoming
              sample_empty_store_fs
              (AddMessage sample_parse sample_hash sample_newMessage
                 sample_store sample_incoming sample_empty_store_fs).2
              (sample_mbox false []) (sample_mbox true [])
              (mkMessage sample_dir "20180304T050609-0002"
                 (mkTime 2018 3 4 5 6 9) "" [] 0 "")
              sample_empty_store_fs "20180304T050609-0002")
    as (r & Hr & _ & _ & H).
  - reflexivity.
  - apply triple_parts; [vm_compute; reflexivity .. |].
    apply sample_newMessage_leaves_disk.
  - apply result_and_disk; vm_compute; reflexivity.
  - injection Hr as <-. cbv zeta in H. destruct H as [Hidx _]. exact Hidx.
Defined.

Lemma AddMessage_failure_leaves_no_raw_file_witness :
  ∃ e : error,
    AddMessage sample_parse sample_hash sample_newMessage sample_store
      sample_incoming_broken sample_empty_store_fs
    = (Error e,
       (AddMessage sample_parse sample_hash sample_newMessage sample_store
          sample_incoming_broken sample_empty_store_fs).2)
    ∧ (AddMessage sample_parse sample_hash sample_newMessage sample_store
         sample_incoming_broken sample_empty_store_fs).2
      !! (sample_dir ++ ["20180304T050609-0002"]) = None.
Proof.
  exists (PathError "read" []).
  assert (AddMessage sample_parse sample_hash sample_newMessage sample_store
            sample_incoming_broken sample_empty_store_fs
          = (Error (PathError "read" []),
             (AddMessage sample_parse sample_hash sample_newMessage
                sample_store sample_incoming_broken
                sample_empty_store_fs).2)) as Hadd.
  { apply result_and_disk; vm_compute; reflexivity. }
  split; [exact Hadd |].
  destruct (AddMessage_failure_leaves_no_raw_file sample_parse sample_hash
              sample_newMessage sample_store sample_incoming_broken
              sample_empty_store_fs) as (_ & _ & H).
  apply (H (mkReader [72]%Z (Some (PathError "read" [])))
           (sample_mbox false []) (sample_mbox true [])
           (mkMessage sample_dir "20180304T050609-0002"
              (mkTime 2018 3 4 5 6 9) "" [] 0 "")
           sample_empty_store_fs
           (createDir (sample_mbox true []) sample_empty_store_fs).2
           (os_Create (sample_dir ++ ["20180304T050609-0002"])
              (createDir (sample_mbox true []) sample_empty_store_fs).2).2
           _ (PathError "read" [])).
  - reflexivity.
  - reflexivity.
  - apply triple_parts; [vm_compute; reflexivity .. |].
    apply sample_newMessage_leaves_disk.
  - apply result_and_disk; vm_compute; reflexivity.
  - apply result_and_disk; vm_compute; reflexivity.
  - exact Hadd.
Defined.

Lemma latest_after_AddMessage_witness :
  ∃ size : Z,
    GetMessage sample_parse sample_hash sample_store "b" "latest"
      (AddMessage sample_parse sample_hash sample_newMessage sample_store
         sample_incoming sample_empty_store_fs).2
    = (Ok (mkMessage sample_dir "20180304T050609-0002"
             (mkTime 2018 3 4 5 6 9) "a@x.com" ["b@y.com"] size "hello"),
       (AddMessage sample_parse sample_hash sample_newMessage sample_store
          sample_incoming sample_empty_store_fs).2).
Proof.
  destruct (latest_after_AddMessage sample_parse sample_hash
              sample_newMessage sample_store sample_incoming
              sample_empty_store_fs
              (AddMessage sample_parse sample_hash sample_newMessage
                 sample_store sample_incoming sample_empty_store_fs).2
              (sample_mbox false []) (sample_mbox true [])
              (mkMessage sample_dir "20180304T050609-0002"
                 (mkTime 2018 3 4 5 6 9) "" [] 0 "")
              sample_empty_store_fs "20180304T050609-0002")
    as (size & H).
  - reflexivity.
  - apply triple_parts; [vm_compute; reflexivity .. |].
    apply sample_newMessage_leaves_disk.
  - reflexivity.
  - apply result_and_disk; vm_compute; reflexivity.
  - cbv zeta in H. destruct H as (_ & _ & _ & _ & _ & Hlatest & _).
    exists size. exact Hlatest.
Defined.

Lemma New_makes_the_mail_root_witness :
  ∃ fs' : FS,
    New (mkConfig ["data"] 0) ∅
    = (Some (mkStore ["data"] ["data"; "mail"] 0), fs')
    ∧ fs' !! ["data"; "mail"] = Some Dir.
Proof.
  destruct (New_makes_the_mail_root (mkConfig ["data"] 0) ∅)
    as [_ H].
  destruct H as (fs' & Hnew & _ & _ & Hdir); [discriminate |].
  exists fs'. split; [exact Hnew |]. apply Hdir.
  right. split; [reflexivity |]. intros q content _ _.
  by rewrite lookup_empty.
Defined.

(** ** Adding and removing again *)

Lemma prefix_of_extended {A} (root q rest : list A) (c : A) :
  q `prefix_of` root ++ c :: rest →
  q `prefix_of` root ∨ root ++ [c] `prefix_of` q.
Proof.
  revert q. induction root as [|a root IH]; intros q Hq.
  - destruct q as [|b q]; [left; apply prefix_nil |].
    simpl in Hq. apply prefix_cons_inv_1 in Hq as ->. right.
    apply prefix_cons, prefix_nil.
  - destruct q as [|b q]; [left; apply prefix_nil |].
    simpl in Hq. pose proof (prefix_cons_inv_1 _ _ _ _ Hq) as ->.
    apply prefix_cons_inv_2, IH in Hq as [Hq | Hq].
    + left. by apply prefix_cons.
    + right. simpl. by apply prefix_cons.
Qed.

Lemma fs_lookup_nonempty (fs : FS) (p : pathname) :
  p ≠ [] → fs_lookup fs p = fs !! p.
Proof. by destruct p. Qed.

Lemma os_Create_new (dir : pathname) (c : string) (fs : FS) :
  dir ≠ [] → fs !! dir = Some Dir → fs !! (dir ++ [c]) ≠ Some Dir →
  os_Create (dir ++ [c]) fs = (None, <[dir ++ [c] := File []]> fs).
Proof.
  intros Hne Hd Hf.
  pose proof (proj2 (os_Create_succeeds (dir ++ [c]) fs)) as Hok.
  rewrite filepath_Dir_child in Hok.
  destruct (os_Create (dir ++ [c]) fs) as [e fs'] eqn:E. simpl in Hok.
  assert (e = None) as ->.
  { apply Hok. split; [by destruct dir |]. split; [by destruct dir | done]. }
  by apply os_Create_ok in E as [_ ->].
Qed.

Lemma load_leaves_disk (mb : mbox) (fs : FS) :
  (if indexLoaded mb then (None, mb, fs) else readIndex mb fs).2 = fs.
Proof. destruct (indexLoaded mb); [done |]. apply readIndex_leaves_disk. Qed.

Lemma getMessages_leaves_disk (mb : mbox) (fs : FS) :
  (getMessages mb fs).2 = fs.
Proof.
  unfold getMessages. pose proof (load_leaves_disk mb fs) as H.
  destruct (if indexLoaded mb then _ else _) as [[e mb'] fs'].
  simpl in H. subst fs'. by destruct e.
Qed.

Lemma getMessage_leaves_disk (id : string) (mb : mbox) (fs : FS) :
  (getMessage id mb fs).2 = fs.
Proof.
  unfold getMessage. pose proof (load_leaves_disk mb fs) as H.
  destruct (if indexLoaded mb then _ else _) as [[e mb'] fs'].
  simpl in H. subst fs'. by repeat case_match.
Qed.

Section StoreCalls.

Variable ParseMailboxName : string → result string.
Variable HashMailboxName : string → string.
Variable newMessage : mbox → FS → result Message * mbox * FS.

Local Abbreviation Store_mbox :=
  (Store_mbox ParseMailboxName HashMailboxName).
Local Abbreviation RemoveMessage :=
  (RemoveMessage ParseMailboxName HashMailboxName).
Local Abbreviation AddMessage :=
  (AddMessage ParseMailboxName HashMailboxName newMessage).
Local Abbreviation GetMessage :=
  (GetMessage ParseMailboxName HashMailboxName).
Local Abbreviation GetMessages :=
  (GetMessages ParseMailboxName HashMailboxName).
Local Abbreviation PurgeMessages :=
  (PurgeMessages ParseMailboxName HashMailboxName).

Lemma Store_mbox_path (st : Store) (mailbox : string) (mb : mbox) :
  Store_mbox st mailbox = Ok mb → path mb ≠ [].
Proof.
  unfold Store_mbox. destruct (ParseMailboxName mailbox); try done.
  destruct (string_slice _ 0 3); try done.
  destruct (string_slice _ 0 6); try done.
  intros [= <-]. simpl. unfold filepath_Join. by destruct (mailPath st).
Qed.

Lemma Store_mbox_fields (st : Store) (mailbox : string) (mb : mbox) :
  Store_mbox st mailbox = Ok mb →
  indexLoaded mb = false ∧ messages mb = []
  ∧ indexPath mb = path mb ++ [indexFileName].
Proof.
  unfold Store_mbox. destruct (ParseMailboxName mailbox); try done.
  destruct (string_slice _ 0 3); try done.
  destruct (string_slice _ 0 6); try done.
  by intros [= <-].
Qed.

(** X21 ([Store.AddMessage] then [Store.RemoveMessage], with
    [mbox.createDir], [mbox.writeIndex], [mbox.removeMessage],
    [mbox.removeDir] and [removeDirIfEmpty]): in a store whose mail root
    exists and that has nothing below the first-level directory of a
    mailbox, adding a message whose reader delivers its content succeeds
    with the identifier of the new entry; afterwards the mailbox
    directory and its parents are directories and the raw file holds the
    content; and removing that message again succeeds and leaves the disk
    exactly as it was before the message was added, the three
    directories included. *)
Theorem AddMessage_then_RemoveMessage_restores_the_disk :
  ∀ (st : Store) (m : StoreMessage) (r : RawReader) (fs : FS)
    (mb0 mb : mbox) (fm : Message) (s1 s2 d : string),
    sm_RawReader m = inr r → raw_error r = None →
    Store_mbox st (sm_Mailbox m) = Ok mb0 →
    path mb0 = mailPath st ++ [s1; s2; d] →
    (∀ q, q ≠ [] → q `prefix_of` mailPath st → fs !! q = Some Dir) →
    (∀ p, mailPath st ++ [s1] `prefix_of` p → fs !! p = None) →
    newMessage mb0 fs = (Ok fm, mb, fs) →
    messages mb = [] → path mb = path mb0 → indexPath mb = indexPath mb0 →
    mailbox fm = path mb0 → Fid fm ≠ indexFileName →
    ∃ fs1 : FS,
      AddMessage st m fs = (Ok (Fid fm), fs1)
      ∧ (∀ q, q ≠ [] → q `prefix_of` path mb0 → fs1 !! q = Some Dir)
      ∧ fs1 !! rawPath fm = Some (File (raw_content (raw_data r)))
      ∧ RemoveMessage st (sm_Mailbox m) (Fid fm) fs1 = (Ok tt, fs).
Proof.
  intros st m r fs mb0 mb fm s1 s2 d Hr Hre Hmb HP Hroot Hfree Hnew Hmsgs
    Hpath Hidx Hfm Hfid.
  destruct (Store_mbox_fields st _ mb0 Hmb) as (Hl0 & Hm0 & Hidx0).
  set (root := mailPath st) in *. set (P := path mb0) in *.
  assert (root ++ [s1] `prefix_of` P) as Hd1P.
  { rewrite HP. exists [s2; d]. by rewrite <- app_assoc. }
  assert (∀ p, P `prefix_of` p → fs !! p = None) as HfreeP.
  { intros p Hp. apply Hfree. by etrans. }
  assert (P ≠ []) as HPne by (rewrite HP; by destruct root).
  assert (rawPath fm = P ++ [Fid fm]) as Hraw
    by (unfold rawPath, filepath_Join; by rewrite Hfm).
  assert (∀ c, ¬ (P ++ [c]) `prefix_of` P) as Hlonger.
  { intros c. apply prefix_of_shorter. rewrite length_app. simpl. lia. }
  assert (∀ c, P ++ [c] ≠ P) as Hchild.
  { intros c E. apply (f_equal length) in E. rewrite length_app in E.
    simpl in E. lia. }
  assert (P ++ [indexFileName] ≠ P ++ [Fid fm]) as Hir
    by (by intros [_ [=]]%app_inj_tail).
  (* the mailbox directory is made *)
  destruct (createDir_missing mb fs) as (fsa & Hcd & Hdirs & Hframe).
  { rewrite Hpath, fs_lookup_nonempty by done. by apply HfreeP. }
  { rewrite Hpath. intros q content Hq Hpre. fold P in Hpre.
    rewrite HP in Hpre.
    destruct (prefix_of_extended _ _ _ _ Hpre) as [Hq' | Hq'].
    - by rewrite (Hroot q Hq Hq').
    - by rewrite Hfree. }
  rewrite Hpath in Hdirs, Hframe. fold P in Hdirs, Hframe.
  (* the disk after Add *)
  set (fm' := with_metadata fm m (Z.of_nat (length (raw_data r)))).
  set (content := raw_content (raw_data r)).
  set (fs3 := <[P ++ [Fid fm] := File content]>
                (<[P ++ [Fid fm] := File []]> fsa)).
  assert (∀ p, p ≠ P ++ [Fid fm] → fs3 !! p = fsa !! p) as Hfs3.
  { intros p Hp. unfold fs3. by rewrite !lookup_insert_ne. }
  set (stream := index_stream (name mb) [fm']).
  set (fs1 := <[P ++ [indexFileName] := File stream]>
                (<[P ++ [indexFileName] := File []]> fs3)).
  assert (AddMessage st m fs = (Ok (Fid fm), fs1)) as Hadd.
  { unfold AddMessage. rewrite Hr, Hmb, Hnew, Hcd, Hraw.
    rewrite os_Create_new; [| done | by apply Hdirs |].
    2:{ rewrite Hframe by (intros [_ ?]; by eapply Hlonger).
        rewrite HfreeP; [done |]. by exists [Fid fm]. }
    rewrite Hre.
    rewrite writeIndex_nonempty by (simpl; rewrite Hmsgs; discriminate).
    change (createDir (set_messages ?l mb)) with (createDir mb).
    change (indexPath (set_messages ?l mb)) with (indexPath mb).
    change (name (set_messages ?l mb)) with (name mb).
    change (messages (set_messages ?l mb)) with l.
    unfold flush_and_close. fold content fm' fs3.
    rewrite createDir_existing.
    2:{ rewrite Hpath, fs_lookup_nonempty by done.
        rewrite Hfs3 by (intros E; by apply (Hchild (Fid fm))).
        by rewrite Hdirs. }
    rewrite Hmsgs, Hidx, Hidx0. simpl app.
    rewrite os_Create_new; [done | done | |].
    - rewrite Hfs3 by (intros E; by apply (Hchild (Fid fm))).
      by apply Hdirs.
    - rewrite Hfs3 by done.
      rewrite Hframe by (intros [_ ?]; by eapply Hlonger).
      rewrite HfreeP; [done |]. by exists [indexFileName]. }
  assert (fs1 !! (P ++ [indexFileName]) = Some (File stream)) as Hstored
    by apply lookup_insert_eq.
  assert (∀ q, q ≠ [] → q `prefix_of` P → fs1 !! q = Some Dir) as Hdirs1.
  { intros q Hq Hpre. unfold fs1.
    assert (∀ c, q ≠ P ++ [c]) as Hqc.
    { intros c ->. by eapply Hlonger. }
    rewrite !lookup_insert_ne by done. rewrite Hfs3 by done.
    by apply Hdirs. }
  assert (∀ p, ¬ P `prefix_of` p → ¬ (p ≠ [] ∧ p `prefix_of` P) →
               fs1 !! p = fs !! p) as Hframe1.
  { intros p Hp1 Hp2. unfold fs1.
    assert (∀ c, p ≠ P ++ [c]) as Hpc.
    { intros c ->. apply Hp1. by exists [c]. }
    rewrite !lookup_insert_ne by done. rewrite Hfs3 by done.
    by apply Hframe. }
  exists fs1. split; [exact Hadd |]. split; [exact Hdirs1 |].
  split.
  { rewrite Hraw. unfold fs1. rewrite !lookup_insert_ne by done.
    apply lookup_insert_eq. }
  clear Hadd.
  clearbody fs1. clear Hfs3 fs3 Hframe Hdirs Hcd fsa.
  (* removing the message again *)
  unfold RemoveMessage. rewrite Hmb.
  unfold removeMessage. rewrite Hl0.
  rewrite (readIndex_of_index_stream mb0 fs1 (name mb) [fm']);
    [| rewrite Hidx0; by destruct P | by rewrite Hidx0].
  cbn [fmap list_fmap find_id messages set_indexLoaded set_messages].
  destruct (decide _) as [_ | Hn]; [| by destruct Hn].
  cbn [take drop app]. unfold writeIndex.
  cbn [messages set_messages set_indexLoaded set_name].
  match goal with |- context [removeDir ?h fs1] => set (mbE := h) end.
  destruct (removeDir_prunes mbE fs1 root s1 s2 d HP)
    as (fs2 & -> & Hgone & Hd2 & _ & Hd1 & _ & Hother).
  change (path mbE) with P in Hgone, Hother.
  assert (empty_but fs1 (root ++ [s1; s2]) d) as He2.
  { split.
    - apply Hdirs1; [by destruct root |]. rewrite HP. exists [d].
      by rewrite <- app_assoc.
    - intros c' Hc'. rewrite <- app_assoc. simpl.
      rewrite Hframe1.
      + apply Hfree. exists [s2; c']. by rewrite <- app_assoc.
      + rewrite HP. intros Hpre%prefix_app_inv.
        do 2 apply prefix_cons_inv_2 in Hpre.
        by apply prefix_cons_inv_1 in Hpre.
      + rewrite HP. intros [_ Hpre%prefix_app_inv].
        do 2 apply prefix_cons_inv_2 in Hpre.
        by apply prefix_cons_inv_1 in Hpre. }
  assert (empty_but fs1 (root ++ [s1]) s2) as He1.
  { split.
    - apply Hdirs1; [by destruct root | done].
    - intros c' Hc'. rewrite <- app_assoc. simpl.
      rewrite Hframe1.
      + apply Hfree. exists [c']. by rewrite <- app_assoc.
      + apply prefix_of_shorter. rewrite HP, !length_app. simpl. lia.
      + rewrite HP. intros [_ Hpre%prefix_app_inv].
        apply prefix_cons_inv_2 in Hpre.
        by apply prefix_cons_inv_1 in Hpre. }
  f_equal. apply map_eq. intros p.
  destruct (decide (P `prefix_of` p)) as [HPp | HPp].
  { by rewrite Hgone, HfreeP. }
  destruct (decide (p = root ++ [s1; s2])) as [-> | Hp2].
  { rewrite Hd2 by done. symmetry. apply Hfree. exists [s2].
    by rewrite <- app_assoc. }
  destruct (decide (p = root ++ [s1])) as [-> | Hp1].
  { rewrite Hd1 by done. symmetry. by apply Hfree. }
  rewrite Hother by done.
  destruct (decide (p ≠ [] ∧ p `prefix_of` P)) as [[Hpne Hpre] | Hno];
    [| by apply Hframe1].
  rewrite Hdirs1 by done. symmetry. rewrite HP in Hpre.
  destruct (prefix_of_extended _ _ _ _ Hpre) as [Hq | [k ->]];
    [by apply Hroot |].
  exfalso. rewrite <- app_assoc in Hpre. apply prefix_app_inv in Hpre.
  simpl in Hpre. apply prefix_cons_inv_2 in Hpre.
  destruct k as [|a [|b k]].
  - by rewrite app_nil_r in Hp1.
  - apply prefix_cons_inv_1 in Hpre as ->. apply Hp2.
    by rewrite <- app_assoc.
  - pose proof (prefix_cons_inv_1 _ _ _ _ Hpre) as ->.
    apply prefix_cons_inv_2 in Hpre.
    pose proof (prefix_cons_inv_1 _ _ _ _ Hpre) as ->.
    apply HPp. rewrite HP. exists k. by rewrite <- !app_assoc.
Qed.

(** X22 ([Store.PurgeMessages], [Store.GetMessages], [Store.GetMessage]):
    for every mailbox name that resolves, Purge returns no error and only
    removes from the disk; afterwards nothing is at or below the mailbox
    directory, the mailbox lists no message, Get returns the not-found
    error for every identifier ("latest" too), and purging again
    changes nothing. *)
Theorem PurgeMessages_empties_the_mailbox :
  ∀ (st : Store) (mailbox : string) (mb : mbox) (fs : FS),
    Store_mbox st mailbox = Ok mb →
    ∃ fs' : FS,
      PurgeMessages st mailbox fs = (Ok tt, fs')
      ∧ only_removes fs fs'
      ∧ (∀ p, path mb `prefix_of` p → fs' !! p = None)
      ∧ GetMessages st mailbox fs' = (Ok [], fs')
      ∧ (∀ id, GetMessage st mailbox id fs' = (Error ErrNotExist, fs'))
      ∧ PurgeMessages st mailbox fs' = (Ok tt, fs').
Proof.
  intros st mailbox mb fs Hmb.
  destruct (Store_mbox_fields st _ mb Hmb) as (Hl & Hm & Hidx).
  pose proof (Store_mbox_path st _ mb Hmb) as Hne.
  pose proof (removeDir_removes_mailbox mb fs Hne) as Hgone.
  exists (removeDir mb fs).2.
  assert (readIndex mb (removeDir mb fs).2
          = (None, set_indexLoaded true (set_messages [] mb),
             (removeDir mb fs).2)) as Hread.
  { apply readIndex_missing. unfold os_Stat. rewrite Hidx.
    rewrite fs_lookup_child. apply Hgone. by exists [indexFileName]. }
  split; [| split; [apply removeDir_only_removes | split; [exact Hgone |]]].
  { unfold PurgeMessages. by rewrite Hmb, purge_result. }
  split; [| split].
  - unfold GetMessages. rewrite Hmb. unfold getMessages.
    by rewrite Hl, Hread.
  - intros id. unfold GetMessage. rewrite Hmb. unfold getMessage.
    rewrite Hl, Hread. simpl. by destruct (decide (id = "latest")).
  - unfold PurgeMessages. rewrite Hmb, purge_result.
    change (removeDir (set_messages [] mb)) with (removeDir mb).
    by rewrite removeDir_twice.
Qed.

(** X23 ([Store.GetMessage], [Store.GetMessages], [Store.RemoveMessage],
    [Store.PurgeMessages]): GetMessage and GetMessages leave the disk as
    it is, whatever they return and whatever the index holds; and for a
    mailbox name that the store does not resolve each of the four
    methods returns the error of the resolution and leaves the disk
    alone. *)
Theorem reading_the_store_leaves_the_disk :
  ∀ (st : Store) (mailbox id : string) (fs : FS),
    (GetMessage st mailbox id fs).2 = fs
    ∧ (GetMessages st mailbox fs).2 = fs
    ∧ ∀ e, Store_mbox st mailbox = Error e →
           GetMessage st mailbox id fs = (Error e, fs)
           ∧ GetMessages st mailbox fs = (Error e, fs)
           ∧ RemoveMessage st mailbox id fs = (Error e, fs)
           ∧ PurgeMessages st mailbox fs = (Error e, fs).
Proof.
  intros st mailbox id fs.
  unfold GetMessage, GetMessages, RemoveMessage, PurgeMessages.
  split; [| split].
  - destruct (Store_mbox st mailbox) as [mb | e | msg]; [| done..].
    pose proof (getMessage_leaves_disk id mb fs) as Hfs.
    by destruct (getMessage id mb fs) as [[r mb'] fs'].
  - destruct (Store_mbox st mailbox) as [mb | e | msg]; [| done..].
    pose proof (getMessages_leaves_disk mb fs) as Hfs.
    by destruct (getMessages mb fs) as [[r mb'] fs'].
  - by intros e ->.
Qed.

End StoreCalls.

Lemma AddMessage_then_RemoveMessage_restores_the_disk_witness :
  ∃ fs1 : FS,
    AddMessage sample_parse sample_hash sample_newMessage sample_store
      sample_incoming sample_empty_store_fs
    = (Ok "20180304T050609-0002", fs1)
    ∧ RemoveMessage sample_parse sample_hash sample_store "b"
        "20180304T050609-0002" fs1
      = (Ok tt, sample_empty_store_fs).
Proof.
  destruct (AddMessage_then_RemoveMessage_restores_the_disk sample_parse
              sample_hash sample_newMessage sample_store sample_incoming
              (mkReader [72; 105]%Z None) sample_empty_store_fs
              (sample_mbox false []) (sample_mbox true [])
              (mkMessage sample_dir "20180304T050609-0002"
                 (mkTime 2018 3 4 5 6 9) "" [] 0 "")
              "da3" "da39a3" sample_token)
    as (fs1 & Hadd & _ & _ & Hrm).
  - reflexivity.
  - reflexivity.
  - reflexivity.
  - reflexivity.
  - intros q Hq Hpre. destruct q as [|a q]; [done |].
    pose proof (prefix_cons_inv_1 _ _ _ _ Hpre) as ->.
    apply prefix_cons_inv_2 in Hpre. destruct q as [|b q]; [reflexivity |].
    pose proof (prefix_cons_inv_1 _ _ _ _ Hpre) as ->.
    apply prefix_cons_inv_2, prefix_nil_inv in Hpre as ->. reflexivity.
  - intros p [k ->]. unfold sample_empty_store_fs. simpl.
    rewrite lookup_insert_ne by discriminate.
    apply lookup_singleton_ne. discriminate.
  - apply triple_parts; [vm_compute; reflexivity .. |].
    apply sample_newMessage_leaves_disk.
  - reflexivity.
  - reflexivity.
  - reflexivity.
  - reflexivity.
  - discriminate.
  - exists fs1. split; [exact Hadd | exact Hrm].
Defined.

Lemma PurgeMessages_empties_the_mailbox_witness :
  ∃ fs' : FS,
    PurgeMessages sample_parse sample_hash sample_store "b" sample_fs
    = (Ok tt, fs')
    ∧ GetMessages sample_parse sample_hash sample_store "b" fs'
      = (Ok [], fs').
Proof.
  destruct (PurgeMessages_empties_the_mailbox sample_parse sample_hash
              sample_store "b" (sample_mbox false []) sample_fs)
    as (fs' & Hp & _ & _ & Hg & _); [reflexivity |].
  exists fs'. split; [exact Hp | exact Hg].
Defined.
